(** * spec_parser.rdf: the ontology graph builder and the context deriver

    A shallow embedding of [src/spec_parser/rdf.py], and of the link
    functions of [src/spec_parser/mkdocs.py], with the properties that
    the specification states about them and further properties of the
    code.

    Conventions of the embedding.
    - A Python [str] is a [string]. The functions on strings are embedded
      for ASCII text, and say so; [Py.int] is embedded for any text, read
      as UTF-8.
    - A Python [dict] that the code iterates over is an association list
      in insertion order ([dict_get] finds the entry of a key); a [dict]
      that is only looked up is a [gmap].
    - Exceptions ([KeyError], [ValueError]) and the possible divergence of
      the unguarded [while] loop are the three non-[Ok] cases of [outcome].
    - The rdflib graph is append-only while it is built: it is the list of
      its triples in order of first insertion; blank nodes are numbered by
      a counter kept next to the graph.
    - [logging.warn] and [logging.error] append to a list of diagnostics. *)

From Stdlib Require Import ZArith Lia Ascii.
From stdpp Require Import base strings pretty list finite gmap sorting.

Local Open Scope string_scope.
Local Open Scope nat_scope.
Local Open Scope list_scope.

(** ** Python strings *)

Module Py.

(** [s.startswith(pre)] *)
Definition startswith (s pre : string) : bool := String.prefix pre s.

(** [c in s] for a one-character [c] *)
Fixpoint contains (c : ascii) (s : string) : bool :=
  match s with
  | EmptyString => false
  | String a s' => if decide (a = c) then true else contains c s'
  end.

(** [s.split(c)]: the pieces of [s] between the occurrences of [c]. *)
Fixpoint split (c : ascii) (s : string) : list string :=
  match s with
  | EmptyString => [EmptyString]
  | String a s' =>
      if decide (a = c) then EmptyString :: split c s'
      else match split c s' with
           | [] => [String a EmptyString]
           | w :: ws => String a w :: ws
           end
  end.

(** [c.join(l)] *)
Fixpoint join (c : ascii) (l : list string) : string :=
  match l with
  | [] => EmptyString
  | [w] => w
  | w :: ws => w +:+ String c (join c ws)
  end.

(** [s.rsplit(c, maxsplit)]: only the last [maxsplit] separators split. *)
Definition rsplit (c : ascii) (maxsplit : nat) (s : string) : list string :=
  let parts := split c s in
  let k := S (length parts - 1 - maxsplit) in
  join c (take k parts) :: drop k parts.

(** [s.rsplit(c)[-1]] *)
Definition last_piece (c : ascii) (s : string) : string :=
  List.last (split c s) EmptyString.

(** [s.rstrip(c)] *)
Fixpoint rstrip (c : ascii) (s : string) : string :=
  match s with
  | EmptyString => EmptyString
  | String a s' =>
      match rstrip c s' with
      | EmptyString => if decide (a = c) then EmptyString else String a EmptyString
      | r => String a r
      end
  end.

(** [s.lower()] on ASCII text: only [A]..[Z] change. *)
Definition lower_ascii (a : ascii) : ascii :=
  let n := Ascii.N_of_ascii a in
  if ((65 <=? n) && (n <=? 90))%N then Ascii.ascii_of_N (n + 32) else a.

Fixpoint lower (s : string) : string :=
  match s with
  | EmptyString => EmptyString
  | String a s' => String (lower_ascii a) (lower s')
  end.

(** [int(s)] in base 10, as CPython 3.11 computes it for a [str]
    ([PyLong_FromUnicodeObject], then [PyLong_FromString]). The [str]
    is held as its UTF-8 encoding; [None] is [ValueError]. *)

(** The continuation byte [a] of a UTF-8 sequence gives six bits. *)
Definition continuation (a : ascii) : option N :=
  let n := Ascii.N_of_ascii a in
  if ((128 <=? n) && (n <? 192))%N then Some (n - 128)%N else None.

(** A code point that takes a sequence of its length: [lo] at least, no
    surrogate, [0x10FFFF] at most. *)
Definition scalar (lo c : N) : option N :=
  if ((lo <=? c) && (c <=? 1114111)
      && negb ((55296 <=? c) && (c <=? 57343)))%N
  then Some c else None.

(** The code points of a UTF-8 text; [None] when the bytes are none. *)
Fixpoint code_points (l : list ascii) : option (list N) :=
  match l with
  | [] => Some []
  | a :: l1 =>
      let n := Ascii.N_of_ascii a in
      if (n <? 128)%N then cons n <$> code_points l1
      else if (n <? 192)%N then None
      else if (n <? 224)%N then
        match l1 with
        | a1 :: l2 =>
            c1 ← continuation a1;
            c ← scalar 128 ((n - 192) * 64 + c1)%N;
            cons c <$> code_points l2
        | _ => None
        end
      else if (n <? 240)%N then
        match l1 with
        | a1 :: a2 :: l3 =>
            c1 ← continuation a1; c2 ← continuation a2;
            c ← scalar 2048 (((n - 224) * 64 + c1) * 64 + c2)%N;
            cons c <$> code_points l3
        | _ => None
        end
      else if (n <? 248)%N then
        match l1 with
        | a1 :: a2 :: a3 :: l4 =>
            c1 ← continuation a1; c2 ← continuation a2; c3 ← continuation a3;
            c ← scalar 65536 ((((n - 240) * 64 + c1) * 64 + c2) * 64 + c3)%N;
            cons c <$> code_points l4
        | _ => None
        end
      else None
  end.

(** [Py_UNICODE_ISSPACE] from code point 127 on. *)
Definition is_space (c : N) : bool :=
  bool_decide (c ∈ [133; 160; 5760; 8232; 8233; 8239; 8287; 12288]%N)
  || ((8192 <=? c) && (c <=? 8202))%N.

(** The decimal digits of Unicode 14.0 outside ASCII (category [Nd]):
    the first code point of each run of digits and the length of the
    run; a run counts [0] to [9] over and over. *)
Definition decimal_runs : list (N * N) :=
  [(0x660, 10); (0x6f0, 10); (0x7c0, 10); (0x966, 10); (0x9e6, 10);
   (0xa66, 10); (0xae6, 10); (0xb66, 10); (0xbe6, 10); (0xc66, 10);
   (0xce6, 10); (0xd66, 10); (0xde6, 10); (0xe50, 10); (0xed0, 10);
   (0xf20, 10); (0x1040, 10); (0x1090, 10); (0x17e0, 10); (0x1810, 10);
   (0x1946, 10); (0x19d0, 10); (0x1a80, 10); (0x1a90, 10); (0x1b50, 10);
   (0x1bb0, 10); (0x1c40, 10); (0x1c50, 10); (0xa620, 10); (0xa8d0, 10);
   (0xa900, 10); (0xa9d0, 10); (0xa9f0, 10); (0xaa50, 10); (0xabf0, 10);
   (0xff10, 10); (0x104a0, 10); (0x10d30, 10); (0x11066, 10);
   (0x110f0, 10); (0x11136, 10); (0x111d0, 10); (0x112f0, 10);
   (0x11450, 10); (0x114d0, 10); (0x11650, 10); (0x116c0, 10);
   (0x11730, 10); (0x118e0, 10); (0x11950, 10); (0x11c50, 10);
   (0x11d50, 10); (0x11da0, 10); (0x16a60, 10); (0x16ac0, 10);
   (0x16b50, 10); (0x1d7ce, 50); (0x1e140, 10); (0x1e2f0, 10);
   (0x1e950, 10); (0x1fbf0, 10)]%N.

(** [Py_UNICODE_TODECIMAL] from code point 127 on. *)
Definition to_decimal (c : N) : option N :=
  match filter (λ r, (r.1 ≤ c < r.1 + r.2)%N) decimal_runs with
  | r :: _ => Some ((c - r.1) `mod` 10)%N
  | [] => None
  end.

(** [_PyUnicode_TransformDecimalAndSpaceToASCII]: a text of ASCII
    characters is taken as it is; in any other, a blank becomes a space
    and a decimal digit its ASCII digit, from code point 127 on, and a
    character that is neither makes the conversion fail. *)
Definition to_ascii (c : N) : option ascii :=
  if (c <? 127)%N then Some (Ascii.ascii_of_N c)
  else if is_space c then Some " "%char
  else (λ d, Ascii.ascii_of_N (48 + d)) <$> to_decimal c.

Definition transform (l : list ascii) : option (list ascii) :=
  if forallb (λ a, (Ascii.N_of_ascii a <? 128)%N) l then Some l
  else code_points l ≫= mapM to_ascii.

(** [Py_ISSPACE] *)
Definition is_blank (a : ascii) : bool :=
  let n := Ascii.N_of_ascii a in
  ((n =? 32) || ((9 <=? n) && (n <=? 13)))%N.

Definition digit (a : ascii) : option Z :=
  let n := Ascii.N_of_ascii a in
  if ((48 <=? n) && (n <=? 57))%N then Some (Z.of_N n - 48)%Z else None.

(** The digits of the literal, single underscores between them. *)
Fixpoint digits (acc : Z) (after_digit : bool) (l : list ascii) : option Z :=
  match l with
  | [] => if after_digit then Some acc else None
  | a :: l' =>
      if decide (a = "_"%char) then
        if after_digit then digits acc false l' else None
      else match digit a with
           | Some d => digits (10 * acc + d)%Z true l'
           | None => None
           end
  end.

Fixpoint lstrip_blank (l : list ascii) : list ascii :=
  match l with
  | a :: l' => if is_blank a then lstrip_blank l' else l
  | [] => []
  end.

Definition strip_blank (l : list ascii) : list ascii :=
  List.rev (lstrip_blank (List.rev (lstrip_blank l))).

(** [sys.get_int_max_str_digits()], as the interpreter starts. *)
Definition max_str_digits : N := 4300.

Definition digit_count (l : list ascii) : N :=
  N.of_nat (length (filter (λ a, is_Some (digit a)) l)).

(** [PyLong_FromString]: blanks around, an optional sign, the digits;
    more than [max_str_digits] digits are refused. *)
Definition literal (l : list ascii) : option Z :=
  z ← digits 0 false l;
  if (max_str_digits <? digit_count l)%N then None else Some z.

Definition int (s : string) : option Z :=
  l ← transform (String.list_ascii_of_string s);
  match strip_blank l with
  | a :: l' =>
      if decide (a = "-"%char) then Z.opp <$> literal l'
      else if decide (a = "+"%char) then literal l'
      else literal (a :: l')
  | [] => None
  end.

End Py.

(** ** Outcomes: a value, an exception, or a loop that was cut short *)

Inductive exn :=
  | KeyError (key : string)
  | ValueError (what : string).

Inductive outcome (A : Type) :=
  | Ok (a : A)
  | Raise (e : exn)
  | OutOfFuel.
Arguments Ok {A} a.
Arguments Raise {A} e.
Arguments OutOfFuel {A}.

Definition bind {A B} (x : outcome A) (k : A → outcome B) : outcome B :=
  match x with
  | Ok a => k a
  | Raise e => Raise e
  | OutOfFuel => OutOfFuel
  end.

Notation "'let*' x ':=' e 'in' k" := (bind e (λ x, k))
  (at level 10, x name, e at level 200, k at level 200, only parsing).

Definition is_Ok {A} (x : outcome A) : Prop := ∃ a, x = Ok a.

(** ** Dictionaries in insertion order *)

Fixpoint dict_get {K} `{EqDecision K} {V} (k : K) (d : list (K * V)) : option V :=
  match d with
  | [] => None
  | (k', v) :: d' => if decide (k = k') then Some v else dict_get k d'
  end.

(** [d[k] = v]: an existing key keeps its place, a new one goes last. *)
Fixpoint dict_set {K} `{EqDecision K} {V} (k : K) (v : V) (d : list (K * V))
    : list (K * V) :=
  match d with
  | [] => [(k, v)]
  | (k', v') :: d' =>
      if decide (k = k') then (k, v) :: d' else (k', v') :: dict_set k v d'
  end.

(** [d[k]] *)
Definition getitem {V} (k : string) (d : list (string * V)) : outcome V :=
  match dict_get k d with
  | Some v => Ok v
  | None => Raise (KeyError k)
  end.

(** [m[k]] on a dictionary that is only looked up *)
Definition mgetitem {V} (k : string) (d : gmap string V) : outcome V :=
  match d !! k with
  | Some v => Ok v
  | None => Raise (KeyError k)
  end.

(** ** The schema model (read-only input) *)

Record Namespace := { ns_name : string }.

(** One entry of [Class.properties]: [{fqname, minCount, maxCount}]. *)
Record PropertyRef := {
  fqname : string;
  minCount : string;
  maxCount : string
}.

Record Class := {
  c_name : string;
  c_ns : Namespace;
  c_iri : string;
  c_summary : option string;
  c_metadata : gmap string string;
  c_properties : list (string * PropertyRef)
}.

Record Property := {
  p_name : string;
  p_ns : Namespace;
  p_iri : string;
  p_summary : option string;
  p_metadata : gmap string string
}.

Record Vocabulary := {
  v_name : string;
  v_ns : Namespace;
  v_iri : string;
  v_summary : option string;
  v_entries : list (string * string)
}.

Record Datatype := {
  d_name : string;
  d_ns : Namespace;
  d_iri : string;
  d_metadata : gmap string string;
  d_format : gmap string string
}.

Record Individual := {
  i_name : string;
  i_ns : Namespace;
  i_iri : string;
  i_summary : option string;
  i_metadata : gmap string string
}.

(** What [model.types] maps a name to; only its [iri] is read. *)
Inductive Entity :=
  | EClass (c : Class)
  | EVocabulary (v : Vocabulary)
  | EDatatype (d : Datatype).

Definition entity_iri (e : Entity) : string :=
  match e with
  | EClass c => c_iri c
  | EVocabulary v => v_iri v
  | EDatatype d => d_iri d
  end.

Record Model := {
  classes : list (string * Class);
  properties : list (string * Property);
  vocabularies : list (string * Vocabulary);
  datatypes : gmap string Datatype;
  individuals : list (string * Individual);
  types : gmap string Entity
}.

(** Python truthiness of an optional string: [None] and [''] are false. *)
Definition truthy (s : option string) : bool :=
  match s with
  | Some (String _ _) => true
  | _ => false
  end.

(** ** Reference resolution

    The source writes [('' if ref.startswith('/') else f'/{ns}/') + ref]
    at each place where a reference is turned into a lookup key
    ([get_parent], the two range look-ups, the individuals' types). *)

Definition resolve_ref (ns ref : string) : string :=
  (if Py.startswith ref "/" then EmptyString else "/" +:+ ns +:+ "/") +:+ ref.

(** [get_parent(c, model)] *)
Definition get_parent (c : Class) (model : Model) : outcome (option Class) :=
  let parent := c_metadata c !! "SubclassOf" in
  if negb (truthy parent) then Ok None
  else
    let parent := default EmptyString parent in
    let* p := getitem (resolve_ref (ns_name (c_ns c)) parent) (classes model) in
    Ok (Some p).

(** ** The inheritance walk ([gen_rdf_ontology], lines 84-103) *)

(** [prop.metadata["Nature"]] *)
Definition nature (prop : Property) : outcome string :=
  mgetitem "Nature" (p_metadata prop).

(** The name stored in [id_property] for an identifying property. *)
Definition id_property_name (fqprop : string) (prop : Property) : string :=
  let id_property := Py.last_piece "/" fqprop in
  if decide (ns_name (p_ns prop) ≠ "Core")
  then Py.lower (ns_name (p_ns prop)) +:+ "_" +:+ id_property
  else id_property.

(** The [for p in parent.properties] loop: every match overwrites. *)
Fixpoint scan_id_property (model : Model) (props : list (string * PropertyRef))
    (id_property : option string) : outcome (option string) :=
  match props with
  | [] => Ok id_property
  | (_, r) :: props' =>
      let fqprop := fqname r in
      let* prop := getitem fqprop (properties model) in
      let* n := nature prop in
      let id_property :=
        if decide (n = "IdProperty") then Some (id_property_name fqprop prop)
        else id_property in
      scan_id_property model props' id_property
  end.

(** One round of the [while parent:] loop per unit of fuel. *)
Fixpoint walk (fuel : nat) (model : Model) (parent : Class)
    (referenceable id_property : option string)
    : outcome (option string * option string) :=
  match fuel with
  | 0 => OutOfFuel
  | S fuel' =>
      let referenceable :=
        match referenceable with
        | None => c_metadata parent !! "Referenceable"
        | Some _ => referenceable
        end in
      let* id_property :=
        match id_property, c_properties parent with
        | None, _ :: _ => scan_id_property model (c_properties parent) None
        | _, _ => Ok id_property
        end in
      let* next := get_parent parent model in
      match next with
      | Some parent' => walk fuel' model parent' referenceable id_property
      | None => Ok (referenceable, id_property)
      end
  end.

(** The walk from [c], with the default of line 102. *)
Definition inheritance_walk (fuel : nat) (model : Model) (c : Class)
    : outcome (string * option string) :=
  let* found := walk fuel model c None None in
  Ok (default "optional" (fst found), snd found).

(** ** RDF terms and the graph under construction *)

Inductive node :=
  | URIRef (iri : string)
  | BNode (id : nat).

Inductive object :=
  | Res (n : node)
  | Literal (lex : string) (lang : option string)
  | IntLiteral (value : Z).

Coercion Res : node >-> object.

(** Subject, predicate (its IRI), object. *)
Definition triple : Type := node * string * object.

Global Instance node_eq_dec : EqDecision node.
Proof. solve_decision. Defined.
Global Instance object_eq_dec : EqDecision object.
Proof. solve_decision. Defined.

Definition URI_BASE : string := "https://rdf.spdx.org/v3/".

Module RDF.
Definition type : string := "http://www.w3.org/1999/02/22-rdf-syntax-ns#type".
Definition Property : node := URIRef "http://www.w3.org/1999/02/22-rdf-syntax-ns#Property".
End RDF.

Module RDFS.
Definition Class : node := URIRef "http://www.w3.org/2000/01/rdf-schema#Class".
Definition comment : string := "http://www.w3.org/2000/01/rdf-schema#comment".
Definition subClassOf : string := "http://www.w3.org/2000/01/rdf-schema#subClassOf".
Definition range : string := "http://www.w3.org/2000/01/rdf-schema#range".
Definition label : string := "http://www.w3.org/2000/01/rdf-schema#label".
End RDFS.

Module OWL.
Definition Ontology : node := URIRef "http://www.w3.org/2002/07/owl#Ontology".
Definition versionIRI : string := "http://www.w3.org/2002/07/owl#versionIRI".
Definition Class : node := URIRef "http://www.w3.org/2002/07/owl#Class".
Definition ObjectProperty : node := URIRef "http://www.w3.org/2002/07/owl#ObjectProperty".
Definition DatatypeProperty : node := URIRef "http://www.w3.org/2002/07/owl#DatatypeProperty".
Definition NamedIndividual : node := URIRef "http://www.w3.org/2002/07/owl#NamedIndividual".
Definition sameAs : string := "http://www.w3.org/2002/07/owl#sameAs".
End OWL.

Module SH.
Definition NodeShape : node := URIRef "http://www.w3.org/ns/shacl#NodeShape".
Definition property : string := "http://www.w3.org/ns/shacl#property".
Definition path : string := "http://www.w3.org/ns/shacl#path".
Definition class : string := "http://www.w3.org/ns/shacl#class".
Definition pattern : string := "http://www.w3.org/ns/shacl#pattern".
Definition datatype : string := "http://www.w3.org/ns/shacl#datatype".
Definition minCount : string := "http://www.w3.org/ns/shacl#minCount".
Definition maxCount : string := "http://www.w3.org/ns/shacl#maxCount".
End SH.

(** The custom schema properties of [class SPDXS]. *)
Module SPDXS.
Definition referenceable : string := "https://rdf.spdx.org/ns/schema#referenceable".
Definition idPropertyName : string := "https://rdf.spdx.org/ns/schema#idPropertyName".
End SPDXS.

(** What the two logging calls of the module report. *)
Inductive diagnostic :=
  | UnknownNamespace (rng propname : string)
  | DuplicateKey (key subject current : string).

(** The text handed to [logging.warn] and [logging.error]. *)
Definition message (d : diagnostic) : string :=
  match d with
  | UnknownNamespace rng propname =>
      "Uknown namespace in range <" +:+ rng +:+ "> of property " +:+ propname
  | DuplicateKey key subject current =>
      "ERROR: Duplicate context key '" +:+ key +:+ "' for '" +:+ subject
      +:+ "'. Already mapped to '" +:+ current +:+ "'"
  end.

Record state := {
  graph : list triple;
  bnodes : nat;
  log : list diagnostic
}.

(** [g.add(t)]: a graph is a set, a triple already present stays put. *)
Definition add (t : triple) (st : state) : state :=
  {| graph := if decide (t ∈ graph st) then graph st else graph st ++ [t];
     bnodes := bnodes st;
     log := log st |}.

(** [BNode()]: a node that no earlier call returned. *)
Definition fresh (st : state) : node * state :=
  (BNode (bnodes st),
   {| graph := graph st; bnodes := S (bnodes st); log := log st |}).

Definition warn (d : diagnostic) (st : state) : state :=
  {| graph := graph st; bnodes := bnodes st; log := log st ++ [d] |}.

(** [for x in l: body(x)] with the state threaded through. *)
Fixpoint for_each {A} (body : A → state → outcome state) (l : list A)
    (st : state) : outcome state :=
  match l with
  | [] => Ok st
  | x :: l' => let* st' := body x st in for_each body l' st'
  end.

(** ** [xsd_range] *)

Definition xsd_range (rng propname : string) (st : state) : option node * state :=
  if Py.startswith rng "xsd:"
  then (Some (URIRef ("http://www.w3.org/2001/XMLSchema#"
                      +:+ String.substring 4 (String.length rng - 4) rng)), st)
  else (None, warn (UnknownNamespace rng propname) st).

(** ** [gen_rdf_ontology] *)

(** [if t: g.add((s, p, t))] after a call of [xsd_range]. *)
Definition add_xsd (s : node) (p : string) (rng propname : string)
    (st : state) : state :=
  match xsd_range rng propname st with
  | (Some t, st') => add (s, p, Res t) st'
  | (None, st') => st'
  end.

(** Lines 119-124: the name under which a property's range is looked up. *)
Definition range_typename (prop : Property) (prop_rng : string) : string :=
  if negb (Py.contains ":" prop_rng)
  then resolve_ref (ns_name (p_ns prop)) prop_rng
  else prop_rng.

(** Lines 126-143: the constraint on the values of a property shape. *)
Definition shape_type (model : Model) (bnode : node) (prop : Property)
    (typename : string) (st : state) : outcome state :=
  match dict_get typename (classes model) with
  | Some dt => Ok (add (bnode, SH.class, Res (URIRef (c_iri dt))) st)
  | None =>
  match dict_get typename (vocabularies model) with
  | Some dt => Ok (add (bnode, SH.class, Res (URIRef (v_iri dt))) st)
  | None =>
  match datatypes model !! typename with
  | Some dt =>
      let st :=
        match d_format dt !! "pattern" with
        | Some pat => add (bnode, SH.pattern, Literal pat None) st
        | None => st
        end in
      let* base := mgetitem "SubclassOf" (d_metadata dt) in
      Ok (add_xsd bnode SH.datatype base (p_iri prop) st)
  | None => Ok (add_xsd bnode SH.datatype typename (p_iri prop) st)
  end end end.

(** [int(s)] *)
Definition int (s : string) : outcome Z :=
  match Py.int s with
  | Some z => Ok z
  | None => Raise (ValueError s)
  end.

(** Lines 146-151: the cardinalities of a property shape. *)
Definition shape_counts (bnode : node) (r : PropertyRef) (st : state)
    : outcome state :=
  let* mincount := int (minCount r) in
  let st :=
    if decide (mincount ≠ 0%Z)
    then add (bnode, SH.minCount, IntLiteral mincount) st else st in
  if decide (maxCount r ≠ "*") then
    let* maxcount := int (maxCount r) in
    Ok (add (bnode, SH.maxCount, IntLiteral maxcount) st)
  else Ok st.

(** Lines 111-151: the body of [for p in c.properties]. *)
Definition gen_shape (model : Model) (cnode : node)
    (entry : string * PropertyRef) (st : state) : outcome state :=
  let r := snd entry in
  let* prop := getitem (fqname r) (properties model) in
  let* n := nature prop in
  if decide (n = "IdProperty") then Ok st
  else
    let (bnode, st) := fresh st in
    let st := add (cnode, SH.property, Res bnode) st in
    let st := add (bnode, SH.path, Res (URIRef (p_iri prop))) st in
    let* prop_rng := mgetitem "Range" (p_metadata prop) in
    let* st := shape_type model bnode prop (range_typename prop prop_rng) st in
    shape_counts bnode r st.

(** Lines 75-151: the body of [for fqname, c in model.classes.items()]. *)
Definition gen_class (fuel : nat) (model : Model) (entry : string * Class)
    (st : state) : outcome state :=
  let c := snd entry in
  let cnode := URIRef (c_iri c) in
  let st := add (cnode, RDF.type, Res RDFS.Class) st in
  let st := add (cnode, RDF.type, Res OWL.Class) st in
  let st :=
    if truthy (c_summary c)
    then add (cnode, RDFS.comment, Literal (default EmptyString (c_summary c)) (Some "en")) st
    else st in
  let* parent := get_parent c model in
  let st :=
    match parent with
    | Some parent => add (cnode, RDFS.subClassOf, Res (URIRef (c_iri parent))) st
    | None => st
    end in
  let* found := inheritance_walk fuel model c in
  let st := add (cnode, SPDXS.referenceable, Literal (fst found) None) st in
  let st :=
    match snd found with
    | Some id_property => add (cnode, SPDXS.idPropertyName, Literal id_property None) st
    | None => st
    end in
  match c_properties c with
  | [] => Ok st
  | _ :: _ =>
      let st := add (cnode, RDF.type, Res SH.NodeShape) st in
      for_each (gen_shape model cnode) (c_properties c) st
  end.

(** Lines 155-180: the body of [for fqname, p in model.properties.items()]. *)
Definition gen_property (model : Model) (entry : string * Property)
    (st : state) : outcome state :=
  let p := snd entry in
  let* n := nature p in
  if decide (n = "IdProperty") then Ok st
  else
    let pnode := URIRef (p_iri p) in
    let st := add (pnode, RDF.type, Res RDF.Property) st in
    let st :=
      if truthy (p_summary p)
      then add (pnode, RDFS.comment, Literal (default EmptyString (p_summary p)) (Some "en")) st
      else st in
    let st :=
      if decide (n = "ObjectProperty")
      then add (pnode, RDF.type, Res OWL.ObjectProperty) st
      else if decide (n = "DataProperty")
      then add (pnode, RDF.type, Res OWL.DatatypeProperty) st
      else st in
    let* rng := mgetitem "Range" (p_metadata p) in
    if Py.contains ":" rng then Ok (add_xsd pnode RDFS.range rng (p_name p) st)
    else
      let typename := resolve_ref (ns_name (p_ns p)) rng in
      match datatypes model !! typename with
      | Some dt =>
          let* base := mgetitem "SubclassOf" (d_metadata dt) in
          Ok (add_xsd pnode RDFS.range base (p_name p) st)
      | None =>
          let* dt := mgetitem typename (types model) in
          Ok (add (pnode, RDFS.range, Res (URIRef (entity_iri dt))) st)
      end.

(** Lines 189-193: the body of [for e, d in v.entries.items()]. *)
Definition gen_entry (v : Vocabulary) (vnode : node) (entry : string * string)
    (st : state) : outcome state :=
  let (e, d) := entry in
  let enode := URIRef (v_iri v +:+ "/" +:+ e) in
  let st := add (enode, RDF.type, Res OWL.NamedIndividual) st in
  let st := add (enode, RDF.type, Res vnode) st in
  let st := add (enode, RDFS.label, Literal e None) st in
  Ok (add (enode, RDFS.comment, Literal d (Some "en")) st).

(** Lines 183-193: the body of [for fqname, v in model.vocabularies.items()]. *)
Definition gen_vocabulary (entry : string * Vocabulary) (st : state)
    : outcome state :=
  let v := snd entry in
  let vnode := URIRef (v_iri v) in
  let st := add (vnode, RDF.type, Res RDFS.Class) st in
  let st := add (vnode, RDF.type, Res OWL.Class) st in
  let st :=
    if truthy (v_summary v)
    then add (vnode, RDFS.comment, Literal (default EmptyString (v_summary v)) (Some "en")) st
    else st in
  for_each (gen_entry v vnode) (v_entries v) st.

(** Lines 196-207: the body of [for fqname, i in model.individuals.items()]. *)
Definition gen_individual (model : Model) (entry : string * Individual)
    (st : state) : outcome state :=
  let i := snd entry in
  let inode := URIRef (i_iri i) in
  let st := add (inode, RDF.type, Res OWL.NamedIndividual) st in
  let st :=
    if truthy (i_summary i)
    then add (inode, RDFS.comment, Literal (default EmptyString (i_summary i)) (Some "en")) st
    else st in
  let* typ := mgetitem "type" (i_metadata i) in
  let* dt := mgetitem (resolve_ref (ns_name (i_ns i)) typ) (types model) in
  let st := add (inode, RDFS.range, Res (URIRef (entity_iri dt))) st in
  let custom_iri := i_metadata i !! "IRI" in
  Ok (if truthy custom_iri
      then add (inode, OWL.sameAs, Res (URIRef (default EmptyString custom_iri))) st
      else st).

(** The graph before the first entity is visited (lines 65-72). *)
Definition ontology_header : state :=
  let onode := URIRef URI_BASE in
  add (onode, OWL.versionIRI, Res onode)
    (add (onode, RDF.type, Res OWL.Ontology)
       {| graph := []; bnodes := 0; log := [] |}).

(** [gen_rdf_ontology(model)]; [fuel] bounds each inheritance walk. The
    result carries the graph [g] together with what was logged. *)
Definition gen_rdf_ontology (fuel : nat) (model : Model) : outcome state :=
  let* st := for_each (gen_class fuel model) (classes model) ontology_header in
  let* st := for_each (gen_property model) (properties model) st in
  let* st := for_each gen_vocabulary (vocabularies model) st in
  for_each (gen_individual model) (individuals model) st.

(** ** [jsonld_context] *)

(** [str(n)]. The identifier that [BNode()] generates is opaque; the
    code relies on nothing but its having no ['/']. *)
Definition node_text (n : node) : string :=
  match n with
  | URIRef iri => iri
  | BNode id => "N" +:+ pretty id
  end.

Definition object_text (o : object) : string :=
  match o with
  | Res n => node_text n
  | Literal lex _ => lex
  | IntLiteral z => pretty z
  end.

(** The keys of [terms]. An rdflib term never compares equal to a plain
    [str] (its [__eq__] first compares the types), so the key stored by
    [terms[idname] = "@id"] and a key computed from a subject's text are
    different keys of the dictionary even when they read the same. *)
Inductive term_key :=
  | KStr (s : string)
  | KTerm (o : object).

Global Instance term_key_eq_dec : EqDecision term_key.
Proof. solve_decision. Defined.

(** The values of [terms]. *)
Inductive term_value :=
  | VStr (s : string)
  | VNode (subject : node)
  | VIdType (subject : node)
  | VVocab (subject : node) (vocab : string).

Definition key_text (k : term_key) : string :=
  match k with
  | KStr s => s
  | KTerm o => object_text o
  end.

(** [g.objects(predicate=p)] *)
Definition objects (g : list triple) (p : string) : list object :=
  omap (λ t : triple, if decide (t.1.2 = p) then Some t.2 else None) g.

(** [g.triples((s, p, None))], as the objects *)
Definition objects_of (g : list triple) (s : node) (p : string) : list object :=
  omap (λ t : triple, if decide (t.1 = (s, p)) then Some t.2 else None) g.

(** [g.subjects(unique=True)] *)
Definition subjects (g : list triple) : list node :=
  remove_dups ((λ t : triple, t.1.1) <$> g).

(** The order of rdflib terms: blank nodes before IRIs, and IRIs by their
    text. The identifiers of blank nodes being opaque, their mutual order
    is taken to be that of their creation; the loop skips them all. *)
Definition node_le (a b : node) : Prop :=
  match a, b with
  | BNode i, BNode j => (i ≤ j)%nat
  | BNode _, URIRef _ => True
  | URIRef _, BNode _ => False
  | URIRef s, URIRef t => String.le s t
  end.

Global Instance node_le_dec : RelDecision node_le.
Proof. intros [s|i] [t|j]; simpl; apply _. Defined.

(** [sorted(g.subjects(unique=True))] *)
Definition sorted_subjects (g : list triple) : list node :=
  merge_sort node_le (subjects g).

(** Lines 238-242: the types of the named individuals of [g]. *)
Definition has_named_individuals (g : list triple) : list object :=
  flat_map (λ t : triple,
      if decide (t.1.2 = RDF.type ∧ t.2 = Res OWL.NamedIndividual)
      then objects_of g t.1.1 RDF.type else []) g.

(** [(o, RDF.type, RDFS.Class) in g]; a literal is no subject. *)
Definition is_class (g : list triple) (o : object) : bool :=
  match o with
  | Res n => bool_decide ((n, RDF.type, Res RDFS.Class) ∈ g)
  | _ => false
  end.

(** The loop of [get_subject_term] over the ranges of [subject]. *)
Fixpoint first_range_term (g : list triple) (hni : list object)
    (subject : node) (ranges : list object) : term_value :=
  match ranges with
  | [] => VNode subject
  | o :: ranges' =>
      if decide (o ∈ hni) then VVocab subject (object_text o +:+ "/")
      else if is_class g o then VIdType subject
      else first_range_term g hni subject ranges'
  end.

Definition get_subject_term (g : list triple) (hni : list object)
    (subject : node) : term_value :=
  if decide ((subject, RDF.type, Res OWL.ObjectProperty) ∈ g)
  then first_range_term g hni subject (objects_of g subject RDFS.range)
  else VNode subject.

(** [base, ns, name = str(subject).rsplit("/", 2)]; [None] is the
    [ValueError] of the unpacking. *)
Definition decompose (subject : node) : option (string * string * string) :=
  match subject with
  | URIRef iri =>
      match Py.rsplit "/" 2 iri with
      | [base; ns; name] => Some (base, ns, name)
      | _ => None
      end
  | BNode _ => None
  end.

(** Lines 257-260 *)
Definition context_key (ns name : string) : string :=
  if decide (ns = "Core") then name else Py.lower ns +:+ "_" +:+ name.

(** Line 263 *)
Definition current_target (v : term_value) : string :=
  match v with
  | VStr s => s
  | VNode n | VIdType n | VVocab n _ => node_text n
  end.

Record context := {
  terms : list (term_key * term_value);
  errors : list diagnostic
}.

(** Lines 245-269: the body of the loop over the sorted subjects. *)
Definition context_step (g : list triple) (hni : list object)
    (ctx : context) (subject : node) : context :=
  if decide ((subject, RDF.type, Res OWL.NamedIndividual) ∈ g) then ctx
  else match decompose subject with
  | None => ctx
  | Some (base, ns, name) =>
      if decide (base ≠ Py.rstrip "/" URI_BASE) then ctx
      else
        let key := context_key ns name in
        match dict_get (KStr key) (terms ctx) with
        | Some v =>
            {| terms := terms ctx;
               errors := errors ctx
                 ++ [DuplicateKey key (node_text subject) (current_target v)] |}
        | None =>
            {| terms := terms ctx ++ [(KStr key, get_subject_term g hni subject)];
               errors := errors ctx |}
        end
  end.

(** Lines 213-218: the table before the subjects are visited. [idnames]
    lists [set(g.objects(predicate=SPDXS.idPropertyName))] in the order
    in which the set is iterated, which Python leaves open. *)
Definition seed_terms (idnames : list object) : list (term_key * term_value) :=
  foldl (λ terms idname, dict_set (KTerm idname) (VStr "@id") terms)
    [(KStr "spdx", VStr URI_BASE); (KStr "type", VStr "@type")] idnames.

Definition jsonld_context_from (idnames : list object) (g : list triple)
    : context :=
  foldl (context_step g (has_named_individuals g))
    {| terms := seed_terms idnames; errors := [] |} (sorted_subjects g).

(** [jsonld_context(g)], the set iterated in order of first insertion. *)
Definition jsonld_context (g : list triple) : context :=
  jsonld_context_from (remove_dups (objects g SPDXS.idPropertyName)) g.

(** ** [json.dump(ctx, f, sort_keys=True, indent=2)] *)

#[warnings="-register-all"]
Inductive json :=
  | JString (s : string)
  | JObject (members : list (string * json)).

Definition value_json (v : term_value) : json :=
  match v with
  | VStr s => JString s
  | VNode n => JString (node_text n)
  | VIdType n =>
      JObject [("@id", JString (node_text n)); ("@type", JString "@id")]
  | VVocab n vocab =>
      JObject [("@id", JString (node_text n)); ("@type", JString "@vocab");
               ("@context", JObject [("@vocab", JString vocab)])]
  end.

(** The returned [{"@context": terms}] as a JSON document. *)
Definition context_json (ctx : context) : json :=
  JObject [("@context",
            JObject ((λ kv, (key_text kv.1, value_json kv.2)) <$> terms ctx))].

(** [sorted] on the members of an object: by key, ties in their order. *)
Fixpoint insert_member {A} (m : string * A) (ms : list (string * A))
    : list (string * A) :=
  match ms with
  | [] => [m]
  | m' :: ms' =>
      if decide (String.le m.1 m'.1) then m :: ms
      else m' :: insert_member m ms'
  end.

Definition sort_members {A} (ms : list (string * A)) : list (string * A) :=
  foldr insert_member [] ms.

Fixpoint sort_keys (j : json) : json :=
  match j with
  | JString s => JString s
  | JObject ms => JObject (sort_members ((λ kv, (kv.1, sort_keys kv.2)) <$> ms))
  end.

(** String escapes of the encoder, on ASCII text. *)
Definition hex_digit (n : N) : ascii :=
  if (n <? 10)%N then Ascii.ascii_of_N (48 + n) else Ascii.ascii_of_N (87 + n).

Definition dquote : ascii := Ascii.ascii_of_N 34.
Definition backslash : ascii := Ascii.ascii_of_N 92.

Definition escape_char (a : ascii) : string :=
  let n := Ascii.N_of_ascii a in
  if (n =? 34)%N then String backslash (String dquote EmptyString)
  else if (n =? 92)%N then String backslash (String backslash EmptyString)
  else if (n =? 10)%N then "\n"
  else if (n =? 13)%N then "\r"
  else if (n =? 9)%N then "\t"
  else if (n =? 8)%N then "\b"
  else if (n =? 12)%N then "\f"
  else if ((n <? 32) || (n =? 127))%N
  then "\u00" +:+ String (hex_digit (n / 16)) (String (hex_digit (n mod 16)) EmptyString)
  else String a EmptyString.

Fixpoint escape (s : string) : string :=
  match s with
  | EmptyString => EmptyString
  | String a s' => escape_char a +:+ escape s'
  end.

Definition quote (s : string) : string :=
  String dquote (escape s +:+ String dquote EmptyString).

Definition newline : string := String (Ascii.ascii_of_N 10) EmptyString.

Fixpoint indent (level : nat) : string :=
  match level with
  | 0 => EmptyString
  | S n => "  " +:+ indent n
  end.

Fixpoint join_lines (sep : string) (l : list string) : string :=
  match l with
  | [] => EmptyString
  | [x] => x
  | x :: l' => x +:+ sep +:+ join_lines sep l'
  end.

Fixpoint dumps (level : nat) (j : json) : string :=
  match j with
  | JString s => quote s
  | JObject [] => "{}"
  | JObject ms =>
      "{" +:+ newline
      +:+ join_lines ("," +:+ newline)
            ((λ kv, indent (S level) +:+ quote kv.1 +:+ ": " +:+ dumps (S level) kv.2)
               <$> ms)
      +:+ newline +:+ indent level +:+ "}"
  end.

(** The text written to [context.jsonld] by [gen_rdf]. *)
Definition context_jsonld (ctx : context) : string :=
  dumps 0 (sort_keys (context_json ctx)).

(** ** Vocabulary of the statements about the inheritance walk *)

(** [parent_of model c p]: [p] is the class that [c]'s [SubclassOf] names. *)
Definition parent_of (model : Model) (c p : Class) : Prop :=
  get_parent c model = Ok (Some p).

(** [chain model c l]: [l] lists [c], its parent, the parent of that, ...,
    and ends with the first class that has no parent reference. *)
Inductive chain (model : Model) : Class → list Class → Prop :=
  | chain_root c :
      get_parent c model = Ok None → chain model c [c]
  | chain_parent c p l :
      get_parent c model = Ok (Some p) → chain model p l →
      chain model c (c :: l).

(** Every property that [c] declares is in [model.properties] and has a
    [Nature]. *)
Definition properties_resolve (model : Model) (c : Class) : Prop :=
  Forall (λ e : string * PropertyRef,
      ∃ prop, dict_get (fqname e.2) (properties model) = Some prop
              ∧ is_Some (p_metadata prop !! "Nature"))
    (c_properties c).

(** The identifying properties among [props], in declaration order, each
    with the fully-qualified name under which it is declared. *)
Definition id_entries (model : Model) (props : list (string * PropertyRef))
    : list (string * Property) :=
  omap (λ e : string * PropertyRef,
      match dict_get (fqname e.2) (properties model) with
      | Some prop =>
          if decide (p_metadata prop !! "Nature" = Some "IdProperty")
          then Some (fqname e.2, prop) else None
      | None => None
      end) props.

Definition id_properties (model : Model) (c : Class) : list (string * Property) :=
  id_entries model (c_properties c).

(** What the walk has found after the classes of [l], given what it
    had found before. *)
Definition found_referenceable (acc : option string) (l : list Class)
    : option string :=
  match acc with
  | Some _ => acc
  | None => head (omap (λ a, c_metadata a !! "Referenceable") l)
  end.

Definition class_id_property (model : Model) (a : Class) : option string :=
  (λ e : string * Property, id_property_name e.1 e.2)
    <$> last (id_properties model a).

Definition found_id_property (model : Model) (acc : option string)
    (l : list Class) : option string :=
  match acc with
  | Some _ => acc
  | None => head (omap (class_id_property model) l)
  end.

(** [path model c l]: [l] lists the parent of [c], the parent of that, ... *)
Fixpoint path (model : Model) (c : Class) (l : list Class) : Prop :=
  match l with
  | [] => True
  | p :: l' => parent_of model c p ∧ path model p l'
  end.

(** ** Vocabulary of the statements about the graph *)

(** The declared properties of a class that are not identifying, in
    declaration order: the ones that get a property shape. *)
Definition shape_entries (model : Model) (props : list (string * PropertyRef))
    : list (PropertyRef * Property) :=
  omap (λ e : string * PropertyRef,
      match dict_get (fqname e.2) (properties model) with
      | Some prop =>
          if decide (p_metadata prop !! "Nature" = Some "IdProperty")
          then None else Some (e.2, prop)
      | None => None
      end) props.

(** The IRIs of the entities that the builder visits. *)
Definition entry_iris (v : Vocabulary) : list string :=
  (λ e : string * string, v_iri v +:+ "/" +:+ e.1) <$> v_entries v.

Definition subject_iris (model : Model) : list string :=
  ((λ e, c_iri e.2) <$> classes model)
  ++ ((λ e, p_iri e.2) <$> properties model)
  ++ ((λ e, v_iri e.2) <$> vocabularies model)
  ++ flat_map (λ e, entry_iris e.2) (vocabularies model)
  ++ ((λ e, i_iri e.2) <$> individuals model).

(** Every entity has an IRI of its own. *)
Definition distinct_iris (model : Model) : Prop := NoDup (subject_iris model).

(** Blank nodes numbered below [n]. *)
Definition node_below (n : nat) (x : node) : Prop :=
  match x with
  | BNode b => b < n
  | URIRef _ => True
  end.

Definition object_below (n : nat) (o : object) : Prop :=
  match o with
  | Res x => node_below n x
  | _ => True
  end.

(** The blank nodes of the graph are ones that [BNode()] has returned. *)
Definition fresh_ok (st : state) : Prop :=
  ∀ s p o, (s, p, o) ∈ graph st →
    node_below (bnodes st) s ∧ object_below (bnodes st) o.

(** A triple without blank nodes. *)
Definition plain (t : triple) : Prop :=
  node_below 0 t.1.1 ∧ object_below 0 t.2.

(** [step_adds Q st st']: from [st] to [st'] the graph has only grown,
    and by triples that satisfy [Q]. *)
Definition step_adds (Q : triple → Prop) (st st' : state) : Prop :=
  bnodes st ≤ bnodes st'
  ∧ (∀ t, t ∈ graph st → t ∈ graph st')
  ∧ (∀ t, t ∈ graph st' → t ∈ graph st ∨ Q t).

(** The triples that the visit of one entity can add. First the shape
    of the declared property [r], resolved to [prop], at blank node [b]. *)
Inductive shape_emits (cnode : node) (b : nat) (r : PropertyRef)
    (prop : Property) : triple → Prop :=
  | se_property :
      shape_emits cnode b r prop (cnode, SH.property, Res (BNode b))
  | se_path :
      shape_emits cnode b r prop (BNode b, SH.path, Res (URIRef (p_iri prop)))
  | se_class i :
      shape_emits cnode b r prop (BNode b, SH.class, Res (URIRef i))
  | se_pattern s :
      shape_emits cnode b r prop (BNode b, SH.pattern, Literal s None)
  | se_datatype i :
      shape_emits cnode b r prop (BNode b, SH.datatype, Res (URIRef i))
  | se_minCount z :
      Py.int (minCount r) = Some z → z ≠ 0%Z →
      shape_emits cnode b r prop (BNode b, SH.minCount, IntLiteral z)
  | se_maxCount z :
      maxCount r ≠ "*" → Py.int (maxCount r) = Some z →
      shape_emits cnode b r prop (BNode b, SH.maxCount, IntLiteral z).

(** The statements about the class itself. *)
Inductive class_head_emits (c : Class) : triple → Prop :=
  | ce_rdfs_class :
      class_head_emits c (URIRef (c_iri c), RDF.type, Res RDFS.Class)
  | ce_owl_class :
      class_head_emits c (URIRef (c_iri c), RDF.type, Res OWL.Class)
  | ce_comment s :
      class_head_emits c (URIRef (c_iri c), RDFS.comment, Literal s (Some "en"))
  | ce_subclass i :
      class_head_emits c (URIRef (c_iri c), RDFS.subClassOf, Res (URIRef i))
  | ce_referenceable s :
      class_head_emits c (URIRef (c_iri c), SPDXS.referenceable, Literal s None)
  | ce_id_property s :
      class_head_emits c (URIRef (c_iri c), SPDXS.idPropertyName, Literal s None)
  | ce_node_shape :
      c_properties c ≠ [] →
      class_head_emits c (URIRef (c_iri c), RDF.type, Res SH.NodeShape).

(** A shape of the class [c] at a blank node numbered from [lo]. *)
Definition class_shape_emits (model : Model) (lo : nat) (c : Class)
    (t : triple) : Prop :=
  ∃ b pn r prop n,
    lo ≤ b ∧ (pn, r) ∈ c_properties c
    ∧ dict_get (fqname r) (properties model) = Some prop
    ∧ p_metadata prop !! "Nature" = Some n ∧ n ≠ "IdProperty"
    ∧ shape_emits (URIRef (c_iri c)) b r prop t.

Definition class_emits (model : Model) (lo : nat) (c : Class)
    (t : triple) : Prop :=
  class_head_emits c t ∨ class_shape_emits model lo c t.

Inductive property_emits (p : Property) : triple → Prop :=
  | pe_property :
      property_emits p (URIRef (p_iri p), RDF.type, Res RDF.Property)
  | pe_comment s :
      property_emits p (URIRef (p_iri p), RDFS.comment, Literal s (Some "en"))
  | pe_object :
      property_emits p (URIRef (p_iri p), RDF.type, Res OWL.ObjectProperty)
  | pe_datatype :
      property_emits p (URIRef (p_iri p), RDF.type, Res OWL.DatatypeProperty)
  | pe_range i :
      property_emits p (URIRef (p_iri p), RDFS.range, Res (URIRef i)).

Inductive vocabulary_emits (v : Vocabulary) : triple → Prop :=
  | ve_rdfs_class :
      vocabulary_emits v (URIRef (v_iri v), RDF.type, Res RDFS.Class)
  | ve_owl_class :
      vocabulary_emits v (URIRef (v_iri v), RDF.type, Res OWL.Class)
  | ve_comment s :
      vocabulary_emits v (URIRef (v_iri v), RDFS.comment, Literal s (Some "en"))
  | ve_individual e d :
      (e, d) ∈ v_entries v →
      vocabulary_emits v
        (URIRef (v_iri v +:+ "/" +:+ e), RDF.type, Res OWL.NamedIndividual)
  | ve_member e d :
      (e, d) ∈ v_entries v →
      vocabulary_emits v
        (URIRef (v_iri v +:+ "/" +:+ e), RDF.type, Res (URIRef (v_iri v)))
  | ve_label e d :
      (e, d) ∈ v_entries v →
      vocabulary_emits v (URIRef (v_iri v +:+ "/" +:+ e), RDFS.label, Literal e None)
  | ve_description e d :
      (e, d) ∈ v_entries v →
      vocabulary_emits v
        (URIRef (v_iri v +:+ "/" +:+ e), RDFS.comment, Literal d (Some "en")).

Inductive individual_emits (i : Individual) : triple → Prop :=
  | ie_individual :
      individual_emits i (URIRef (i_iri i), RDF.type, Res OWL.NamedIndividual)
  | ie_comment s :
      individual_emits i (URIRef (i_iri i), RDFS.comment, Literal s (Some "en"))
  | ie_range iri :
      individual_emits i (URIRef (i_iri i), RDFS.range, Res (URIRef iri))
  | ie_same iri :
      individual_emits i (URIRef (i_iri i), OWL.sameAs, Res (URIRef iri)).

(** What the visits of the properties [l] can add. *)
Definition property_pass_emits (l : list (string * Property)) (t : triple)
    : Prop :=
  ∃ e n, e ∈ l ∧ p_metadata e.2 !! "Nature" = Some n ∧ n ≠ "IdProperty"
         ∧ property_emits e.2 t.

(** The triples that a run of the builder on [model] can add. *)
Inductive emitted (model : Model) : triple → Prop :=
  | em_ontology :
      emitted model (URIRef URI_BASE, RDF.type, Res OWL.Ontology)
  | em_version :
      emitted model (URIRef URI_BASE, OWL.versionIRI, Res (URIRef URI_BASE))
  | em_class fq c t :
      (fq, c) ∈ classes model → class_emits model 0 c t → emitted model t
  | em_property fq p n t :
      (fq, p) ∈ properties model →
      p_metadata p !! "Nature" = Some n → n ≠ "IdProperty" →
      property_emits p t → emitted model t
  | em_vocabulary fq v t :
      (fq, v) ∈ vocabularies model → vocabulary_emits v t → emitted model t
  | em_individual fq i t :
      (fq, i) ∈ individuals model → individual_emits i t → emitted model t.

(** The value of the decimal digits [l], read from the left after digits
    of the value [acc]. *)
Definition decimal_value (acc : Z) (l : list ascii) : Z :=
  foldl (λ v a, (10 * v + default 0 (Py.digit a))%Z) acc l.

(** The shape at blank node [b] under the node [x] is the shape of a
    declared property of a class with node [x], and its cardinality
    constraints are the ones lines 146-151 prescribe. *)
Definition shape_cardinality_ok (model : Model) (g : list triple) (x : node)
    (b : nat) : Prop :=
  ∃ fq c pn r prop,
    (fq, c) ∈ classes model ∧ x = URIRef (c_iri c)
    ∧ (pn, r) ∈ c_properties c
    ∧ dict_get (fqname r) (properties model) = Some prop
    ∧ (BNode b, SH.path, Res (URIRef (p_iri prop))) ∈ g
    ∧ (∃ mincount,
         Py.int (minCount r) = Some mincount
         ∧ ∀ o, (BNode b, SH.minCount, o) ∈ g ↔
                mincount ≠ 0%Z ∧ o = IntLiteral mincount)
    ∧ (maxCount r ≠ "*" → is_Some (Py.int (maxCount r)))
    ∧ (∀ o, (BNode b, SH.maxCount, o) ∈ g ↔
            maxCount r ≠ "*"
            ∧ ∃ maxcount,
                Py.int (maxCount r) = Some maxcount ∧ o = IntLiteral maxcount).

Definition shapes_ok (model : Model) (st : state) : Prop :=
  fresh_ok st
  ∧ ∀ x b, (x, SH.property, Res (BNode b)) ∈ graph st →
           shape_cardinality_ok model (graph st) x b.

(** ** Vocabulary of the statements about the context *)

(** The key under which the loop of lines 244-269 files [subject], if it
    gets that far. *)
Definition subject_key (g : list triple) (subject : node) : option string :=
  if decide ((subject, RDF.type, Res OWL.NamedIndividual) ∈ g) then None
  else match decompose subject with
  | None => None
  | Some (base, ns, name) =>
      if decide (base ≠ Py.rstrip "/" URI_BASE) then None
      else Some (context_key ns name)
  end.

(** The subjects that derive [key], in the order in which they are met. *)
Definition colliders (g : list triple) (key : string) : list node :=
  filter (λ s, subject_key g s = Some key) (sorted_subjects g).

(** The duplicate-key reports about [key]: the subject and the target
    that each one names. *)
Definition duplicate_reports (key : string) (errors : list diagnostic)
    : list (string * string) :=
  omap (λ d, match d with
             | DuplicateKey k subject current =>
                 if decide (k = key) then Some (subject, current) else None
             | _ => None
             end) errors.

(** The entries of the table under the plain key [key]. *)
Definition key_entries (key : string) (terms : list (term_key * term_value))
    : list (term_key * term_value) :=
  filter (λ e, e.1 = KStr key) terms.

(** The member of the JSON object that an entry of the table becomes. *)
Definition term_member (e : term_key * term_value) : string * json :=
  (key_text e.1, sort_keys (value_json e.2)).

(** The entries that line 218 files for the identifying-property names. *)
Definition id_terms (idnames : list object) : list (term_key * term_value) :=
  (λ o, (KTerm o, VStr "@id")) <$> idnames.

(** ** Scenarios of the specification *)

Module Scenario.

Definition core : Namespace := {| ns_name := "Core" |}.

(** Scenario A: [Core/Agent] with the identifying property [name], and
    its subclass [Core/Person]. *)
Definition agent : Class := {|
  c_name := "Agent"; c_ns := core;
  c_iri := "https://rdf.spdx.org/v3/Core/Agent";
  c_summary := None;
  c_metadata := {[ "Referenceable" := "yes" ]};
  c_properties :=
    [("name", {| fqname := "/Core/name"; minCount := "1"; maxCount := "1" |})]
|}.

Definition person : Class := {|
  c_name := "Person"; c_ns := core;
  c_iri := "https://rdf.spdx.org/v3/Core/Person";
  c_summary := None;
  c_metadata := {[ "SubclassOf" := "Agent" ]};
  c_properties := []
|}.

Definition name : Property := {|
  p_name := "name"; p_ns := core;
  p_iri := "https://rdf.spdx.org/v3/Core/name";
  p_summary := None;
  p_metadata := {[ "Nature" := "IdProperty"; "Range" := "xsd:string" ]}
|}.

Definition model_A : Model := {|
  classes := [("/Core/Agent", agent); ("/Core/Person", person)];
  properties := [("/Core/name", name)];
  vocabularies := [];
  datatypes := ∅;
  individuals := [];
  types := ∅
|}.

(** Scenario C: [Core/color] with the range [xsd:hue]. *)
Definition color (rng : string) : Property := {|
  p_name := "color"; p_ns := core;
  p_iri := "https://rdf.spdx.org/v3/Core/color";
  p_summary := None;
  p_metadata := {[ "Nature" := "DataProperty"; "Range" := rng ]}
|}.

Definition model_C (rng : string) : Model := {|
  classes := [];
  properties := [("/Core/color", color rng)];
  vocabularies := [];
  datatypes := ∅;
  individuals := [];
  types := ∅
|}.

(** A class that declares two identifying properties. *)
Definition first_id : Property := {|
  p_name := "first"; p_ns := core;
  p_iri := "https://rdf.spdx.org/v3/Core/first";
  p_summary := None;
  p_metadata := {[ "Nature" := "IdProperty"; "Range" := "xsd:string" ]}
|}.

Definition second_id : Property := {|
  p_name := "second"; p_ns := {| ns_name := "Build" |};
  p_iri := "https://rdf.spdx.org/v3/Build/second";
  p_summary := None;
  p_metadata := {[ "Nature" := "IdProperty"; "Range" := "xsd:string" ]}
|}.

Definition thing : Class := {|
  c_name := "Thing"; c_ns := core;
  c_iri := "https://rdf.spdx.org/v3/Core/Thing";
  c_summary := None;
  c_metadata := ∅;
  c_properties :=
    [("first", {| fqname := "/Core/first"; minCount := "1"; maxCount := "1" |});
     ("second", {| fqname := "/Build/second"; minCount := "1"; maxCount := "1" |})]
|}.

Definition model_two_ids : Model := {|
  classes := [("/Core/Thing", thing)];
  properties := [("/Core/first", first_id); ("/Build/second", second_id)];
  vocabularies := [];
  datatypes := ∅;
  individuals := [];
  types := ∅
|}.

(** A model with every kind of entity: [Core/Agent] with an identifying
    and two ordinary properties, its subclass [Build/Tool] with an
    identifying property of its own, the vocabulary of scenario D and
    the individual of scenario E. *)
Definition build : Namespace := {| ns_name := "Build" |}.

Definition status : Vocabulary := {|
  v_name := "Status"; v_ns := core;
  v_iri := "https://rdf.spdx.org/v3/Core/Status";
  v_summary := None;
  v_entries := [("Active", "in use"); ("Retired", "no longer used")]
|}.

Definition status_of : Property := {|
  p_name := "status"; p_ns := core;
  p_iri := "https://rdf.spdx.org/v3/Core/status";
  p_summary := Some "The state of an agent";
  p_metadata := {[ "Nature" := "ObjectProperty"; "Range" := "Status" ]}
|}.

Definition tool_id : Property := {|
  p_name := "toolId"; p_ns := build;
  p_iri := "https://rdf.spdx.org/v3/Build/toolId";
  p_summary := None;
  p_metadata := {[ "Nature" := "IdProperty"; "Range" := "xsd:string" ]}
|}.

Definition agent_B : Class := {|
  c_name := "Agent"; c_ns := core;
  c_iri := "https://rdf.spdx.org/v3/Core/Agent";
  c_summary := Some "An agent";
  c_metadata := {[ "Referenceable" := "yes" ]};
  c_properties :=
    [("name", {| fqname := "/Core/name"; minCount := "1"; maxCount := "1" |});
     ("color", {| fqname := "/Core/color"; minCount := "0"; maxCount := "*" |});
     ("status", {| fqname := "/Core/status"; minCount := "1"; maxCount := "2" |})]
|}.

Definition tool : Class := {|
  c_name := "Tool"; c_ns := build;
  c_iri := "https://rdf.spdx.org/v3/Build/Tool";
  c_summary := None;
  c_metadata := {[ "SubclassOf" := "/Core/Agent" ]};
  c_properties :=
    [("toolId", {| fqname := "/Build/toolId"; minCount := "1"; maxCount := "1" |})]
|}.

Definition noassertion : Individual := {|
  i_name := "NOASSERTION"; i_ns := core;
  i_iri := "https://rdf.spdx.org/v3/Core/NOASSERTION";
  i_summary := None;
  i_metadata := {[ "type" := "Status"; "IRI" := "http://example.org/noassert" ]}
|}.

Definition model_B : Model := {|
  classes := [("/Core/Agent", agent_B); ("/Build/Tool", tool)];
  properties :=
    [("/Core/name", name); ("/Core/color", color "xsd:string");
     ("/Core/status", status_of); ("/Build/toolId", tool_id)];
  vocabularies := [("/Core/Status", status)];
  datatypes := ∅;
  individuals := [("/Core/NOASSERTION", noassertion)];
  types := {[ "/Core/Status" := EVocabulary status ]}
|}.

(** Two subjects whose keys collide: [a_b] in [Core], and [b] in [A]. *)
Definition colliding : list triple :=
  [(URIRef "https://rdf.spdx.org/v3/Core/a_b", RDF.type, Res RDFS.Class);
   (URIRef "https://rdf.spdx.org/v3/A/b", RDF.type, Res RDFS.Class)].

(** Scenario A with an individual [Core/name] beside the identifying
    property [Core/name]: the two have one IRI. *)
Definition name_individual : Individual := {|
  i_name := "name"; i_ns := core;
  i_iri := "https://rdf.spdx.org/v3/Core/name";
  i_summary := None;
  i_metadata := {[ "type" := "Agent" ]}
|}.

Definition model_shared_iri : Model := {|
  classes := [("/Core/Agent", agent); ("/Core/Person", person)];
  properties := [("/Core/name", name)];
  vocabularies := [];
  datatypes := ∅;
  individuals := [("/Core/name", name_individual)];
  types := {[ "/Core/Agent" := EClass agent ]}
|}.





End Scenario.

(** ** Vocabulary of the further statements *)

(** What [xsd_range] returns for a range with the prefix:
    [URIRef("http://www.w3.org/2001/XMLSchema#" + rng[4:])]. *)
Definition xsd_datatype (rng : string) : node :=
  URIRef ("http://www.w3.org/2001/XMLSchema#"
          +:+ String.substring 4 (String.length rng - 4) rng).

(** The shape at blank node [b] under the node [x] is the shape of a
    declared property of a class with node [x], and the constraint on
    its values is the one that lines 119-143 prescribe for the range of
    the property: the class or the vocabulary of that name, classes
    first; failing these the datatype of that name, with its pattern and
    the XML-Schema datatype that it wraps; failing that too, the
    XML-Schema datatype that the range itself names. *)
Definition shape_value_ok (model : Model) (g : list triple) (x : node)
    (b : nat) : Prop :=
  ∃ fq c pn r prop rng,
    (fq, c) ∈ classes model ∧ x = URIRef (c_iri c)
    ∧ (pn, r) ∈ c_properties c
    ∧ dict_get (fqname r) (properties model) = Some prop
    ∧ p_metadata prop !! "Range" = Some rng
    ∧ (BNode b, SH.path, Res (URIRef (p_iri prop))) ∈ g
    ∧ (∀ o, (BNode b, SH.class, o) ∈ g ↔
         (∃ dt, dict_get (range_typename prop rng) (classes model) = Some dt
                ∧ o = Res (URIRef (c_iri dt)))
         ∨ (dict_get (range_typename prop rng) (classes model) = None
            ∧ ∃ dt, dict_get (range_typename prop rng) (vocabularies model)
                    = Some dt
                    ∧ o = Res (URIRef (v_iri dt))))
    ∧ (∀ o, (BNode b, SH.pattern, o) ∈ g ↔
         dict_get (range_typename prop rng) (classes model) = None
         ∧ dict_get (range_typename prop rng) (vocabularies model) = None
         ∧ ∃ dt pat, datatypes model !! range_typename prop rng = Some dt
                     ∧ d_format dt !! "pattern" = Some pat
                     ∧ o = Literal pat None)
    ∧ (∀ o, (BNode b, SH.datatype, o) ∈ g ↔
         dict_get (range_typename prop rng) (classes model) = None
         ∧ dict_get (range_typename prop rng) (vocabularies model) = None
         ∧ ((∃ dt base, datatypes model !! range_typename prop rng = Some dt
                        ∧ d_metadata dt !! "SubclassOf" = Some base
                        ∧ Py.startswith base "xsd:" = true
                        ∧ o = Res (xsd_datatype base))
            ∨ (datatypes model !! range_typename prop rng = None
               ∧ Py.startswith (range_typename prop rng) "xsd:" = true
               ∧ o = Res (xsd_datatype (range_typename prop rng))))).

(** ** [mkdocs.py]: the links between the pages *)

Module Mkdocs.

(** What the link functions raise: the [ValueError] of unpacking
    [name.split("/")] into three names when it has [got] pieces, and the
    [IndexError] of [name[0]] on the empty text. *)
Inductive exn :=
  | UnpackError (got : nat)
  | IndexError.

(** [s.endswith(suf)] *)
Fixpoint endswith (s suf : string) : bool :=
  if decide (s = suf) then true
  else match s with
       | EmptyString => false
       | String _ s' => endswith s' suf
       end.

(** [name[0].isupper()] for a name that begins with an ASCII character *)
Definition isupper (a : ascii) : bool :=
  let n := Ascii.N_of_ascii a in ((65 <=? n) && (n <=? 90))%N.

(** [_, other_ns, name = name.split("/")] *)
Definition unpack (name : string) : exn + string * string :=
  match Py.split "/" name with
  | [_; other_ns; name] => inr (other_ns, name)
  | pieces => inl (UnpackError (length pieces))
  end.

(** The link to the page [name] in the directory [dirname] of another
    namespace, and of the namespace of the page itself. *)
Definition far_link (other_ns dirname name : string) : string :=
  "[/" +:+ other_ns +:+ "/" +:+ name +:+ "](../../" +:+ other_ns +:+ "/"
  +:+ dirname +:+ "/" +:+ name +:+ ".md)".

Definition near_link (dirname name : string) : string :=
  "[" +:+ name +:+ "](../" +:+ dirname +:+ "/" +:+ name +:+ ".md)".

(** [class_link(name)] *)
Definition class_link (name : string) : exn + string :=
  if Py.startswith name "/" then
    match unpack name with
    | inl e => inl e
    | inr (other_ns, name) => inr (far_link other_ns "Classes" name)
    end
  else inr (near_link "Classes" name).

(** [property_link(name)] *)
Definition property_link (name : string) : exn + string :=
  if Py.startswith name "/" then
    match unpack name with
    | inl e => inl e
    | inr (other_ns, name) => inr (far_link other_ns "Properties" name)
    end
  else inr (near_link "Properties" name).

(** [len([x for x in d if x.endswith("/" + name)]) > 0] *)
Definition some_key_endswith {V} (keys : list (string * V)) (name : string)
    : bool :=
  existsb (λ kv, endswith kv.1 ("/" +:+ name)) keys.

(** [type_link(name, model)] *)
Definition type_link (name : string) (model : Model) : exn + string :=
  if Py.startswith name "/" then
    let dirname :=
      if bool_decide (is_Some (dict_get name (vocabularies model)))
      then "Vocabularies"
      else if bool_decide (is_Some (datatypes model !! name))
      then "Datatypes"
      else "Classes" in
    match unpack name with
    | inl e => inl e
    | inr (other_ns, name) => inr (far_link other_ns dirname name)
    end
  else
    match name with
    | EmptyString => inl IndexError
    | String a _ =>
        if isupper a then
          let dirname :=
            if some_key_endswith (vocabularies model) name then "Vocabularies"
            else if some_key_endswith (map_to_list (datatypes model)) name
            then "Datatypes"
            else "Classes" in
          inr (near_link dirname name)
        else inr name
    end.

End Mkdocs.

(** ** Further examples *)

Module Examples.

(** A class that names itself as its parent. *)
Definition loop : Class := {|
  c_name := "Loop"; c_ns := Scenario.core;
  c_iri := "https://rdf.spdx.org/v3/Core/Loop";
  c_summary := None;
  c_metadata := {[ "SubclassOf" := "Loop" ]};
  c_properties := []
|}.

Definition model_loop : Model := {|
  classes := [("/Core/Loop", loop)];
  properties := [];
  vocabularies := [];
  datatypes := ∅;
  individuals := [];
  types := ∅
|}.

(** A datatype with a pattern, a property that ranges over it and a
    class that declares the property. *)
Definition semver : Datatype := {|
  d_name := "SemVer"; d_ns := Scenario.core;
  d_iri := "https://rdf.spdx.org/v3/Core/SemVer";
  d_metadata := {[ "SubclassOf" := "xsd:string" ]};
  d_format := {[ "pattern" := "^[0-9]+[.][0-9]+[.][0-9]+$" ]}
|}.

Definition version : Property := {|
  p_name := "version"; p_ns := Scenario.core;
  p_iri := "https://rdf.spdx.org/v3/Core/version";
  p_summary := Some "The version of a package";
  p_metadata := {[ "Nature" := "DataProperty"; "Range" := "SemVer" ]}
|}.

Definition package : Class := {|
  c_name := "Package"; c_ns := Scenario.core;
  c_iri := "https://rdf.spdx.org/v3/Core/Package";
  c_summary := Some "A package";
  c_metadata := ∅;
  c_properties :=
    [("version",
      {| fqname := "/Core/version"; minCount := "1"; maxCount := "1" |})]
|}.

Definition model_D : Model := {|
  classes := [("/Core/Package", package)];
  properties := [("/Core/version", version)];
  vocabularies := [];
  datatypes := {[ "/Core/SemVer" := semver ]};
  individuals := [];
  types := {[ "/Core/SemVer" := EDatatype semver ]}
|}.

End Examples.

(** * Properties *)

(** ** Strings *)

Lemma append_cons a (s1 s2 : string) : String a s1 +:+ s2 = String a (s1 +:+ s2).
Proof. reflexivity. Qed.

Lemma append_assoc (s1 s2 s3 : string) : (s1 +:+ s2) +:+ s3 = s1 +:+ s2 +:+ s3.
Proof.
  induction s1 as [|a s1 IH]; [done|]. rewrite !append_cons. by f_equal.
Qed.

(** ** Splitting and joining *)

Lemma split_nonempty c s : Py.split c s ≠ [].
Proof.
  destruct s as [|a s]; simpl; [done|].
  case_decide; [done|]. by destruct (Py.split c s).
Qed.

Lemma join_cons c w ws :
  ws ≠ [] → Py.join c (w :: ws) = w +:+ String c (Py.join c ws).
Proof. by destruct ws. Qed.

Lemma join_split c s : Py.join c (Py.split c s) = s.
Proof.
  induction s as [|a s IH]; simpl; [done|].
  case_decide as Ha.
  - subst a. rewrite join_cons by apply split_nonempty. by rewrite IH.
  - pose proof (split_nonempty c s) as Hne.
    destruct (Py.split c s) as [|w ws]; [done|].
    destruct ws as [|w' ws].
    + simpl in *. by rewrite IH.
    + rewrite join_cons in * by done. rewrite append_cons. by rewrite IH.
Qed.

Lemma join_app c l1 l2 :
  l1 ≠ [] → l2 ≠ [] →
  Py.join c (l1 ++ l2) = Py.join c l1 +:+ String c (Py.join c l2).
Proof.
  intros Hl1 Hl2. induction l1 as [|w l1 IH]; [done|].
  destruct l1 as [|w' l1].
  - simpl app. by rewrite join_cons.
  - rewrite <- app_comm_cons.
    rewrite join_cons by done. rewrite IH by done.
    rewrite (join_cons c w) by done. by rewrite append_assoc.
Qed.

Lemma rsplit_three c s base ns name :
  Py.rsplit c 2 s = [base; ns; name] →
  s = base +:+ String c (ns +:+ String c name).
Proof.
  unfold Py.rsplit. intros [= Hbase Hrest].
  pose proof (split_nonempty c s) as Hne.
  rewrite <- (join_split c s) at 1.
  rewrite <- (take_drop (S (length (Py.split c s) - 1 - 2)) (Py.split c s)) at 1.
  rewrite join_app.
  - by rewrite Hbase, Hrest.
  - by destruct (Py.split c s).
  - by rewrite Hrest.
Qed.

Lemma contains_append c s1 s2 :
  Py.contains c (s1 +:+ s2) = Py.contains c s1 || Py.contains c s2.
Proof.
  induction s1 as [|a s1 IH]; [done|]. rewrite append_cons. simpl.
  by case_decide.
Qed.

(** ** Decimal numerals

    [int] reads back the numeral that [pretty] writes for an integer. *)

Lemma digit_pretty_N_char d :
  (d < 10)%N → Py.digit (pretty_N_char d) = Some (Z.of_N d).
Proof.
  intros Hd.
  assert (d = 0 ∨ d = 1 ∨ d = 2 ∨ d = 3 ∨ d = 4 ∨ d = 5 ∨ d = 6 ∨ d = 7
          ∨ d = 8 ∨ d = 9)%N as Hcases by lia.
  repeat (destruct Hcases as [->|Hcases]; [reflexivity|]). by subst.
Qed.

Lemma decimal_value_cons acc a l :
  decimal_value acc (a :: l)
  = decimal_value (10 * acc + default 0%Z (Py.digit a))%Z l.
Proof. reflexivity. Qed.

Lemma decimal_value_shift acc l :
  (decimal_value acc l
   = acc * 10 ^ Z.of_nat (length l) + decimal_value 0 l)%Z.
Proof.
  revert acc. induction l as [|a l IH]; intros acc.
  - unfold decimal_value. simpl. lia.
  - rewrite !decimal_value_cons, IH, (IH (10 * 0 + _)%Z).
    replace (Z.of_nat (length (a :: l))) with (Z.succ (Z.of_nat (length l)))
      by (simpl length; lia).
    rewrite Z.pow_succ_r by lia. lia.
Qed.

Lemma digits_decimal_value l acc after :
  Forall (λ a, is_Some (Py.digit a)) l → l ≠ [] →
  Py.digits acc after l = Some (decimal_value acc l).
Proof.
  intros Hall. revert acc after.
  induction Hall as [|a l [d Hd] Hall IH]; intros acc after Hne; [done|].
  rewrite decimal_value_cons. simpl.
  rewrite decide_False by (intros ->; discriminate Hd).
  rewrite Hd. simpl. destruct l as [|a' l]; [done|]. by apply IH.
Qed.

Lemma pretty_N_go_decimal_value x s :
  Forall (λ a, is_Some (Py.digit a)) (String.list_ascii_of_string s) →
  Forall (λ a, is_Some (Py.digit a))
    (String.list_ascii_of_string (pretty_N_go x s))
  ∧ (decimal_value 0 (String.list_ascii_of_string (pretty_N_go x s))
     = Z.of_N x * 10 ^ Z.of_nat (length (String.list_ascii_of_string s))
       + decimal_value 0 (String.list_ascii_of_string s))%Z.
Proof.
  revert s. induction (N.lt_wf_0 x) as [x _ IH]. intros s Hs.
  assert (x = 0 ∨ 0 < x)%N as [->|Hx] by lia.
  - rewrite pretty_N_go_0. split; [done|]. lia.
  - rewrite pretty_N_go_step by done.
    assert (x `mod` 10 < 10)%N as Hd by (apply N.mod_lt; lia).
    pose proof (digit_pretty_N_char _ Hd) as Hdigit.
    destruct (IH (x `div` 10)%N (N.div_lt x 10 Hx eq_refl)
                (String (pretty_N_char (x `mod` 10)) s)) as [Hall ->].
    { simpl. constructor; [by rewrite Hdigit|done]. }
    split; [done|]. simpl String.list_ascii_of_string.
    rewrite decimal_value_cons, (decimal_value_shift (10 * 0 + _)%Z), Hdigit.
    simpl default.
    replace (Z.of_nat (length (_ :: String.list_ascii_of_string s)))
      with (Z.succ (Z.of_nat (length (String.list_ascii_of_string s))))
      by (simpl length; lia).
    rewrite Z.pow_succ_r by lia.
    rewrite (N.div_mod x 10) at 3 by done. lia.
Qed.

Lemma pretty_N_decimal_value (n : N) :
  Forall (λ a, is_Some (Py.digit a)) (String.list_ascii_of_string (pretty n))
  ∧ String.list_ascii_of_string (pretty n) ≠ []
  ∧ decimal_value 0 (String.list_ascii_of_string (pretty n)) = Z.of_N n.
Proof.
  unfold pretty, pretty_N. destruct (decide (n = 0%N)) as [->|Hn].
  - split; [|done]. repeat constructor. by eexists.
  - destruct (pretty_N_go_decimal_value n EmptyString) as [Hall Hval];
      [constructor|].
    change (decimal_value 0 (String.list_ascii_of_string EmptyString))
      with 0%Z in Hval.
    split; [done|]. split; [|simpl in Hval; lia].
    intros Hnil. rewrite Hnil in Hval. unfold decimal_value in Hval.
    simpl in Hval. lia.
Qed.

Lemma strip_blank_id l :
  Forall (λ a, Py.is_blank a = false) l → Py.strip_blank l = l.
Proof.
  assert (∀ k, Forall (λ a, Py.is_blank a = false) k → Py.lstrip_blank k = k)
    as Hlstrip by (intros k [|a k' Ha _]; [done|]; simpl; by rewrite Ha).
  intros Hall. unfold Py.strip_blank.
  rewrite (Hlstrip l Hall), Hlstrip, rev_involutive; [done|].
  rewrite rev_alt. by apply Forall_reverse.
Qed.

Lemma digit_facts a :
  is_Some (Py.digit a) →
  Py.is_blank a = false ∧ (Ascii.N_of_ascii a <? 128)%N = true
  ∧ a ≠ "-"%char ∧ a ≠ "+"%char.
Proof.
  intros [d Hd]. unfold Py.digit in Hd. unfold Py.is_blank.
  destruct ((48 <=? N_of_ascii a) && (N_of_ascii a <=? 57))%N eqn:Hrange;
    [|done].
  apply andb_prop in Hrange as [H1%N.leb_le H2%N.leb_le].
  split; [|split; [|split]].
  - repeat (apply orb_false_intro || apply andb_false_intro2);
      try apply N.leb_gt; try apply N.eqb_neq; lia.
  - apply N.ltb_lt. lia.
  - intros ->. simpl in *. lia.
  - intros ->. simpl in *. lia.
Qed.

(** [int] of a text of decimal digits. *)
Lemma int_digits s :
  Forall (λ a, is_Some (Py.digit a)) (String.list_ascii_of_string s) →
  String.list_ascii_of_string s ≠ [] →
  Py.int s
  = if (Py.max_str_digits <? Py.digit_count (String.list_ascii_of_string s))%N
    then None
    else Some (decimal_value 0 (String.list_ascii_of_string s)).
Proof.
  intros Hall Hne. unfold Py.int, Py.transform.
  replace (forallb _ (String.list_ascii_of_string s)) with true.
  2:{ symmetry. apply forallb_forall. intros a Ha.
      apply list_elem_of_In in Ha.
      rewrite Forall_forall in Hall. by apply digit_facts, Hall. }
  simpl. rewrite strip_blank_id.
  2:{ eapply Forall_impl; [exact Hall|]. intros a Ha. by apply digit_facts. }
  destruct (String.list_ascii_of_string s) as [|a l] eqn:Hs; [done|].
  apply Forall_cons in Hall as Hhead. destruct Hhead as [Ha _].
  destruct (digit_facts a Ha) as (_ & _ & Hminus & Hplus).
  rewrite !decide_False by done. unfold Py.literal.
  by rewrite (digits_decimal_value _ _ _ Hall).
Qed.

(** [int] of a minus sign and decimal digits. *)
Lemma int_minus_digits s :
  Forall (λ a, is_Some (Py.digit a)) (String.list_ascii_of_string s) →
  String.list_ascii_of_string s ≠ [] →
  Py.int ("-" +:+ s)
  = if (Py.max_str_digits <? Py.digit_count (String.list_ascii_of_string s))%N
    then None
    else Some (- decimal_value 0 (String.list_ascii_of_string s))%Z.
Proof.
  intros Hall Hne. unfold Py.int, Py.transform.
  change (String.list_ascii_of_string ("-" +:+ s))
    with ("-"%char :: String.list_ascii_of_string s).
  replace (forallb _ (_ :: String.list_ascii_of_string s)) with true.
  2:{ symmetry. apply forallb_forall. intros a Ha.
      apply list_elem_of_In, elem_of_cons in Ha as [->|Ha]; [done|].
      rewrite Forall_forall in Hall. by apply digit_facts, Hall. }
  simpl mbind. cbv beta. rewrite strip_blank_id.
  2:{ constructor; [done|]. eapply Forall_impl; [exact Hall|].
      intros a Ha. by apply digit_facts. }
  rewrite decide_True by done. unfold Py.literal.
  rewrite (digits_decimal_value _ _ _ Hall Hne). simpl.
  by destruct (_ <? _)%N.
Qed.

(** When [int] accepts the numeral of [z], its value is [z]; it refuses
    a numeral only for having more than [Py.max_str_digits] digits. *)
Lemma int_numeral (z m : Z) : Py.int (pretty z) = Some m → m = z.
Proof.
  destruct z as [|p|p].
  - by intros [= <-].
  - destruct (pretty_N_decimal_value (N.pos p)) as (Hall & Hne & Hval).
    change (pretty (Z.pos p)) with (pretty (N.pos p)).
    rewrite (int_digits _ Hall Hne), Hval.
    destruct (_ <? _)%N; [done|]. by intros [= <-].
  - destruct (pretty_N_decimal_value (N.pos p)) as (Hall & Hne & Hval).
    change (pretty (Z.neg p)) with ("-" +:+ pretty (N.pos p)).
    rewrite (int_minus_digits _ Hall Hne), Hval.
    destruct (_ <? _)%N; [done|]. by intros [= <-].
Qed.

Lemma numeral_not_star (z : Z) : pretty z ≠ "*".
Proof.
  destruct z as [|p|p]; [done| |done].
  change (pretty (Z.pos p)) with (pretty (N.pos p)).
  destruct (pretty_N_decimal_value (N.pos p)) as (Hall & _ & _).
  intros Heq. rewrite Heq in Hall. apply Forall_cons in Hall as [[d Hd] _].
  discriminate Hd.
Qed.

(** ** Outcomes *)

Lemma bind_Ok {A B} (x : outcome A) (k : A → outcome B) b :
  bind x k = Ok b → ∃ a, x = Ok a ∧ k a = Ok b.
Proof. destruct x; simpl; intros; [eauto|done..]. Qed.

Lemma getitem_Ok {V} (k : string) (d : list (string * V)) v :
  getitem k d = Ok v ↔ dict_get k d = Some v.
Proof. unfold getitem. destruct (dict_get k d); split; congruence. Qed.

Lemma mgetitem_Ok {V} (k : string) (d : gmap string V) v :
  mgetitem k d = Ok v ↔ d !! k = Some v.
Proof. unfold mgetitem. destruct (d !! k); split; congruence. Qed.

Lemma dict_get_elem_of {K} `{EqDecision K} {V} (k : K) (d : list (K * V)) v :
  dict_get k d = Some v → (k, v) ∈ d.
Proof.
  induction d as [|[k' v'] d IH]; simpl; [done|].
  case_decide; intros Hv.
  - simplify_eq. left.
  - right. auto.
Qed.

(** ** The inheritance walk *)

Section walk.
Context (model : Model).

Lemma scan_id_property_spec props acc :
  Forall (λ e : string * PropertyRef,
      ∃ prop, dict_get (fqname e.2) (properties model) = Some prop
              ∧ is_Some (p_metadata prop !! "Nature")) props →
  scan_id_property model props acc
  = Ok (match last (id_entries model props) with
        | Some e => Some (id_property_name e.1 e.2)
        | None => acc
        end).
Proof.
  intros Hres. revert acc.
  induction Hres as [|[pn r] props (prop & Hprop & [n Hn]) _ IH]; intros acc;
    [done|].
  simpl in *. unfold getitem, nature, mgetitem, id_entries. simpl.
  rewrite Hprop. simpl. rewrite Hn. simpl. rewrite IH.
  fold (id_entries model props).
  case_decide as Hid.
  - subst n. rewrite decide_True by done.
    rewrite last_cons. by destruct (last (id_entries model props)).
  - rewrite decide_False by congruence. done.
Qed.

Lemma walk_round_id_property a acc :
  properties_resolve model a →
  match acc, c_properties a with
  | None, _ :: _ => scan_id_property model (c_properties a) None
  | _, _ => Ok acc
  end = Ok (found_id_property model acc [a]).
Proof.
  intros Hres. destruct acc as [i|]; [done|].
  unfold found_id_property, class_id_property, id_properties. simpl.
  unfold properties_resolve in Hres.
  destruct (c_properties a) as [|e props] eqn:Hprops.
  - done.
  - rewrite scan_id_property_spec by done.
    by destruct (last (id_entries model (e :: props))).
Qed.

Lemma walk_chain c l :
  chain model c l → Forall (properties_resolve model) l →
  ∀ fuel referenceable id_property,
    length l ≤ fuel →
    walk fuel model c referenceable id_property
    = Ok (found_referenceable referenceable l,
          found_id_property model id_property l).
Proof.
  induction 1 as [c Hroot|c p l Hparent Hchain IH]; intros Hres fuel r i Hfuel;
    (destruct fuel as [|fuel]; [simpl in Hfuel; lia|]);
    apply Forall_cons in Hres as [Hc Hres]; simpl;
    rewrite (walk_round_id_property c i Hc); simpl.
  - rewrite Hroot. simpl. f_equal. f_equal.
    + destruct r; [done|]. simpl. by destruct (c_metadata c !! "Referenceable").
  - rewrite Hparent. simpl. rewrite IH by (simpl in Hfuel; auto with lia).
    f_equal. f_equal.
    + destruct r; [done|]. simpl. by destruct (c_metadata c !! "Referenceable").
    + destruct i; [done|]. simpl. by destruct (class_id_property model c).
Qed.

Lemma head_omap_skip {A B} (f : A → option B) l1 a l2 :
  Forall (λ x, f x = None) l1 →
  head (omap f (l1 ++ a :: l2)) = head (omap f (a :: l2)).
Proof.
  induction 1 as [|x l1 Hx _ IH]; [done|]. simpl. by rewrite Hx.
Qed.


Lemma class_id_property_none a :
  id_properties model a = [] → class_id_property model a = None.
Proof. unfold class_id_property. by intros ->. Qed.

Lemma class_id_property_last a ps fq p :
  id_properties model a = ps ++ [(fq, p)] →
  class_id_property model a = Some (id_property_name fq p).
Proof. unfold class_id_property. intros ->. by rewrite last_snoc. Qed.

End walk.

Section walk_claims.
Context (model : Model).

Lemma inheritance_walk_chain c l fuel :
  chain model c l → Forall (properties_resolve model) l → length l ≤ fuel →
  inheritance_walk fuel model c
  = Ok (default "optional" (found_referenceable None l),
        found_id_property model None l).
Proof.
  intros Hchain Hres Hfuel. unfold inheritance_walk.
  by rewrite (walk_chain model c l Hchain Hres fuel None None Hfuel).
Qed.


(** Claim C10. When the first class of the chain that declares an
  identifying property declares more than one of them, the walk
  resolves the name of the last one in declaration order: each match
  of the inner loop overwrites the one before, the first does not stop
  the loop. *)
Theorem last_id_property_wins c l l1 a l2 fq1 p1 ps fq2 p2 fuel :
  chain model c l →
  Forall (properties_resolve model) l →
  l = l1 ++ a :: l2 →
  Forall (λ x, id_properties model x = []) l1 →
  id_properties model a = (fq1, p1) :: ps ++ [(fq2, p2)] →
  length l ≤ fuel →
  ∃ referenceable,
    inheritance_walk fuel model c
    = Ok (referenceable, Some (id_property_name fq2 p2)).
Proof.
  intros Hchain Hres -> Hl1 Ha Hfuel.
  rewrite (inheritance_walk_chain c _ fuel Hchain Hres Hfuel).
  eexists. f_equal. f_equal. simpl.
  rewrite head_omap_skip
    by (eapply Forall_impl; [exact Hl1|]; apply class_id_property_none).
  simpl.
  by rewrite (class_id_property_last model a ((fq1, p1) :: ps) fq2 p2 Ha).
Qed.

End walk_claims.

(** ** Termination of the walk *)

Section termination.
Context (model : Model).

Lemma path_reach c l i x :
  path model c l → l !! i = Some x → tc (parent_of model) c x.
Proof.
  revert c i. induction l as [|p l IH]; intros c i; [done|].
  intros [Hp Hl]. destruct i as [|i]; simpl.
  - intros [= ->]. by apply tc_once.
  - intros Hx. eapply tc_l; [exact Hp|]. eauto.
Qed.

Lemma path_between c l i j x y :
  path model c l → i < j → l !! i = Some x → l !! j = Some y →
  tc (parent_of model) x y.
Proof.
  revert c i j. induction l as [|p l IH]; intros c i j; [done|].
  intros [Hp Hl] Hij. destruct j as [|j]; [lia|]. destruct i as [|i]; simpl.
  - intros [= ->] Hy. eapply path_reach; eauto.
  - intros Hx Hy. eapply (IH p i j); eauto with lia.
Qed.

Lemma path_in_classes c l :
  path model c l → l ⊆ (classes model).*2.
Proof.
  revert c. induction l as [|p l IH]; intros c; [intros _ x Hx; by apply elem_of_nil in Hx|].
  intros [Hp Hl] x Hx. apply elem_of_cons in Hx as [->|Hx]; [|by eapply IH].
  unfold parent_of, get_parent in Hp.
  destruct (negb _); [done|].
  apply bind_Ok in Hp as (q & Hq & [= ->]).
  apply getitem_Ok, dict_get_elem_of in Hq.
  apply list_elem_of_fmap. by exists (resolve_ref (ns_name (c_ns c))
    (default EmptyString (c_metadata c !! "SubclassOf")), p).
Qed.

(** Following the parent references for [n] rounds either reaches a
    class without one or yields [n] ancestors. *)
Lemma unroll_chain n c :
  (∀ a, rtc (parent_of model) c a → is_Ok (get_parent a model)) →
  (∃ l, chain model c l ∧ length l ≤ n) ∨ (∃ l, path model c l ∧ length l = n).
Proof.
  revert c. induction n as [|n IH]; intros c Hok.
  - right. by exists [].
  - destruct (Hok c (rtc_refl _ _)) as [[p|] Hp].
    + destruct (IH p) as [(l & Hl & Hn)|(l & Hl & Hn)].
      * intros a Ha. apply Hok. by eapply rtc_l.
      * left. exists (c :: l). split; [by eapply chain_parent|simpl; lia].
      * right. exists (p :: l). split; [done|simpl; lia].
    + left. exists [c]. split; [by apply chain_root|simpl; lia].
Qed.

Lemma acyclic_chain c :
  (∀ a, rtc (parent_of model) c a → ¬ tc (parent_of model) a a) →
  (∀ a, rtc (parent_of model) c a → is_Ok (get_parent a model)) →
  ∃ l, chain model c l ∧ length l ≤ S (length (classes model)).
Proof.
  intros Hacyclic Hok.
  destruct (unroll_chain (S (length (classes model))) c Hok)
    as [?|(l & Hl & Hn)]; [done|].
  exfalso.
  destruct (list_pigeonhole l ((classes model).*2)) as (i & j & x & Hij & Hi & Hj).
  { by eapply path_in_classes. }
  { rewrite length_fmap. lia. }
  apply (Hacyclic x).
  - apply tc_rtc. by eapply path_reach.
  - by eapply (path_between c l i j).
Qed.

Lemma chain_last c l :
  chain model c l →
  ∃ root, last l = Some root ∧ get_parent root model = Ok None.
Proof.
  induction 1 as [c Hroot|c p l Hparent Hchain (root & Hlast & Hroot)].
  - by exists c.
  - exists root. split; [|done]. destruct l; [by inversion Hchain|done].
Qed.

Lemma chain_parents c l i a :
  chain model c l → l !! i = Some a → S i < length l →
  ∃ p, l !! S i = Some p ∧ get_parent a model = Ok (Some p).
Proof.
  intros Hchain. revert i. induction Hchain as [c Hroot|c p l Hparent Hchain IH];
    intros i Hi Hlen; simpl in *; [lia|].
  destruct i as [|i]; simpl in *.
  - injection Hi as ->. exists p. split; [|done]. by inversion Hchain.
  - apply IH; [done|lia].
Qed.

Lemma walk_short c l fuel referenceable id_property :
  chain model c l → fuel < length l →
  ¬ is_Ok (walk fuel model c referenceable id_property).
Proof.
  intros Hchain. revert fuel referenceable id_property.
  induction Hchain as [c Hroot|c p l Hparent Hchain IH]; intros fuel r i Hfuel [res Hres];
    (destruct fuel as [|fuel]; [done|]); simpl in Hfuel; [lia|].
  simpl in Hres. apply bind_Ok in Hres as (i' & _ & Hres).
  rewrite Hparent in Hres. simpl in Hres.
  eapply (IH fuel); [lia|]. by eexists.
Qed.

Lemma scan_id_property_returns props acc :
  scan_id_property model props acc ≠ OutOfFuel.
Proof.
  revert acc. induction props as [|[pn r] props IH]; intros acc; [done|].
  simpl. unfold getitem, nature, mgetitem.
  destruct (dict_get _ _) as [prop|]; [|done]. simpl.
  destruct (p_metadata prop !! "Nature"); [|done]. simpl. apply IH.
Qed.

Lemma walk_round_returns a (acc : option string) :
  match acc, c_properties a with
  | None, _ :: _ => scan_id_property model (c_properties a) None
  | _, _ => Ok acc
  end ≠ OutOfFuel.
Proof.
  destruct acc; [done|]. destruct (c_properties a) eqn:E; [done|].
  rewrite <- E. apply scan_id_property_returns.
Qed.

Lemma walk_enough c l fuel referenceable id_property :
  chain model c l → length l ≤ fuel →
  walk fuel model c referenceable id_property
  = walk (length l) model c referenceable id_property
  ∧ walk fuel model c referenceable id_property ≠ OutOfFuel.
Proof.
  intros Hchain. revert fuel referenceable id_property.
  induction Hchain as [c Hroot|c p l Hparent Hchain IH]; intros fuel r i Hfuel;
    (destruct fuel as [|fuel]; [simpl in Hfuel; lia|]); simpl in *.
  - rewrite Hroot. simpl. split; [done|].
    pose proof (walk_round_returns c i) as Hround.
    by destruct (match i with Some _ => _ | None => _ end).
  - rewrite Hparent. simpl.
    pose proof (walk_round_returns c i) as Hround.
    destruct (match i with Some _ => _ | None => _ end); simpl; [|done..].
    apply IH. lia.
Qed.

(** Claim C9. If no class that is reached from [c] through the parent
  references lies on a cycle, and every parent reference met on the way
  names a class of [model.classes], then the walk from [c] terminates:
  there is a chain [l] from [c] to a class [root] that has no parent
  reference, every class of the chain before [root] has one, the chain
  has at most one class more than the model, every fuel from [length l]
  on gives one and the same result, which is not [OutOfFuel], no
  smaller fuel lets the walk return, and the walk returns normally when
  the properties that the classes of the chain declare resolve. *)
Theorem walk_terminates c :
  (∀ a, rtc (parent_of model) c a → ¬ tc (parent_of model) a a) →
  (∀ a, rtc (parent_of model) c a → is_Ok (get_parent a model)) →
  ∃ l root,
    chain model c l ∧ last l = Some root
    ∧ truthy (c_metadata root !! "SubclassOf") = false
    ∧ (∀ i a, l !! i = Some a → S i < length l →
         truthy (c_metadata a !! "SubclassOf") = true)
    ∧ length l ≤ S (length (classes model))
    ∧ (∀ fuel referenceable id_property,
         length l ≤ fuel →
         walk fuel model c referenceable id_property ≠ OutOfFuel
         ∧ walk fuel model c referenceable id_property
           = walk (length l) model c referenceable id_property)
    ∧ (∀ fuel referenceable id_property,
         fuel < length l →
         ¬ is_Ok (walk fuel model c referenceable id_property))
    ∧ (Forall (properties_resolve model) l →
       ∀ referenceable id_property,
         is_Ok (walk (length l) model c referenceable id_property)).
Proof.
  intros Hacyclic Hok.
  destruct (acyclic_chain c Hacyclic Hok) as (l & Hchain & Hlen).
  destruct (chain_last c l Hchain) as (root & Hlast & Hroot).
  exists l, root.
  split; [done|]. split; [done|]. split; [|split; [|split; [done|]]];
    [| |split; [|split]].
  - unfold get_parent in Hroot.
    destruct (truthy (c_metadata root !! "SubclassOf")); [|done].
    simpl in Hroot. by apply bind_Ok in Hroot as (? & _ & ?).
  - intros i a Hi Hlt.
    destruct (chain_parents c l i a Hchain Hi Hlt) as (p & _ & Hp).
    unfold get_parent in Hp.
    by destruct (truthy (c_metadata a !! "SubclassOf")).
  - intros fuel r i Hfuel.
    destruct (walk_enough c l fuel r i Hchain Hfuel). by split.
  - intros fuel r i Hfuel. by apply (walk_short c l).
  - intros Hres r i. eexists. by apply (walk_chain model c l).
Qed.

End termination.

(** ** The graph under construction *)

(** Two distinct constants of the vocabularies never meet. *)
Ltac iri_discriminate :=
  match goal with
  | H : _ = _ |- _ =>
      solve [cbv delta [RDF.type RDF.Property RDFS.Class RDFS.comment
                        RDFS.subClassOf RDFS.range RDFS.label OWL.Ontology
                        OWL.versionIRI OWL.Class OWL.ObjectProperty
                        OWL.DatatypeProperty OWL.NamedIndividual OWL.sameAs
                        SH.NodeShape SH.property SH.path SH.class SH.pattern
                        SH.datatype SH.minCount SH.maxCount
                        SPDXS.referenceable SPDXS.idPropertyName] in H;
             discriminate H]
  end.

Lemma elem_of_add t t' st : t ∈ graph (add t' st) ↔ t ∈ graph st ∨ t = t'.
Proof.
  unfold add. simpl. case_decide as Hin.
  - split; [by left|]. by intros [?| ->].
  - rewrite elem_of_app, list_elem_of_singleton. done.
Qed.

Lemma step_adds_refl Q st : step_adds Q st st.
Proof. split; [done|]. split; [done|]. by left. Qed.

Lemma step_adds_trans Q st1 st2 st3 :
  step_adds Q st1 st2 → step_adds Q st2 st3 → step_adds Q st1 st3.
Proof.
  intros (Hn1 & Hm1 & Ha1) (Hn2 & Hm2 & Ha2). split; [lia|]. split; [auto|].
  intros t Ht. destruct (Ha2 t Ht) as [?|?]; auto.
Qed.

Lemma step_adds_weaken (Q Q' : triple → Prop) st st' :
  (∀ t, Q t → Q' t) → step_adds Q st st' → step_adds Q' st st'.
Proof.
  intros HQ (Hn & Hm & Ha). split; [done|]. split; [done|].
  intros t Ht. destruct (Ha t Ht); auto.
Qed.

Lemma step_adds_add (Q : triple → Prop) st st' t :
  step_adds Q st st' → Q t → step_adds Q st (add t st').
Proof.
  intros (Hn & Hm & Ha) Ht. split; [done|]. split.
  - intros t' Ht'. apply elem_of_add. auto.
  - intros t' Ht'. apply elem_of_add in Ht' as [Ht'| ->]; auto.
Qed.

Lemma step_adds_warn (Q : triple → Prop) st st' d :
  step_adds Q st st' → step_adds Q st (warn d st').
Proof. done. Qed.

Lemma step_adds_add_xsd (Q : triple → Prop) st st' s p rng propname :
  step_adds Q st st' → (∀ i, Q (s, p, Res (URIRef i))) →
  step_adds Q st (add_xsd s p rng propname st').
Proof.
  intros Hst HQ. unfold add_xsd, xsd_range.
  destruct (Py.startswith rng "xsd:").
  - by apply step_adds_add.
  - by apply step_adds_warn.
Qed.

Lemma for_each_app {A} (body : A → state → outcome state) l1 l2 st st' :
  for_each body (l1 ++ l2) st = Ok st' ↔
  ∃ st1, for_each body l1 st = Ok st1 ∧ for_each body l2 st1 = Ok st'.
Proof.
  revert st. induction l1 as [|x l1 IH]; intros st; simpl.
  - split; [eauto|]. by intros (st1 & [= ->] & ?).
  - destruct (body x st) as [st1| |]; simpl; [apply IH|..];
      split; try done; by intros (? & ? & ?).
Qed.

Lemma for_each_cons {A} (body : A → state → outcome state) x l st st' :
  for_each body (x :: l) st = Ok st' ↔
  ∃ st1, body x st = Ok st1 ∧ for_each body l st1 = Ok st'.
Proof.
  simpl. destruct (body x st) as [st1| |]; simpl;
    split; try done; [eauto| |by intros (? & ? & ?)..].
  by intros (? & [= ->] & ?).
Qed.

(** An invariant of the bodies is an invariant of the loop. *)
Lemma for_each_invariant {A} (body : A → state → outcome state)
    (P : state → Prop) l st st' :
  (∀ x s s', x ∈ l → P s → body x s = Ok s' → P s') →
  P st → for_each body l st = Ok st' → P st'.
Proof.
  revert st. induction l as [|x l IH]; intros st Hbody Hst; simpl.
  - by intros [= <-].
  - intros Hrun. apply bind_Ok in Hrun as (st1 & Hx & Hrun).
    eapply IH; [| |exact Hrun].
    + intros y s s' Hy. apply Hbody. by right.
    + eapply Hbody; [left|exact Hst|exact Hx].
Qed.

(** What the bodies add, the loop adds. *)
Lemma for_each_step_adds {A} (body : A → state → outcome state)
    (Q : A → nat → triple → Prop) l st st' :
  (∀ x lo lo' t, lo ≤ lo' → Q x lo' t → Q x lo t) →
  (∀ x s s', x ∈ l → body x s = Ok s' → step_adds (Q x (bnodes s)) s s') →
  for_each body l st = Ok st' →
  step_adds (λ t, ∃ x, x ∈ l ∧ Q x (bnodes st) t) st st'.
Proof.
  intros Hmono. revert st. induction l as [|x l IH]; intros st Hbody; simpl.
  - intros [= <-]. apply step_adds_refl.
  - intros Hrun. apply bind_Ok in Hrun as (st1 & Hx & Hrun).
    pose proof (Hbody x st st1 (list_elem_of_here _ _) Hx) as Hstep.
    eapply step_adds_trans.
    + eapply step_adds_weaken; [|exact Hstep].
      intros t Ht. exists x. split; [left|done].
    + eapply step_adds_weaken; [|eapply IH; [|exact Hrun]].
      * intros t (y & Hy & Ht). exists y. split; [by right|].
        eapply Hmono; [|exact Ht]. apply Hstep.
      * intros y s s' Hy. apply Hbody. by right.
Qed.

(** ** What each visit adds *)

Lemma int_Ok s z : int s = Ok z ↔ Py.int s = Some z.
Proof. unfold int. destruct (Py.int s); split; congruence. Qed.

Lemma class_emits_mono model c lo lo' t :
  lo ≤ lo' → class_emits model lo' c t → class_emits model lo c t.
Proof.
  intros Hlo [Ht|(b & pn & r & prop & n & Hb & Ht)]; [by left|].
  right. exists b, pn, r, prop, n. split; [lia|done].
Qed.

(** Steps that add a fixed list of triples are closed by this. *)
Ltac step_adds_tac :=
  repeat match goal with
  | |- step_adds _ _ (add _ _) => apply step_adds_add; [|by econstructor]
  | |- step_adds _ _ (match ?x with _ => _ end) => destruct x
  | |- step_adds _ _ (if ?x then _ else _) => destruct x
  end; try apply step_adds_refl.

Section adds.
Context (model : Model).

Lemma shape_type_adds (Q : triple → Prop) b prop typename st0 st st' :
  (∀ i, Q (BNode b, SH.class, Res (URIRef i))) →
  (∀ s, Q (BNode b, SH.pattern, Literal s None)) →
  (∀ i, Q (BNode b, SH.datatype, Res (URIRef i))) →
  step_adds Q st0 st →
  shape_type model (BNode b) prop typename st = Ok st' →
  step_adds Q st0 st' ∧ bnodes st' = bnodes st.
Proof.
  intros Hclass Hpattern Hdatatype Hst. unfold shape_type.
  destruct (dict_get typename (classes model)) as [dt|].
  { intros [= <-]. split; [|done]. by apply step_adds_add. }
  destruct (dict_get typename (vocabularies model)) as [dt|].
  { intros [= <-]. split; [|done]. by apply step_adds_add. }
  destruct (datatypes model !! typename) as [dt|].
  - intros Hrun. apply bind_Ok in Hrun as (base & _ & [= <-]). split.
    + apply step_adds_add_xsd; [|done].
      destruct (d_format dt !! "pattern"); [|done]. by apply step_adds_add.
    + unfold add_xsd, xsd_range. destruct (Py.startswith _ _); simpl;
        by destruct (d_format dt !! "pattern").
  - intros [= <-]. split; [by apply step_adds_add_xsd|].
    unfold add_xsd, xsd_range. by destruct (Py.startswith _ _).
Qed.

Lemma shape_counts_spec b r st st' :
  shape_counts (BNode b) r st = Ok st' →
  bnodes st' = bnodes st
  ∧ (∃ mincount, Py.int (minCount r) = Some mincount
       ∧ (mincount ≠ 0%Z → (BNode b, SH.minCount, IntLiteral mincount) ∈ graph st'))
  ∧ (maxCount r ≠ "*" →
     ∃ maxcount, Py.int (maxCount r) = Some maxcount
       ∧ (BNode b, SH.maxCount, IntLiteral maxcount) ∈ graph st')
  ∧ ∀ (Q : triple → Prop) st0,
      (∀ z, Py.int (minCount r) = Some z → z ≠ 0%Z →
            Q (BNode b, SH.minCount, IntLiteral z)) →
      (∀ z, maxCount r ≠ "*" → Py.int (maxCount r) = Some z →
            Q (BNode b, SH.maxCount, IntLiteral z)) →
      step_adds Q st0 st → step_adds Q st0 st'.
Proof.
  unfold shape_counts. intros Hrun.
  apply bind_Ok in Hrun as (mincount & Hmin & Hrun). apply int_Ok in Hmin.
  destruct (decide (maxCount r ≠ "*")) as [Hstar|Hstar].
  - apply bind_Ok in Hrun as (maxcount & Hmax & [= <-]). apply int_Ok in Hmax.
    split; [by destruct (decide (mincount ≠ 0%Z))|]. split; [|split].
    + exists mincount. split; [done|]. intros Hz.
      rewrite decide_True by done. rewrite !elem_of_add. auto.
    + intros _. exists maxcount. split; [done|]. rewrite elem_of_add. auto.
    + intros Q st0 HQmin HQmax Hst.
      apply step_adds_add; [|by apply HQmax].
      destruct (decide (mincount ≠ 0%Z)); [|done].
      apply step_adds_add; [done|by apply HQmin].
  - injection Hrun as <-.
    split; [by destruct (decide (mincount ≠ 0%Z))|]. split; [|split].
    + exists mincount. split; [done|]. intros Hz.
      rewrite decide_True by done. rewrite !elem_of_add. auto.
    + done.
    + intros Q st0 HQmin HQmax Hst.
      destruct (decide (mincount ≠ 0%Z)); [|done].
      apply step_adds_add; [done|by apply HQmin].
Qed.

(** The visit of one declared property. *)
Lemma gen_shape_spec cnode pn r st st' :
  gen_shape model cnode (pn, r) st = Ok st' →
  ∃ prop n,
    dict_get (fqname r) (properties model) = Some prop
    ∧ p_metadata prop !! "Nature" = Some n
    ∧ ((n = "IdProperty" ∧ st' = st)
       ∨ (n ≠ "IdProperty"
          ∧ bnodes st' = S (bnodes st)
          ∧ step_adds (shape_emits cnode (bnodes st) r prop) st st'
          ∧ (cnode, SH.property, Res (BNode (bnodes st))) ∈ graph st'
          ∧ (BNode (bnodes st), SH.path, Res (URIRef (p_iri prop))) ∈ graph st'
          ∧ (∃ mincount, Py.int (minCount r) = Some mincount
               ∧ (mincount ≠ 0%Z →
                  (BNode (bnodes st), SH.minCount, IntLiteral mincount) ∈ graph st'))
          ∧ (maxCount r ≠ "*" →
             ∃ maxcount, Py.int (maxCount r) = Some maxcount
               ∧ (BNode (bnodes st), SH.maxCount, IntLiteral maxcount) ∈ graph st'))).
Proof.
  unfold gen_shape. simpl. intros Hrun.
  apply bind_Ok in Hrun as (prop & Hprop & Hrun).
  apply bind_Ok in Hrun as (n & Hn & Hrun).
  apply getitem_Ok in Hprop. apply mgetitem_Ok in Hn.
  exists prop, n. split; [done|]. split; [done|].
  destruct (decide (n = "IdProperty")) as [Hid|Hid].
  { left. split; [done|]. by injection Hrun. }
  right. split; [done|].
  apply bind_Ok in Hrun as (prop_rng & _ & Hrun).
  apply bind_Ok in Hrun as (st1 & Htype & Hrun).
  set (b := bnodes st) in *.
  set (st0 := add (BNode b, SH.path, Res (URIRef (p_iri prop)))
                (add (cnode, SH.property, Res (BNode b)) (fresh st).2)) in *.
  assert (step_adds (shape_emits cnode b r prop) st st0) as Hst0.
  { apply step_adds_add; [|by constructor].
    apply step_adds_add; [|by constructor].
    split; [simpl; lia|]. split; [done|]. by left. }
  destruct (shape_type_adds (shape_emits cnode b r prop) b prop
              (range_typename prop prop_rng) st st0 st1)
    as [Hst1 Hb1]; [by constructor..|done|exact Htype|].
  destruct (shape_counts_spec b r st1 st' Hrun) as (Hb' & Hmin & Hmax & Hadds).
  assert (step_adds (shape_emits cnode b r prop) st st') as Hst'.
  { apply Hadds; [intros; by constructor..|done]. }
  split; [by rewrite Hb', Hb1|]. split; [done|].
  assert (∀ t, t ∈ graph st0 → t ∈ graph st') as Hmono.
  { intros t Ht. apply Hadds with (Q := λ _, True) (st0 := st0); [done..| |done].
    eapply (shape_type_adds (λ _, True) b prop
              (range_typename prop prop_rng) st0 st0 st1);
      [done..| |exact Htype].
    apply step_adds_refl. }
  split; [|split; [|done]].
  - apply Hmono. unfold st0. rewrite !elem_of_add. auto.
  - apply Hmono. unfold st0. rewrite !elem_of_add. auto.
Qed.

End adds.

Section passes.
Context (model : Model).

(** The shapes of a class, one declared property after the other. *)
Lemma gen_shapes_adds c props st st' :
  props ⊆ c_properties c →
  for_each (gen_shape model (URIRef (c_iri c))) props st = Ok st' →
  step_adds (class_shape_emits model (bnodes st) c) st st'.
Proof.
  intros Hprops Hrun.
  eapply step_adds_weaken;
    [|eapply (for_each_step_adds _
        (λ (e : string * PropertyRef) lo t,
           e ∈ c_properties c ∧ ∃ b prop n,
             lo ≤ b ∧ dict_get (fqname e.2) (properties model) = Some prop
             ∧ p_metadata prop !! "Nature" = Some n ∧ n ≠ "IdProperty"
             ∧ shape_emits (URIRef (c_iri c)) b e.2 prop t));
       [| |exact Hrun]].
  - intros t ([pn r] & _ & Hin & b & prop & n & Hb & Ht).
    exists b, pn, r, prop, n. by split.
  - intros e lo lo' t Hlo (Hin & b & prop & n & Hb & Ht).
    split; [done|]. exists b, prop, n. split; [lia|done].
  - intros [pn r] s s' Hin Hbody.
    destruct (gen_shape_spec model _ pn r s s' Hbody)
      as (prop & n & Hprop & Hn & [[_ ->]|(Hid & _ & Hadds & _)]).
    + apply step_adds_refl.
    + eapply step_adds_weaken; [|exact Hadds].
      intros t Ht. split; [auto|]. by exists (bnodes s), prop, n.
Qed.

(** The visit of a class: the statements about the class, then its
    shapes. *)
Lemma gen_class_run fuel e st st' :
  gen_class fuel model e st = Ok st' →
  ∃ st1,
    step_adds (class_head_emits e.2) st st1
    ∧ bnodes st1 = bnodes st
    ∧ (c_properties e.2 ≠ [] →
       (URIRef (c_iri e.2), RDF.type, Res SH.NodeShape) ∈ graph st1)
    ∧ for_each (gen_shape model (URIRef (c_iri e.2))) (c_properties e.2) st1
      = Ok st'.
Proof.
  unfold gen_class. intros Hrun.
  apply bind_Ok in Hrun as (parent & _ & Hrun).
  apply bind_Ok in Hrun as (found & _ & Hrun).
  match type of Hrun with
  | match _ with [] => Ok ?s | _ :: _ => _ end = _ =>
      assert (step_adds (class_head_emits e.2) st s ∧ bnodes s = bnodes st)
        as [Hst Hb]
  end.
  { split; [step_adds_tac|].
    destruct (truthy (c_summary e.2)), parent, (found.2); done. }
  destruct (c_properties e.2) as [|pe props] eqn:Hprops.
  - injection Hrun as <-. eexists. split; [exact Hst|].
    split; [done|]. split; [by intros []|done].
  - eexists. split; [|split; [|split; [|exact Hrun]]].
    + apply step_adds_add; [exact Hst|]. apply ce_node_shape. by rewrite Hprops.
    + done.
    + intros _. apply elem_of_add. by right.
Qed.

Lemma gen_class_adds fuel e st st' :
  gen_class fuel model e st = Ok st' →
  step_adds (class_emits model (bnodes st) e.2) st st'.
Proof.
  intros Hrun.
  destruct (gen_class_run fuel e st st' Hrun) as (st1 & Hhead & Hb & _ & Hshapes).
  eapply step_adds_trans.
  - eapply step_adds_weaken; [|exact Hhead]. intros t Ht. by left.
  - eapply step_adds_weaken; [|eapply gen_shapes_adds; [done|exact Hshapes]].
    intros t Ht. right. by rewrite <- Hb.
Qed.

Lemma gen_property_adds e st st' :
  gen_property model e st = Ok st' →
  st' = st
  ∨ (∃ n, p_metadata e.2 !! "Nature" = Some n ∧ n ≠ "IdProperty"
          ∧ step_adds (property_emits e.2) st st'
          ∧ bnodes st' = bnodes st).
Proof.
  unfold gen_property. intros Hrun.
  apply bind_Ok in Hrun as (n & Hn & Hrun). apply mgetitem_Ok in Hn.
  destruct (decide (n = "IdProperty")) as [Hid|Hid]; [left; by injection Hrun|].
  right. exists n. split; [done|]. split; [done|].
  apply bind_Ok in Hrun as (rng & _ & Hrun).
  match type of Hrun with
  | context [add_xsd _ _ _ _ ?s] =>
      assert (step_adds (property_emits e.2) st s ∧ bnodes s = bnodes st)
        as [Hst Hb]
  end.
  { split; [step_adds_tac|].
    destruct (truthy (p_summary e.2)), (decide (n = "ObjectProperty")),
      (decide (n = "DataProperty")); done. }
  assert (∀ rng' s, bnodes (add_xsd (URIRef (p_iri e.2)) RDFS.range rng'
                              (p_name e.2) s) = bnodes s) as Hxsd.
  { intros rng' s. unfold add_xsd, xsd_range. by destruct (Py.startswith _ _). }
  destruct (Py.contains ":" rng).
  { injection Hrun as <-. rewrite Hxsd.
    split; [|done]. apply step_adds_add_xsd; [done|by constructor]. }
  destruct (datatypes model !! _) as [dt|].
  - apply bind_Ok in Hrun as (base & _ & [= <-]). rewrite Hxsd.
    split; [|done]. apply step_adds_add_xsd; [done|by constructor].
  - apply bind_Ok in Hrun as (dt & _ & [= <-]).
    split; [|done]. apply step_adds_add; [done|by constructor].
Qed.

Lemma gen_vocabulary_adds e st st' :
  gen_vocabulary e st = Ok st' →
  step_adds (vocabulary_emits e.2) st st' ∧ bnodes st' = bnodes st.
Proof.
  unfold gen_vocabulary. intros Hrun. split.
  - eapply step_adds_trans; [|eapply step_adds_weaken;
      [|eapply (for_each_step_adds _ (λ _ _, vocabulary_emits e.2));
         [| |exact Hrun]]].
    + step_adds_tac.
    + by intros t (_ & _ & Ht).
    + done.
    + intros [en d] s s' Hin [= <-]. step_adds_tac.
  - transitivity (bnodes (if truthy (v_summary e.2)
      then add (URIRef (v_iri e.2), RDFS.comment,
                Literal (default EmptyString (v_summary e.2)) (Some "en"))
            (add (URIRef (v_iri e.2), RDF.type, Res OWL.Class)
               (add (URIRef (v_iri e.2), RDF.type, Res RDFS.Class) st))
      else add (URIRef (v_iri e.2), RDF.type, Res OWL.Class)
             (add (URIRef (v_iri e.2), RDF.type, Res RDFS.Class) st)));
      [|by destruct (truthy _)].
    eapply (for_each_invariant _ (λ s, bnodes s = _)); [|reflexivity|exact Hrun].
    intros [en d] s s' _ Hs [= <-]. done.
Qed.

Lemma gen_individual_adds e st st' :
  gen_individual model e st = Ok st' →
  step_adds (individual_emits e.2) st st' ∧ bnodes st' = bnodes st.
Proof.
  unfold gen_individual. intros Hrun.
  apply bind_Ok in Hrun as (typ & _ & Hrun).
  apply bind_Ok in Hrun as (dt & _ & [= <-]).
  split; [step_adds_tac|].
  by destruct (truthy (i_summary e.2)), (truthy (i_metadata e.2 !! "IRI")).
Qed.

End passes.

(** ** The whole run *)

Section run.
Context (model : Model).

Lemma classes_adds fuel l st st' :
  for_each (gen_class fuel model) l st = Ok st' →
  step_adds (λ t, ∃ e, e ∈ l ∧ class_emits model (bnodes st) e.2 t) st st'.
Proof.
  apply (for_each_step_adds _ (λ e lo, class_emits model lo e.2)).
  - intros e lo lo' t. apply class_emits_mono.
  - intros e s s' _. apply gen_class_adds.
Qed.

Lemma properties_adds l st st' :
  for_each (gen_property model) l st = Ok st' →
  step_adds (property_pass_emits l) st st' ∧ bnodes st' = bnodes st.
Proof.
  intros Hrun. split.
  - eapply step_adds_weaken;
      [|eapply (for_each_step_adds _
          (λ (e : string * Property) (_ : nat) t,
             ∃ n, p_metadata e.2 !! "Nature" = Some n ∧ n ≠ "IdProperty"
                  ∧ property_emits e.2 t)); [| |exact Hrun]].
    + intros t (e & He & n & Ht). by exists e, n.
    + done.
    + intros e s s' _ Hbody.
      destruct (gen_property_adds model e s s' Hbody)
        as [->|(n & Hn & Hid & Hadds & _)]; [apply step_adds_refl|].
      eapply step_adds_weaken; [|exact Hadds]. intros t Ht. by exists n.
  - eapply (for_each_invariant _ (λ s, bnodes s = bnodes st));
      [|reflexivity|exact Hrun].
    intros e s s' _ Hs Hbody.
    by destruct (gen_property_adds model e s s' Hbody)
      as [->|(n & _ & _ & _ & ->)].
Qed.

Lemma vocabularies_adds l st st' :
  for_each gen_vocabulary l st = Ok st' →
  step_adds (λ t, ∃ e, e ∈ l ∧ vocabulary_emits e.2 t) st st'
  ∧ bnodes st' = bnodes st.
Proof.
  intros Hrun. split.
  - eapply (for_each_step_adds gen_vocabulary (λ e _, vocabulary_emits e.2));
      [done| |exact Hrun].
    intros e s s' _ Hbody. by apply (gen_vocabulary_adds e).
  - eapply (for_each_invariant _ (λ s, bnodes s = bnodes st));
      [|reflexivity|exact Hrun].
    intros e s s' _ Hs Hbody.
    by destruct (gen_vocabulary_adds e s s' Hbody) as [_ ->].
Qed.

Lemma individuals_adds l st st' :
  for_each (gen_individual model) l st = Ok st' →
  step_adds (λ t, ∃ e, e ∈ l ∧ individual_emits e.2 t) st st'
  ∧ bnodes st' = bnodes st.
Proof.
  intros Hrun. split.
  - eapply (for_each_step_adds (gen_individual model)
              (λ e _, individual_emits e.2)); [done| |exact Hrun].
    intros e s s' _ Hbody. by apply (gen_individual_adds model).
  - eapply (for_each_invariant _ (λ s, bnodes s = bnodes st));
      [|reflexivity|exact Hrun].
    intros e s s' _ Hs Hbody.
    by destruct (gen_individual_adds model e s s' Hbody) as [_ ->].
Qed.

(** The four passes of a run, one after the other. *)
Lemma gen_rdf_ontology_passes fuel st :
  gen_rdf_ontology fuel model = Ok st →
  ∃ st1 st2 st3,
    for_each (gen_class fuel model) (classes model) ontology_header = Ok st1
    ∧ for_each (gen_property model) (properties model) st1 = Ok st2
    ∧ for_each gen_vocabulary (vocabularies model) st2 = Ok st3
    ∧ for_each (gen_individual model) (individuals model) st3 = Ok st.
Proof.
  unfold gen_rdf_ontology. intros Hrun.
  apply bind_Ok in Hrun as (st1 & H1 & Hrun).
  apply bind_Ok in Hrun as (st2 & H2 & Hrun).
  apply bind_Ok in Hrun as (st3 & H3 & Hrun).
  by exists st1, st2, st3.
Qed.

Lemma elem_of_ontology_header t :
  t ∈ graph ontology_header →
  t = (URIRef URI_BASE, RDF.type, Res OWL.Ontology)
  ∨ t = (URIRef URI_BASE, OWL.versionIRI, Res (URIRef URI_BASE)).
Proof.
  unfold ontology_header. rewrite !elem_of_add. simpl.
  intros [[Ht|?]|?]; [by apply elem_of_nil in Ht|auto..].
Qed.

(** Every triple of the graph was added by the visit of some entity. *)
Lemma gen_rdf_ontology_emitted fuel st t :
  gen_rdf_ontology fuel model = Ok st → t ∈ graph st → emitted model t.
Proof.
  intros Hrun Ht.
  destruct (gen_rdf_ontology_passes fuel st Hrun)
    as (st1 & st2 & st3 & H1 & H2 & H3 & H4).
  apply individuals_adds in H4 as [(_ & _ & H4) _].
  destruct (H4 t Ht) as [Ht3|([fq i] & Hi & Hti)];
    [|by eapply em_individual].
  apply vocabularies_adds in H3 as [(_ & _ & H3) _].
  destruct (H3 t Ht3) as [Ht2|([fq v] & Hv & Htv)];
    [|by eapply em_vocabulary].
  apply properties_adds in H2 as [(_ & _ & H2) _].
  destruct (H2 t Ht2) as [Ht1|([fq p] & n & Hp & Hn & Hid & Htp)];
    [|by eapply em_property].
  apply classes_adds in H1 as (_ & _ & H1).
  destruct (H1 t Ht1) as [Ht0|([fq c] & Hc & Htc)];
    [|by eapply em_class].
  destruct (elem_of_ontology_header t Ht0) as [-> | ->]; constructor.
Qed.

End run.

(** ** Entities with IRIs of their own *)

Lemma NoDup_fmap_eq {A B} (f : A → B) (l : list A) x y :
  NoDup (f <$> l) → x ∈ l → y ∈ l → f x = f y → x = y.
Proof.
  induction l as [|a l IH]; [by intros _ ?%elem_of_nil|].
  rewrite fmap_cons, NoDup_cons. intros [Ha Hl] Hx Hy Hf.
  apply elem_of_cons in Hx as [->|Hx]; apply elem_of_cons in Hy as [->|Hy];
    [done|..|by apply IH].
  - destruct Ha. rewrite Hf. by apply list_elem_of_fmap_2.
  - destruct Ha. rewrite <- Hf. by apply list_elem_of_fmap_2.
Qed.

Section distinct.
Context (model : Model) (Hdistinct : distinct_iris model).

Lemma distinct_iris_parts :
  NoDup ((λ e, c_iri e.2) <$> classes model)
  ∧ NoDup ((λ e, p_iri e.2) <$> properties model)
  ∧ (∀ e v en,
       e ∈ classes model → v ∈ vocabularies model → en ∈ v_entries v.2 →
       c_iri e.2 ≠ v_iri v.2 +:+ "/" +:+ en.1)
  ∧ (∀ e v en,
       e ∈ properties model → v ∈ vocabularies model → en ∈ v_entries v.2 →
       p_iri e.2 ≠ v_iri v.2 +:+ "/" +:+ en.1)
  ∧ (∀ e i,
       e ∈ properties model → i ∈ individuals model → p_iri e.2 ≠ i_iri i.2).
Proof.
  unfold distinct_iris, subject_iris in Hdistinct.
  apply NoDup_app in Hdistinct as (Hc & Hc' & Hrest).
  apply NoDup_app in Hrest as (Hp & Hp' & _).
  assert (∀ (v : string * Vocabulary) (en : string * string),
            v ∈ vocabularies model → en ∈ v_entries v.2 →
            v_iri v.2 +:+ "/" +:+ en.1
            ∈ flat_map (λ e, entry_iris e.2) (vocabularies model)) as Hentry.
  { intros v en Hv Hen. apply list_elem_of_In, in_flat_map.
    exists v. split; [by apply list_elem_of_In|].
    apply list_elem_of_In. unfold entry_iris.
    by apply (list_elem_of_fmap_2 (λ e : string * string, _ +:+ "/" +:+ e.1)). }
  split; [done|]. split; [done|]. split; [|split].
  - intros e v en He Hv Hen Heq.
    apply (Hc' (c_iri e.2)); [by apply (list_elem_of_fmap_2 (λ e, c_iri e.2))|].
    rewrite Heq, !elem_of_app. auto.
  - intros e v en He Hv Hen Heq.
    apply (Hp' (p_iri e.2)); [by apply (list_elem_of_fmap_2 (λ e, p_iri e.2))|].
    rewrite Heq, !elem_of_app. auto.
  - intros e i He Hi Heq.
    apply (Hp' (p_iri e.2)); [by apply (list_elem_of_fmap_2 (λ e, p_iri e.2))|].
    rewrite Heq, !elem_of_app. do 2 right.
    by apply (list_elem_of_fmap_2 (λ e, i_iri e.2)).
Qed.

End distinct.

(** Claim C3, as the code has it. Let [p] be a property with
    [Nature = IdProperty] whose IRI no property that is not identifying,
    no vocabulary entry and no individual of the model has. The graph of
    a successful run holds for [p] no property-type statement, no
    sub-typing statement ([owl:ObjectProperty], [owl:DatatypeProperty])
    and no range statement, and no blank node of the graph, under
    whatever class, has [p] as its [sh:path]. *)
Theorem id_property_not_declared fuel model st fq p :
  gen_rdf_ontology fuel model = Ok st →
  (fq, p) ∈ properties model →
  p_metadata p !! "Nature" = Some "IdProperty" →
  (∀ fq' p', (fq', p') ∈ properties model → p_iri p' = p_iri p →
             p_metadata p' !! "Nature" = Some "IdProperty") →
  (∀ fq' v e d, (fq', v) ∈ vocabularies model → (e, d) ∈ v_entries v →
                v_iri v +:+ "/" +:+ e ≠ p_iri p) →
  (∀ fq' i, (fq', i) ∈ individuals model → i_iri i ≠ p_iri p) →
  ((URIRef (p_iri p), RDF.type, Res RDF.Property) ∉ graph st)
  ∧ ((URIRef (p_iri p), RDF.type, Res OWL.ObjectProperty) ∉ graph st)
  ∧ ((URIRef (p_iri p), RDF.type, Res OWL.DatatypeProperty) ∉ graph st)
  ∧ (∀ o, (URIRef (p_iri p), RDFS.range, o) ∉ graph st)
  ∧ (∀ s, (s, SH.path, Res (URIRef (p_iri p))) ∉ graph st).
Proof.
  intros Hrun Hp Hnature Hprops Hentry Hind.
  assert (∀ s pr o,
            (s, pr, o) ∈ graph st →
            (s = URIRef (p_iri p)
             ∧ ((pr = RDF.type ∧ (o = Res RDF.Property ∨ o = Res OWL.ObjectProperty
                                    ∨ o = Res OWL.DatatypeProperty))
                ∨ pr = RDFS.range))
            ∨ (pr = SH.path ∧ o = Res (URIRef (p_iri p))) →
            False) as Hnone.
  { intros s pr o Hin Hbad.
    apply (gen_rdf_ontology_emitted model fuel st _ Hrun) in Hin.
    inversion Hin as [| |fq' c t Hc Ht|fq' p' n t Hp' Hn Hid Ht
                      |fq' v t Hv Ht|fq' i t Hi Ht]; subst.
    - destruct Hbad as [(Hs & [(Hpr & [Ho|[Ho|Ho]])|Hpr])|(Hpr & Ho)];
        iri_discriminate.
    - destruct Hbad as [(Hs & [(Hpr & [Ho|[Ho|Ho]])|Hpr])|(Hpr & Ho)];
        iri_discriminate.
    - destruct Ht as [Ht|(b & pn & r & prop & n & _ & _ & Hprop & Hn & Hid & Ht)].
      + inversion Ht; subst;
          destruct Hbad as [(Hs & [(Hpr & [Ho|[Ho|Ho]])|Hpr])|(Hpr & Ho)];
          iri_discriminate.
      + apply dict_get_elem_of in Hprop.
        inversion Ht; subst;
          destruct Hbad as [(Hs & [(Hpr & [Ho|[Ho|Ho]])|Hpr])|(Hpr & Ho)];
          try iri_discriminate.
        injection Ho as Ho.
        specialize (Hprops _ _ Hprop Ho). congruence.
    - assert (p_iri p' = p_iri p) as Heq.
      { inversion Ht; subst;
          destruct Hbad as [(Hs & [(Hpr & [Ho|[Ho|Ho]])|Hpr])|(Hpr & Ho)];
          try iri_discriminate; by injection Hs. }
      specialize (Hprops _ _ Hp' Heq). congruence.
    - inversion Ht; subst;
        destruct Hbad as [(Hs & [(Hpr & [Ho|[Ho|Ho]])|Hpr])|(Hpr & Ho)];
        try iri_discriminate;
        injection Hs as Hs;
        match goal with
        | He : (?e, ?d) ∈ v_entries v |- _ =>
            by apply (Hentry fq' v e d)
        end.
    - inversion Ht; subst;
        destruct Hbad as [(Hs & [(Hpr & [Ho|[Ho|Ho]])|Hpr])|(Hpr & Ho)];
        try iri_discriminate;
        injection Hs as Hs;
        by apply (Hind fq' i). }
  split; [|split; [|split; [|split]]].
  - intros Hin. eapply Hnone; eauto 10.
  - intros Hin. eapply Hnone; eauto 10.
  - intros Hin. eapply Hnone; eauto 10.
  - intros o Hin. eapply Hnone; eauto 10.
  - intros s Hin. eapply Hnone; eauto 10.
Qed.

(** ** Blank nodes *)

Lemma node_below_mono n n' x : n ≤ n' → node_below n x → node_below n' x.
Proof. destruct x; simpl; lia. Qed.

Lemma object_below_mono n n' o : n ≤ n' → object_below n o → object_below n' o.
Proof. destruct o; simpl; [apply node_below_mono|done..]. Qed.

Lemma class_head_emits_plain c t : class_head_emits c t → plain t.
Proof. by destruct 1. Qed.

Lemma property_emits_plain p t : property_emits p t → plain t.
Proof. by destruct 1. Qed.

Lemma vocabulary_emits_plain v t : vocabulary_emits v t → plain t.
Proof. by destruct 1. Qed.

Lemma individual_emits_plain i t : individual_emits i t → plain t.
Proof. by destruct 1. Qed.

Lemma fresh_ok_plain_step Q st st' :
  step_adds Q st st' → (∀ t, Q t → plain t) → fresh_ok st → fresh_ok st'.
Proof.
  intros (Hn & _ & Hadds) HQ Hfresh s p o Hin.
  destruct (Hadds _ Hin) as [Hold|Hnew].
  - destruct (Hfresh s p o Hold).
    split; [by apply (node_below_mono (bnodes st))
           |by apply (object_below_mono (bnodes st))].
  - destruct (HQ _ Hnew) as [Hs Ho]. simpl in *.
    split; [apply (node_below_mono 0)|apply (object_below_mono 0)];
      (lia || done).
Qed.

Lemma fresh_ok_shape_step i b r prop st st' :
  step_adds (shape_emits (URIRef i) b r prop) st st' →
  b < bnodes st' → fresh_ok st → fresh_ok st'.
Proof.
  intros (Hn & _ & Hadds) Hb Hfresh s p o Hin.
  destruct (Hadds _ Hin) as [Hold|Hnew].
  - destruct (Hfresh s p o Hold).
    split; [by apply (node_below_mono (bnodes st))
           |by apply (object_below_mono (bnodes st))].
  - inversion Hnew; subst; simpl; auto with lia.
Qed.

Lemma fresh_ok_subject st b p o :
  fresh_ok st → bnodes st ≤ b → (BNode b, p, o) ∉ graph st.
Proof. intros Hfresh Hb Hin. destruct (Hfresh _ _ _ Hin) as [Hs _]. simpl in Hs. lia. Qed.

Lemma fresh_ok_object st s p b :
  fresh_ok st → bnodes st ≤ b → (s, p, Res (BNode b)) ∉ graph st.
Proof. intros Hfresh Hb Hin. destruct (Hfresh _ _ _ Hin) as [_ Ho]. simpl in Ho. lia. Qed.

Section shapes.
Context (model : Model).

Lemma shape_entries_cons pn r props prop n :
  dict_get (fqname r) (properties model) = Some prop →
  p_metadata prop !! "Nature" = Some n →
  shape_entries model ((pn, r) :: props)
  = if decide (n = "IdProperty") then shape_entries model props
    else (r, prop) :: shape_entries model props.
Proof.
  intros Hprop Hn. unfold shape_entries. simpl. rewrite Hprop, Hn.
  destruct (decide (n = "IdProperty")) as [->|Hid].
  - by rewrite decide_True.
  - rewrite decide_False by congruence. done.
Qed.

(** What the loop over the declared properties adds, whatever the
    class. *)
Lemma gen_shapes_frame cnode props st st' :
  for_each (gen_shape model cnode) props st = Ok st' →
  step_adds (λ t, ∃ b r prop, bnodes st ≤ b ∧ shape_emits cnode b r prop t)
    st st'.
Proof.
  intros Hrun.
  eapply step_adds_weaken;
    [|eapply (for_each_step_adds _
        (λ (_ : string * PropertyRef) lo t,
           ∃ b r prop, lo ≤ b ∧ shape_emits cnode b r prop t));
       [| |exact Hrun]].
  - by intros t (_ & _ & Ht).
  - intros _ lo lo' t Hlo (b & r & prop & Hb & Ht).
    exists b, r, prop. split; [lia|done].
  - intros [pn r] s s' _ Hbody.
    destruct (gen_shape_spec model _ pn r s s' Hbody)
      as (prop & n & Hprop & Hn & [[_ ->]|(Hid & _ & Hadds & _)]).
    + apply step_adds_refl.
    + eapply step_adds_weaken; [|exact Hadds].
      intros t Ht. by exists (bnodes s), r, prop.
Qed.

(** The shapes of a class are numbered in declaration order. *)
Lemma gen_shapes_enumerated i props st st' :
  for_each (gen_shape model (URIRef i)) props st = Ok st' →
  fresh_ok st →
  fresh_ok st'
  ∧ bnodes st' = bnodes st + length (shape_entries model props)
  ∧ (∀ o, (URIRef i, SH.property, o) ∈ graph st' ↔
          (URIRef i, SH.property, o) ∈ graph st
          ∨ ∃ k, k < length (shape_entries model props)
                 ∧ o = Res (BNode (bnodes st + k)))
  ∧ (∀ k r prop,
       shape_entries model props !! k = Some (r, prop) →
       ∀ o, (BNode (bnodes st + k), SH.path, o) ∈ graph st' ↔
            o = Res (URIRef (p_iri prop))).
Proof.
  revert st. induction props as [|[pn r] props IH]; intros st Hrun Hfresh.
  { injection Hrun as <-. split; [done|]. split; [simpl; lia|]. split.
    - intros o. split; [auto|]. intros [?|(k & Hk & _)]; [done|simpl in Hk; lia].
    - intros k r prop Hk. done. }
  apply for_each_cons in Hrun as (st1 & Hbody & Hrun).
  destruct (gen_shape_spec model _ pn r st st1 Hbody)
    as (prop & n & Hprop & Hn
        & [[-> ->]|(Hid & Hb1 & Hadds & Hproperty & Hpath & _)]).
  { rewrite (shape_entries_cons pn r props prop _ Hprop Hn).
    rewrite decide_True by done. by apply IH. }
  rewrite (shape_entries_cons pn r props prop _ Hprop Hn).
  rewrite decide_False by done.
  assert (fresh_ok st1) as Hfresh1.
  { eapply fresh_ok_shape_step; [exact Hadds|lia|done]. }
  destruct (IH st1 Hrun Hfresh1) as (Hfresh' & Hb' & Hprops' & Hpaths').
  pose proof (gen_shapes_frame _ _ _ _ Hrun) as (_ & Hmono & Hframe).
  split; [done|]. split; [simpl; lia|]. split.
  - intros o. rewrite Hprops'. split.
    + intros [Hin|(k & Hk & ->)].
      * destruct Hadds as (_ & _ & Hadds).
        destruct (Hadds _ Hin) as [?|Hnew]; [by left|].
        right. exists 0. split; [simpl; lia|].
        inversion Hnew; subst. by rewrite Nat.add_0_r.
      * right. exists (S k). split; [simpl; lia|].
        do 2 f_equal. lia.
    + intros [Hin|(k & Hk & ->)].
      * left. by apply Hadds.
      * destruct k as [|k].
        -- left. by rewrite Nat.add_0_r.
        -- right. exists k. split; [simpl in Hk; lia|]. do 2 f_equal. lia.
  - intros k r' prop' Hk o. destruct k as [|k]; simpl in Hk.
    + injection Hk as <- <-. rewrite Nat.add_0_r. split.
      * intros Hin. destruct (Hframe _ Hin) as [Hin1|(b & r' & prop' & Hb & Hnew)].
        -- destruct Hadds as (_ & _ & Hadds).
           destruct (Hadds _ Hin1) as [Hold|Hnew].
           ++ by apply fresh_ok_subject in Hold.
           ++ inversion Hnew; subst; try done; iri_discriminate.
        -- inversion Hnew; subst; lia.
      * intros ->. by apply Hmono.
    + replace (bnodes st + S k) with (bnodes st1 + k) by lia.
      by apply (Hpaths' k r' prop').
Qed.

End shapes.

(** ** Cardinalities of the property shapes *)

Section cardinalities.
Context (model : Model).

Lemma shape_cardinality_ok_frame g g' x b :
  (∀ t, t ∈ g → t ∈ g') →
  (∀ p o, (BNode b, p, o) ∈ g' → (BNode b, p, o) ∈ g) →
  shape_cardinality_ok model g x b → shape_cardinality_ok model g' x b.
Proof.
  intros Hmono Hframe (fq & c & pn & r & prop & Hc & Hx & Hr & Hprop
                       & Hpath & (mincount & Hint & Hmin) & Hparse & Hmax).
  exists fq, c, pn, r, prop. repeat (split; [done|]). split; [auto|].
  split; [|split; [done|]].
  - exists mincount. split; [done|].
    intros o. rewrite <- Hmin. split; auto.
  - intros o. rewrite <- Hmax. split; auto.
Qed.

Lemma shapes_ok_plain_step Q st st' :
  step_adds Q st st' → (∀ t, Q t → plain t) →
  shapes_ok model st → shapes_ok model st'.
Proof.
  intros Hstep HQ [Hfresh Hshapes].
  split; [by eapply fresh_ok_plain_step|].
  destruct Hstep as (_ & Hmono & Hadds).
  intros x b Hin. destruct (Hadds _ Hin) as [Hold|Hnew].
  - eapply shape_cardinality_ok_frame; [exact Hmono| |by apply Hshapes].
    intros p o Hin'. destruct (Hadds _ Hin') as [?|Hnew]; [done|].
    apply HQ in Hnew as [Hs _]. simpl in Hs. lia.
  - apply HQ in Hnew as [_ Ho]. simpl in Ho. lia.
Qed.

Lemma shapes_ok_shape_step fq c pn r st st' :
  (fq, c) ∈ classes model → (pn, r) ∈ c_properties c →
  gen_shape model (URIRef (c_iri c)) (pn, r) st = Ok st' →
  shapes_ok model st → shapes_ok model st'.
Proof.
  intros Hc Hr Hbody [Hfresh Hshapes].
  destruct (gen_shape_spec model _ pn r st st' Hbody)
    as (prop & n & Hprop & Hn
        & [[_ ->]|(Hid & Hb' & Hadds & Hproperty & Hpath & Hmin & Hmax)]);
    [done|].
  split; [eapply fresh_ok_shape_step; [exact Hadds|lia|done]|].
  destruct Hadds as (_ & Hmono & Hadds).
  intros x b Hin. destruct (Hadds _ Hin) as [Hold|Hnew].
  - eapply shape_cardinality_ok_frame; [exact Hmono| |by apply Hshapes].
    intros p o Hin'. destruct (Hadds _ Hin') as [?|Hnew]; [done|].
    assert (b = bnodes st) as -> by (by inversion Hnew).
    by apply fresh_ok_object in Hold.
  - assert (x = URIRef (c_iri c) ∧ b = bnodes st) as [-> ->]
      by (inversion Hnew; subst; (done || iri_discriminate)).
    exists fq, c, pn, r, prop. repeat (split; [done|]).
    destruct Hmin as (mincount & Hint & Hmin).
    split; [|split].
    + exists mincount. split; [done|]. intros o. split.
      * intros Hin'. destruct (Hadds _ Hin') as [Hold|Hnew'].
        -- by apply fresh_ok_subject in Hold.
        -- inversion Hnew'; subst; try iri_discriminate.
           split; congruence.
      * intros (Hnz & ->). auto.
    + intros Hstar. destruct (Hmax Hstar) as (z & -> & _). by eexists.
    + intros o. split.
      * intros Hin'. destruct (Hadds _ Hin') as [Hold|Hnew'].
        -- by apply fresh_ok_subject in Hold.
        -- inversion Hnew'; subst; try iri_discriminate. eauto.
      * intros (Hstar & z & Hz & ->). destruct (Hmax Hstar) as (z' & Hz' & ?).
        assert (z' = z) as -> by congruence. auto.
Qed.

Lemma shapes_ok_class fuel e st st' :
  e ∈ classes model →
  gen_class fuel model e st = Ok st' →
  shapes_ok model st → shapes_ok model st'.
Proof.
  destruct e as [fq c]. intros Hc Hrun Hok.
  destruct (gen_class_run model fuel _ st st' Hrun) as (st1 & Hhead & _ & _ & Hshapes).
  eapply (for_each_invariant _ (shapes_ok model)); [| |exact Hshapes].
  - intros [pn r] s s' Hr Hs Hbody. by eapply shapes_ok_shape_step.
  - eapply shapes_ok_plain_step; [exact Hhead| |done].
    apply class_head_emits_plain.
Qed.

Lemma shapes_ok_header : shapes_ok model ontology_header.
Proof.
  split.
  - intros s p o Hin.
    by destruct (elem_of_ontology_header _ Hin) as [[= -> -> ->]|[= -> -> ->]].
  - intros x b Hin.
    destruct (elem_of_ontology_header _ Hin) as [[= _ ? _]|[= _ ? _]];
      iri_discriminate.
Qed.

Lemma shapes_ok_classes fuel st :
  for_each (gen_class fuel model) (classes model) ontology_header = Ok st →
  shapes_ok model st.
Proof.
  intros Hrun.
  eapply (for_each_invariant _ (shapes_ok model)); [| |exact Hrun].
  - intros e s s' He Hs Hbody. by eapply shapes_ok_class.
  - apply shapes_ok_header.
Qed.

Lemma shapes_ok_run fuel st :
  gen_rdf_ontology fuel model = Ok st → shapes_ok model st.
Proof.
  intros Hrun.
  destruct (gen_rdf_ontology_passes model fuel st Hrun)
    as (st1 & st2 & st3 & H1 & H2 & H3 & H4).
  apply shapes_ok_classes in H1.
  apply properties_adds in H2 as [H2 _].
  apply vocabularies_adds in H3 as [H3 _].
  apply individuals_adds in H4 as [H4 _].
  eapply shapes_ok_plain_step; [exact H4| |].
  { intros t (e & _ & Ht). by eapply individual_emits_plain. }
  eapply shapes_ok_plain_step; [exact H3| |].
  { intros t (e & _ & Ht). by eapply vocabulary_emits_plain. }
  eapply shapes_ok_plain_step; [exact H2| |done].
  intros t (e & n & _ & _ & _ & Ht). by eapply property_emits_plain.
Qed.

(** Claim C4. In the graph of a successful run, every property shape
  (a blank node [b] under [sh:property]) is the shape of a property [r]
  that a class of the model declares, and for it: a [sh:minCount]
  statement is present if and only if [int(minCount)] is not [0]; a
  [sh:maxCount] statement is present if and only if [maxCount] is not
  ['*']; a statement that is present carries the declared value as an
  integer literal, which is the integer [z] when the declared text is
  the decimal numeral of [z]. *)
Theorem shape_cardinalities fuel st x b :
  gen_rdf_ontology fuel model = Ok st →
  (x, SH.property, Res (BNode b)) ∈ graph st →
  ∃ fq c pn r prop,
    (fq, c) ∈ classes model ∧ x = URIRef (c_iri c)
    ∧ (pn, r) ∈ c_properties c
    ∧ dict_get (fqname r) (properties model) = Some prop
    ∧ (BNode b, SH.path, Res (URIRef (p_iri prop))) ∈ graph st
    ∧ (∃ mincount,
         Py.int (minCount r) = Some mincount
         ∧ ∀ o, (BNode b, SH.minCount, o) ∈ graph st ↔
                mincount ≠ 0%Z ∧ o = IntLiteral mincount)
    ∧ (maxCount r ≠ "*" → is_Some (Py.int (maxCount r)))
    ∧ (∀ o, (BNode b, SH.maxCount, o) ∈ graph st ↔
            maxCount r ≠ "*"
            ∧ ∃ maxcount,
                Py.int (maxCount r) = Some maxcount ∧ o = IntLiteral maxcount)
    ∧ (∀ z : Z, minCount r = pretty z →
         ∀ o, (BNode b, SH.minCount, o) ∈ graph st ↔
              z ≠ 0%Z ∧ o = IntLiteral z)
    ∧ (∀ z : Z, maxCount r = pretty z →
         ∀ o, (BNode b, SH.maxCount, o) ∈ graph st ↔ o = IntLiteral z).
Proof.
  intros Hrun Hin. destruct (shapes_ok_run fuel st Hrun) as [_ Hshapes].
  destruct (Hshapes x b Hin)
    as (fq & c & pn & r & prop & Hc & Hx & Hr & Hprop & Hpath & Hmin & Hsome
        & Hmax).
  exists fq, c, pn, r, prop. do 8 (split; [done|]). split.
  - intros z Hz o. destruct Hmin as (mincount & Hint & Hmin).
    rewrite Hz in Hint. apply int_numeral in Hint as ->. apply Hmin.
  - intros z Hz o. rewrite Hmax.
    assert (maxCount r ≠ "*") as Hstar
      by (rewrite Hz; apply numeral_not_star).
    destruct (Hsome Hstar) as [maxcount Hint]. split.
    + intros (_ & m & Hm & ->). rewrite Hz in Hm.
      by apply int_numeral in Hm as ->.
    + intros ->. split; [done|]. exists maxcount. split; [done|].
      rewrite Hz in Hint. by apply int_numeral in Hint as ->.
Qed.

End cardinalities.

(** ** Node shapes *)

Lemma class_head_emits_predicate c t :
  class_head_emits c t → t.1.1 = URIRef (c_iri c) ∧ t.1.2 ≠ SH.property.
Proof. destruct 1; (split; [done|]); simpl; intros ?; iri_discriminate. Qed.

Lemma property_emits_predicate p t : property_emits p t → t.1.2 ≠ SH.property.
Proof. destruct 1; simpl; intros ?; iri_discriminate. Qed.

Lemma vocabulary_emits_predicate v t : vocabulary_emits v t → t.1.2 ≠ SH.property.
Proof. destruct 1; simpl; intros ?; iri_discriminate. Qed.

Lemma individual_emits_predicate i t : individual_emits i t → t.1.2 ≠ SH.property.
Proof. destruct 1; simpl; intros ?; iri_discriminate. Qed.

Section node_shapes.
Context (model : Model).

(** What the run adds once the classes [l] remain to be visited. *)
Lemma later_passes_adds fuel l s st1 st2 st3 st :
  for_each (gen_class fuel model) l s = Ok st1 →
  for_each (gen_property model) (properties model) st1 = Ok st2 →
  for_each gen_vocabulary (vocabularies model) st2 = Ok st3 →
  for_each (gen_individual model) (individuals model) st3 = Ok st →
  step_adds (λ t, (∃ e, e ∈ l ∧ class_emits model (bnodes s) e.2 t)
                  ∨ (plain t ∧ t.1.2 ≠ SH.property)) s st.
Proof.
  intros H1 H2 H3 H4.
  apply classes_adds in H1.
  apply properties_adds in H2 as [H2 _].
  apply vocabularies_adds in H3 as [H3 _].
  apply individuals_adds in H4 as [H4 _].
  eapply step_adds_trans;
    [eapply step_adds_weaken; [|exact H1]; intros t Ht; by left|].
  eapply step_adds_trans; [eapply step_adds_weaken; [|exact H2]|].
  { intros t (e & n & _ & _ & _ & Ht). right.
    split; [by eapply property_emits_plain|by eapply property_emits_predicate]. }
  eapply step_adds_trans; [eapply step_adds_weaken; [|exact H3]|].
  { intros t (e & _ & Ht). right.
    split; [by eapply vocabulary_emits_plain|by eapply vocabulary_emits_predicate]. }
  eapply step_adds_weaken; [|exact H4].
  intros t (e & _ & Ht). right.
  split; [by eapply individual_emits_plain|by eapply individual_emits_predicate].
Qed.

(** The visits of other classes leave the shapes of a class alone. *)
Lemma other_classes_property lo (l : list (string * Class)) i o t :
  (∀ e, e ∈ l → c_iri e.2 ≠ i) →
  (∃ e, e ∈ l ∧ class_emits model lo e.2 t) ∨ (plain t ∧ t.1.2 ≠ SH.property) →
  t ≠ (URIRef i, SH.property, o).
Proof.
  intros Hl [(e & He & [Ht|(b & pn & r & prop & n & _ & _ & _ & _ & _ & Ht)])
            |[_ Ht]] ->.
  - by apply class_head_emits_predicate in Ht as [_ ?].
  - inversion Ht; subst; try iri_discriminate. by apply (Hl e).
  - done.
Qed.

Lemma other_classes_subject lo (l : list (string * Class)) b p o t :
  b < lo →
  (∃ e, e ∈ l ∧ class_emits model lo e.2 t) ∨ (plain t ∧ t.1.2 ≠ SH.property) →
  t ≠ (BNode b, p, o).
Proof.
  intros Hb [(e & He & [Ht|(b' & pn & r & prop & n & Hb' & _ & _ & _ & _ & Ht)])
            |[[Ht _] _]] ->.
  - by apply class_head_emits_predicate in Ht as [? _].
  - inversion Ht; subst; lia.
  - simpl in Ht. lia.
Qed.

(** Claim C2, as the code has it. In a model whose entities have IRIs
  of their own, the graph of a successful run marks the node of a class
  as a [sh:NodeShape] if and only if the class declares a property,
  identifying or not; and the objects of its [sh:property] statements
  are blank nodes [b0], [b0 + 1], ... numbered in the order of creation,
  exactly one for each declared property that is not identifying, in
  declaration order, the [sh:path] of each being the IRI of its
  property and nothing else. *)
Theorem class_node_shape fuel st fq c :
  gen_rdf_ontology fuel model = Ok st →
  (fq, c) ∈ classes model →
  distinct_iris model →
  ((URIRef (c_iri c), RDF.type, Res SH.NodeShape) ∈ graph st ↔
   c_properties c ≠ [])
  ∧ ∃ b0,
      (∀ o, (URIRef (c_iri c), SH.property, o) ∈ graph st ↔
            ∃ k, k < length (shape_entries model (c_properties c))
                 ∧ o = Res (BNode (b0 + k)))
      ∧ (∀ k r prop,
           shape_entries model (c_properties c) !! k = Some (r, prop) →
           ∀ o, (BNode (b0 + k), SH.path, o) ∈ graph st ↔
                o = Res (URIRef (p_iri prop))).
Proof.
  intros Hrun Hc Hdistinct.
  destruct (distinct_iris_parts model Hdistinct) as (Hclasses & _ & Hentry & _).
  destruct (gen_rdf_ontology_passes model fuel st Hrun)
    as (st1 & st2 & st3 & H1 & H2 & H3 & H4).
  pose proof Hc as Hsplit.
  apply list_elem_of_split in Hsplit as (l1 & l2 & Hl).
  rewrite Hl in H1.
  apply for_each_app in H1 as (s1 & Hl1 & H1).
  apply for_each_cons in H1 as (s2 & Hbody & Hl2).
  assert (∀ e, e ∈ l1 ++ l2 → c_iri e.2 ≠ c_iri c) as Hother.
  { intros e He Heq. rewrite Hl in Hclasses.
    rewrite fmap_app, fmap_cons in Hclasses.
    apply NoDup_app in Hclasses as (_ & Hl1' & Hl2').
    apply NoDup_cons in Hl2' as [Hl2' _]. simpl in *.
    apply elem_of_app in He as [He|He].
    - apply (Hl1' (c_iri e.2)); [by apply (list_elem_of_fmap_2 (λ e, c_iri e.2))|].
      rewrite Heq. left.
    - apply Hl2'. rewrite <- Heq. by apply (list_elem_of_fmap_2 (λ e, c_iri e.2)). }
  (* before the visit of [c] *)
  assert (shapes_ok model s1) as [Hfresh1 _].
  { eapply (for_each_invariant _ (shapes_ok model)); [| |exact Hl1].
    - intros e s s' He Hs He'. eapply shapes_ok_class; [|exact He'|done].
      rewrite Hl. apply elem_of_app. by left.
    - apply shapes_ok_header. }
  assert (∀ o, (URIRef (c_iri c), SH.property, o) ∉ graph s1) as Hnone1.
  { intros o Hin. apply classes_adds in Hl1 as (_ & _ & Hl1).
    destruct (Hl1 _ Hin) as [Hhead|Hnew].
    - destruct (elem_of_ontology_header _ Hhead) as [[= _ ? _]|[= _ ? _]];
        iri_discriminate.
    - eapply (other_classes_property _ l1 (c_iri c) o); [|by left|done].
      intros e He. apply Hother, elem_of_app. by left. }
  (* the visit of [c] *)
  destruct (gen_class_run model fuel _ s1 s2 Hbody)
    as (sh & Hhead & Hbh & Hnode & Hshapes).
  simpl in Hhead, Hnode, Hshapes.
  assert (fresh_ok sh) as Hfreshh.
  { eapply fresh_ok_plain_step; [exact Hhead| |done].
    apply class_head_emits_plain. }
  destruct (gen_shapes_enumerated model _ _ sh s2 Hshapes Hfreshh)
    as (Hfresh2 & Hb2 & Hprops2 & Hpaths2).
  pose proof (gen_shapes_frame model _ _ _ _ Hshapes) as (_ & Hmono2 & _).
  (* after the visit of [c] *)
  pose proof (later_passes_adds fuel l2 s2 st1 st2 st3 st Hl2 H2 H3 H4)
    as (_ & Hmono & Hlater).
  split.
  - split.
    + intros Hin.
      apply (gen_rdf_ontology_emitted model fuel st _ Hrun) in Hin.
      inversion Hin as [| |fq' c' t Hc' Ht|fq' p' n t Hp' Hn Hid Ht
                        |fq' v t Hv Ht|fq' i t Hi Ht]; subst;
        try iri_discriminate.
      * assert (c_iri c' = c_iri c ∧ c_properties c' ≠ []) as [Hiri Hne].
        { destruct Ht as [Ht|(b & pn & r & prop & n & _ & _ & _ & _ & _ & Ht)];
            inversion Ht; subst; (done || iri_discriminate). }
        by assert ((fq', c') = (fq, c)) as [= _ ->]
          by (eapply (NoDup_fmap_eq (λ e, c_iri e.2)); eauto).
      * inversion Ht; subst; iri_discriminate.
      * inversion Ht; subst; try iri_discriminate.
        match goal with
        | He : (?e, ?d) ∈ v_entries v |- _ =>
            exfalso; by apply (Hentry (fq, c) (fq', v) (e, d))
        end.
      * inversion Ht; subst; iri_discriminate.
    + intros Hne. apply Hmono, Hmono2. auto.
  - exists (bnodes sh). split.
    + intros o. split.
      * intros Hin. destruct (Hlater _ Hin) as [Hin2|Hnew].
        -- apply Hprops2 in Hin2 as [Hinh|?]; [|done].
           destruct Hhead as (_ & _ & Hhead).
           destruct (Hhead _ Hinh) as [?|Hnew]; [by destruct (Hnone1 o)|].
           by apply class_head_emits_predicate in Hnew as [_ ?].
        -- exfalso.
           eapply (other_classes_property _ l2 (c_iri c) o); [|exact Hnew|done].
           intros e He. apply Hother, elem_of_app. by right.
      * intros Hk. apply Hmono, Hprops2. by right.
    + intros k r prop Hk o. rewrite <- (Hpaths2 k r prop Hk). split.
      * intros Hin. destruct (Hlater _ Hin) as [?|Hnew]; [done|].
        exfalso. eapply (other_classes_subject _ l2 (bnodes sh + k));
          [|exact Hnew|done].
        apply lookup_lt_Some in Hk. lia.
      * apply Hmono.
Qed.

End node_shapes.

(** ** Ranges and references *)

(** The visit of a property that is not identifying, up to its range. *)
Lemma gen_property_range model e st n rng :
  p_metadata e.2 !! "Nature" = Some n → n ≠ "IdProperty" →
  p_metadata e.2 !! "Range" = Some rng →
  ∃ st1,
    log st1 = log st
    ∧ (∀ s o, (s, RDFS.range, o) ∈ graph st1 ↔ (s, RDFS.range, o) ∈ graph st)
    ∧ gen_property model e st
      = if Py.contains ":" rng
        then Ok (add_xsd (URIRef (p_iri e.2)) RDFS.range rng (p_name e.2) st1)
        else
          match datatypes model !! resolve_ref (ns_name (p_ns e.2)) rng with
          | Some dt =>
              let* base := mgetitem "SubclassOf" (d_metadata dt) in
              Ok (add_xsd (URIRef (p_iri e.2)) RDFS.range base (p_name e.2) st1)
          | None =>
              let* dt := mgetitem (resolve_ref (ns_name (p_ns e.2)) rng)
                           (types model) in
              Ok (add (URIRef (p_iri e.2), RDFS.range,
                       Res (URIRef (entity_iri dt))) st1)
          end.
Proof.
  intros Hn Hid Hrng. unfold gen_property, nature, mgetitem at 1 2.
  rewrite Hn. simpl. rewrite decide_False by done.
  rewrite Hrng. simpl.
  eexists. split; [|split; [|reflexivity]].
  - by destruct (truthy (p_summary e.2)), (decide (n = "ObjectProperty")),
      (decide (n = "DataProperty")).
  - intros s o.
    destruct (truthy (p_summary e.2)), (decide (n = "ObjectProperty")),
      (decide (n = "DataProperty"));
      rewrite ?elem_of_add; (split; [|by auto]); intros Hin;
      repeat (destruct Hin as [Hin|Hin];
              [|injection Hin as _ ? _; iri_discriminate]); done.
Qed.

(** Claim C5, as the code has it. Let the [Range] of a property hold a
    colon. If the property is identifying, its visit and the shapes for
    it add and log nothing. If it is not, its visit returns normally; for
    a range that does not start with [xsd:] it logs exactly one
    diagnostic, which names the range and the property, and adds no range
    statement; for a range that starts with [xsd:] it logs nothing and
    adds the range statement to the XML-Schema IRI of what follows the
    prefix. The value constraint of a property shape, unless the range is
    itself a key of the classes, vocabularies or datatypes, is one
    diagnostic and no statement in the first case, the [sh:datatype]
    statement to that IRI in the second. *)
Theorem unknown_prefix_reported model fq p n rng st :
  p_metadata p !! "Nature" = Some n →
  p_metadata p !! "Range" = Some rng →
  Py.contains ":" rng = true →
  (n = "IdProperty" →
   gen_property model (fq, p) st = Ok st
   ∧ ∀ cnode pn r,
       dict_get (fqname r) (properties model) = Some p →
       gen_shape model cnode (pn, r) st = Ok st)
  ∧ (n ≠ "IdProperty" →
     ∃ st',
       gen_property model (fq, p) st = Ok st'
       ∧ (Py.startswith rng "xsd:" = false →
          log st' = log st ++ [UnknownNamespace rng (p_name p)]
          ∧ ∀ s o, (s, RDFS.range, o) ∈ graph st' ↔
                   (s, RDFS.range, o) ∈ graph st)
       ∧ (Py.startswith rng "xsd:" = true →
          log st' = log st
          ∧ ∀ s o, (s, RDFS.range, o) ∈ graph st' ↔
                   (s, RDFS.range, o) ∈ graph st
                   ∨ (s = URIRef (p_iri p)
                      ∧ o = Res (URIRef
                                   ("http://www.w3.org/2001/XMLSchema#"
                                    +:+ String.substring 4
                                          (String.length rng - 4) rng)))))
  ∧ (∀ b s,
       dict_get rng (classes model) = None →
       dict_get rng (vocabularies model) = None →
       datatypes model !! rng = None →
       (Py.startswith rng "xsd:" = false →
        shape_type model b p (range_typename p rng) s
        = Ok (warn (UnknownNamespace rng (p_iri p)) s))
       ∧ (Py.startswith rng "xsd:" = true →
          shape_type model b p (range_typename p rng) s
          = Ok (add (b, SH.datatype,
                     Res (URIRef ("http://www.w3.org/2001/XMLSchema#"
                                  +:+ String.substring 4
                                        (String.length rng - 4) rng))) s))).
Proof.
  intros Hn Hrng Hcolon. split; [|split].
  - intros ->. split.
    + unfold gen_property, nature, mgetitem. simpl. by rewrite Hn.
    + intros cnode pn r Hprop. unfold gen_shape, getitem, nature, mgetitem.
      simpl. rewrite Hprop. simpl. by rewrite Hn.
  - intros Hid.
    destruct (gen_property_range model (fq, p) st n rng Hn Hid Hrng)
      as (st1 & Hlog & Hgraph & Hrun).
    rewrite Hcolon in Hrun. eexists. split; [exact Hrun|].
    unfold add_xsd, xsd_range. split; intros Hprefix; rewrite Hprefix.
    + simpl. split; [by rewrite Hlog|]. intros s o. apply Hgraph.
    + split; [done|]. intros s o. rewrite elem_of_add, Hgraph.
      split; (intros [?|H]; [by left|right]).
      * by injection H as -> ->.
      * by destruct H as [-> ->].
  - intros b s Hc Hv Hd. unfold shape_type, range_typename.
    rewrite Hcolon. simpl. rewrite Hc, Hv, Hd.
    unfold add_xsd, xsd_range. split; intros Hprefix; by rewrite Hprefix.
Qed.

Lemma unknown_prefix_reported_witness :
  ∃ st',
    gen_property (Scenario.model_C "foo:hue")
      ("/Core/color", Scenario.color "foo:hue") ontology_header = Ok st'
    ∧ log st' = [UnknownNamespace "foo:hue" "color"]
    ∧ ∀ s o, (s, RDFS.range, o) ∉ graph st'.
Proof.
  destruct (unknown_prefix_reported (Scenario.model_C "foo:hue") "/Core/color"
              (Scenario.color "foo:hue") "DataProperty" "foo:hue"
              ontology_header)
    as (_ & Hvisit & _); [reflexivity..|].
  destruct Hvisit as (st' & Hrun & Hother & _); [discriminate|].
  destruct Hother as [Hlog Hgraph]; [reflexivity|].
  exists st'. split; [exact Hrun|]. split; [exact Hlog|].
  intros s o Hin. apply Hgraph in Hin.
  apply list_elem_of_In in Hin. simpl in Hin.
  repeat (destruct Hin as [Hin|Hin]; [discriminate Hin|]). done.
Defined.

(** Claim C5, as the specification states it, fails: for scenario C
    ([Core/color] with the range [xsd:hue]) the builder adds a range
    statement, to [http://www.w3.org/2001/XMLSchema#hue], and logs
    nothing; [xsd_range] looks at the prefix only. *)
Lemma xsd_hue_gets_a_range :
  ∃ st,
    gen_rdf_ontology 0 (Scenario.model_C "xsd:hue") = Ok st
    ∧ (URIRef "https://rdf.spdx.org/v3/Core/color", RDFS.range,
       Res (URIRef "http://www.w3.org/2001/XMLSchema#hue")) ∈ graph st
    ∧ log st = [].
Proof.
  eexists. split; [vm_compute; reflexivity|]. split; [|reflexivity].
  apply list_elem_of_In. simpl. auto 10.
Qed.


(** ** Dictionaries *)

Lemma dict_get_app {K} `{EqDecision K} {V} (k : K) (d1 d2 : list (K * V)) :
  dict_get k (d1 ++ d2)
  = match dict_get k d1 with
    | Some v => Some v
    | None => dict_get k d2
    end.
Proof.
  induction d1 as [|[k' v'] d1 IH]; simpl; [done|]. by case_decide.
Qed.

Lemma dict_get_None_filter {K} `{EqDecision K} {V} (k : K) (d : list (K * V)) :
  dict_get k d = None → filter (λ e, e.1 = k) d = [].
Proof.
  induction d as [|[k' v'] d IH]; simpl; [done|].
  case_decide as Hk; [done|]. intros Hd.
  rewrite filter_cons_False by (simpl; congruence). auto.
Qed.

Lemma dict_set_fresh {K} `{EqDecision K} {V} (k : K) (v : V) (d : list (K * V)) :
  dict_get k d = None → dict_set k v d = d ++ [(k, v)].
Proof.
  induction d as [|[k' v'] d IH]; simpl; [done|].
  case_decide; [done|]. intros Hd. by rewrite IH.
Qed.

(** ** The loop over the sorted subjects *)

Section context_loop.
Context (g : list triple) (hni : list object).

Lemma context_step_key ctx subject :
  context_step g hni ctx subject
  = match subject_key g subject with
    | None => ctx
    | Some key =>
        match dict_get (KStr key) (terms ctx) with
        | Some v =>
            {| terms := terms ctx;
               errors := errors ctx
                 ++ [DuplicateKey key (node_text subject) (current_target v)] |}
        | None =>
            {| terms := terms ctx
                 ++ [(KStr key, get_subject_term g hni subject)];
               errors := errors ctx |}
        end
    end.
Proof.
  unfold context_step, subject_key.
  destruct (decide (_ ∈ g)); [done|].
  destruct (decompose subject) as [[[base ns] name]|]; [|done].
  by destruct (decide (base ≠ _)).
Qed.

Lemma current_target_subject_term subject :
  current_target (get_subject_term g hni subject) = node_text subject.
Proof.
  unfold get_subject_term. destruct (decide _); [|done].
  induction (objects_of g subject RDFS.range) as [|o l IH]; simpl; [done|].
  destruct (decide (o ∈ hni)); [done|]. by destruct (is_class g o).
Qed.

Section key.
Context (key : string).

Lemma duplicate_reports_app e1 e2 :
  duplicate_reports key (e1 ++ e2)
  = duplicate_reports key e1 ++ duplicate_reports key e2.
Proof. apply omap_app. Qed.

(** Once the key is taken, the later subjects are reported. *)
Lemma fold_key_taken l ctx v :
  dict_get (KStr key) (terms ctx) = Some v →
  let ctx' := foldl (context_step g hni) ctx l in
  dict_get (KStr key) (terms ctx') = Some v
  ∧ key_entries key (terms ctx') = key_entries key (terms ctx)
  ∧ duplicate_reports key (errors ctx')
    = duplicate_reports key (errors ctx)
      ++ ((λ s, (node_text s, current_target v)) <$> filter (λ s, subject_key g s = Some key) l).
Proof.
  revert ctx. induction l as [|s l IH]; intros ctx Hv; simpl.
  { by rewrite app_nil_r. }
  rewrite context_step_key.
  destruct (subject_key g s) as [k|] eqn:Hs.
  - destruct (decide (k = key)) as [->|Hk].
    + rewrite Hv. rewrite filter_cons_True by done.
      destruct (IH {| terms := terms ctx;
                      errors := errors ctx
                        ++ [DuplicateKey key (node_text s) (current_target v)] |}
                  Hv) as (Hget & Hentries & Hreports).
      split; [done|]. split; [done|].
      rewrite Hreports. simpl. rewrite duplicate_reports_app. simpl.
      rewrite decide_True by done. by rewrite <- app_assoc.
    + rewrite filter_cons_False by congruence.
      destruct (dict_get (KStr k) (terms ctx)) as [v'|].
      * destruct (IH {| terms := terms ctx;
                        errors := errors ctx
                          ++ [DuplicateKey k (node_text s) (current_target v')] |}
                    Hv) as (Hget & Hentries & Hreports).
        split; [done|]. split; [done|].
        rewrite Hreports. simpl. rewrite duplicate_reports_app. simpl.
        rewrite decide_False by done. by rewrite app_nil_r.
      * destruct (IH {| terms := terms ctx
                          ++ [(KStr k, get_subject_term g hni s)];
                        errors := errors ctx |}) as (Hget & Hentries & Hreports).
        { simpl. by rewrite dict_get_app, Hv. }
        split; [done|]. split; [|done].
        rewrite Hentries. simpl. unfold key_entries.
        rewrite filter_app, filter_cons_False by (simpl; congruence).
        by rewrite filter_nil, app_nil_r.
  - rewrite filter_cons_False by congruence. by apply IH.
Qed.

(** The first subject with a free key takes it. *)
Lemma fold_key_free l ctx :
  dict_get (KStr key) (terms ctx) = None →
  let ctx' := foldl (context_step g hni) ctx l in
  match filter (λ s, subject_key g s = Some key) l with
  | [] =>
      dict_get (KStr key) (terms ctx') = None
      ∧ duplicate_reports key (errors ctx')
        = duplicate_reports key (errors ctx)
  | s1 :: rest =>
      dict_get (KStr key) (terms ctx') = Some (get_subject_term g hni s1)
      ∧ key_entries key (terms ctx') = [(KStr key, get_subject_term g hni s1)]
      ∧ duplicate_reports key (errors ctx')
        = duplicate_reports key (errors ctx)
          ++ ((λ s, (node_text s, node_text s1)) <$> rest)
  end.
Proof.
  revert ctx. induction l as [|s l IH]; intros ctx Hfree; simpl; [done|].
  rewrite context_step_key.
  destruct (subject_key g s) as [k|] eqn:Hs.
  - destruct (decide (k = key)) as [->|Hk].
    + rewrite Hfree. rewrite filter_cons_True by done.
      destruct (fold_key_taken l
                  {| terms := terms ctx
                       ++ [(KStr key, get_subject_term g hni s)];
                     errors := errors ctx |}
                  (get_subject_term g hni s))
        as (Hget & Hentries & Hreports).
      { simpl. rewrite dict_get_app, Hfree. simpl. by rewrite decide_True. }
      split; [done|]. split.
      * rewrite Hentries. simpl. unfold key_entries.
        rewrite filter_app, (dict_get_None_filter _ _ Hfree).
        by rewrite filter_cons_True, filter_nil.
      * rewrite Hreports. simpl. by rewrite current_target_subject_term.
    + rewrite filter_cons_False by congruence.
      destruct (dict_get (KStr k) (terms ctx)) as [v'|].
      * specialize (IH {| terms := terms ctx;
                          errors := errors ctx
                            ++ [DuplicateKey k (node_text s) (current_target v')] |}
                      Hfree).
        simpl in IH. rewrite duplicate_reports_app in IH. simpl in IH.
        rewrite decide_False in IH by done. by rewrite app_nil_r in IH.
      * apply (IH {| terms := terms ctx
                       ++ [(KStr k, get_subject_term g hni s)];
                     errors := errors ctx |}).
        simpl. rewrite dict_get_app, Hfree. simpl.
        rewrite decide_False by congruence. done.
  - rewrite filter_cons_False by congruence. by apply IH.
Qed.

End key.
End context_loop.

(** ** The order of the subjects *)

Lemma node_le_total (a b : node) : node_le a b ∨ node_le b a.
Proof.
  destruct a as [s|i], b as [t|j]; simpl; auto.
  - apply (total String.le).
  - lia.
Qed.

Lemma sorted_subjects_Sorted g : Sorted node_le (sorted_subjects g).
Proof. apply (@Sorted_merge_sort _ node_le _ node_le_total). Qed.

Lemma elem_of_sorted_subjects g s :
  s ∈ sorted_subjects g ↔ ∃ p o, (s, p, o) ∈ g.
Proof.
  unfold sorted_subjects, subjects.
  rewrite merge_sort_Permutation, elem_of_remove_dups, list_elem_of_fmap.
  split.
  - intros ([[s' p] o] & -> & Hin). by exists p, o.
  - intros (p & o & Hin). by exists (s, p, o).
Qed.

(** ** Colliding keys *)

Section collisions.
Context (g : list triple).

Lemma subject_key_text s key :
  subject_key g s = Some key →
  ∃ ns name,
    s = URIRef (Py.rstrip "/" URI_BASE +:+ String "/" (ns +:+ String "/" name))
    ∧ key = context_key ns name.
Proof.
  unfold subject_key. destruct (decide (_ ∈ g)); [done|].
  destruct s as [iri|b]; [|done]. unfold decompose.
  destruct (Py.rsplit "/" 2 iri) as [|base [|ns [|name [|]]]] eqn:Hsplit;
    try done.
  destruct (decide (base ≠ _)) as [|Hbase]; [done|].
  apply dec_stable in Hbase. intros [= <-].
  exists ns, name. split; [|done].
  f_equal. rewrite <- Hbase. by apply rsplit_three.
Qed.

(** A key without an underscore comes from one subject only. *)
Lemma plain_key_unique s1 s2 key :
  subject_key g s1 = Some key → subject_key g s2 = Some key →
  Py.contains "_" key = false → s1 = s2.
Proof.
  assert (∀ s, subject_key g s = Some key → Py.contains "_" key = false →
               s = URIRef (Py.rstrip "/" URI_BASE
                           +:+ String "/" ("Core" +:+ String "/" key)))
    as Hone.
  { intros s Hs Hplain.
    destruct (subject_key_text s key Hs) as (ns & name & -> & ->).
    unfold context_key in *. destruct (decide (ns = "Core")) as [->|_]; [done|].
    rewrite contains_append in Hplain.
    apply orb_false_elim in Hplain as [_ Hplain]. by simpl in Hplain. }
  intros H1 H2 Hplain. by rewrite (Hone s1), (Hone s2).
Qed.

Lemma sorted_subjects_NoDup : NoDup (sorted_subjects g).
Proof.
  unfold sorted_subjects, subjects.
  rewrite merge_sort_Permutation. apply NoDup_remove_dups.
Qed.

Lemma seed_terms_plain_key idnames key :
  dict_get (KStr key) (seed_terms idnames)
  = dict_get (KStr key)
      [(KStr "spdx", VStr URI_BASE); (KStr "type", VStr "@type")].
Proof.
  unfold seed_terms.
  generalize [(KStr "spdx", VStr URI_BASE); (KStr "type", VStr "@type")].
  induction idnames as [|o ids IH]; intros d; simpl; [done|].
  rewrite IH. clear IH.
  induction d as [|[k v] d IH]; simpl; [done|].
  destruct (decide (KTerm o = k)) as [<-|Hk]; simpl; [done|].
  destruct (decide (KStr key = k)); [done|]. apply IH.
Qed.

(** Claim C6. When two or more subjects derive the plain key [key], met
  as [s1], [s2], ... in sorted-subject order, the table maps [key] to
  the term of [s1] and holds no other entry under it, and for each
  later subject exactly one duplicate-key diagnostic is reported, which
  names that subject and the target [s1] that the key is mapped to; for
  two colliding subjects that is exactly one diagnostic. The deriver is
  a total function: a collision does not abort it. *)
Theorem colliding_keys idnames key s1 s2 rest :
  colliders g key = s1 :: s2 :: rest →
  s1 ≠ s2
  ∧ dict_get (KStr key) (terms (jsonld_context_from idnames g))
    = Some (get_subject_term g (has_named_individuals g) s1)
  ∧ key_entries key (terms (jsonld_context_from idnames g))
    = [(KStr key, get_subject_term g (has_named_individuals g) s1)]
  ∧ duplicate_reports key (errors (jsonld_context_from idnames g))
    = (λ s, (node_text s, node_text s1)) <$> (s2 :: rest).
Proof.
  intros Hcolliders.
  assert (s1 ≠ s2) as Hne.
  { pose proof sorted_subjects_NoDup as Hnodup.
    apply (NoDup_filter (λ s, subject_key g s = Some key)) in Hnodup.
    unfold colliders in Hcolliders. rewrite Hcolliders in Hnodup.
    apply NoDup_cons in Hnodup as [Hnotin _].
    intros ->. apply Hnotin. left. }
  assert (subject_key g s1 = Some key ∧ subject_key g s2 = Some key)
    as [Hs1 Hs2].
  { assert (∀ s, s ∈ colliders g key → subject_key g s = Some key) as Hin.
    { intros s Hs. unfold colliders in Hs.
      by apply list_elem_of_filter in Hs as [? _]. }
    rewrite Hcolliders in Hin. split; apply Hin; [left|right; left]. }
  assert (Py.contains "_" key = true) as Hunderscore.
  { destruct (Py.contains "_" key) eqn:Hplain; [done|].
    destruct Hne. by eapply plain_key_unique. }
  split; [done|].
  pose proof (fold_key_free g (has_named_individuals g) key
                (sorted_subjects g)
                {| terms := seed_terms idnames; errors := [] |}) as Hfold.
  fold (colliders g key) in Hfold. rewrite Hcolliders in Hfold.
  apply Hfold. simpl. rewrite seed_terms_plain_key. simpl.
  destruct (decide (KStr key = KStr "spdx")) as [[= ->]|_]; [done|].
  by destruct (decide (KStr key = KStr "type")) as [[= ->]|_].
Qed.

End collisions.

(** ** Sorted members *)

Section sort_members.
Context {A : Type}.
Implicit Types (m : string * A) (ms : list (string * A)).

Lemma insert_member_comm m1 m2 ms :
  m1.1 ≠ m2.1 →
  insert_member m1 (insert_member m2 ms)
  = insert_member m2 (insert_member m1 ms).
Proof.
  intros Hne.
  assert (∀ x y z : string, String.le x y → String.le y z → String.le x z)
    as Htrans by (intros x y z; apply transitivity).
  assert (∀ x y : string, String.le x y → String.le y x → x = y)
    as Hanti by (intros x y; apply (anti_symm String.le)).
  induction ms as [|m ms IH]; simpl.
  - repeat case_decide; try done.
    + destruct Hne. by apply Hanti.
    + by destruct (total String.le m1.1 m2.1).
  - destruct (decide (String.le m2.1 m.1)) as [H2|H2];
      destruct (decide (String.le m1.1 m.1)) as [H1|H1]; simpl;
      repeat case_decide; try done.
    + destruct Hne. by apply Hanti.
    + by destruct (total String.le m1.1 m2.1).
    + destruct H1. by eapply Htrans.
    + destruct H2. by eapply Htrans.
    + by rewrite IH.
Qed.

Lemma foldr_insert_member_perm ms1 ms2 ms :
  ms1 ≡ₚ ms2 → NoDup ms1.*1 →
  foldr insert_member ms ms1 = foldr insert_member ms ms2.
Proof.
  intros Hperm. revert ms.
  induction Hperm as [|m ms1 ms2 Hperm IH|m1 m2 ms1|ms1 ms2 ms3 H12 IH12 H23 IH23];
    intros ms Hnodup; simpl.
  - done.
  - rewrite fmap_cons, NoDup_cons in Hnodup. destruct Hnodup as [_ Hnodup].
    by rewrite IH.
  - rewrite !fmap_cons, !NoDup_cons in Hnodup.
    apply insert_member_comm. destruct Hnodup as (Hne & _).
    intros Heq. apply Hne. rewrite Heq. left.
  - rewrite IH12 by done. apply IH23. by rewrite <- H12.
Qed.

End sort_members.

(** ** Determinism of the context *)

Lemma elem_of_objects g p o : o ∈ objects g p ↔ ∃ s, (s, p, o) ∈ g.
Proof.
  unfold objects. rewrite list_elem_of_omap. split.
  - intros ([[s p'] o'] & Hin & Ho). simpl in Ho.
    case_decide as Hp; [|done]. injection Ho as ->. subst p'. by exists s.
  - intros (s & Hin). exists (s, p, o). split; [done|]. simpl.
    by rewrite decide_True.
Qed.

Lemma seed_terms_fresh idnames :
  NoDup idnames →
  seed_terms idnames
  = [(KStr "spdx", VStr URI_BASE); (KStr "type", VStr "@type")]
    ++ id_terms idnames.
Proof.
  unfold seed_terms, id_terms. intros Hnodup.
  assert (∀ d : list (term_key * term_value),
            (∀ o, o ∈ idnames → dict_get (KTerm o) d = None) →
            foldl (λ terms idname, dict_set (KTerm idname) (VStr "@id") terms)
              d idnames
            = d ++ ((λ o, (KTerm o, VStr "@id")) <$> idnames)) as Hgen.
  { induction Hnodup as [|o ids Ho Hnodup IH]; intros d Hd; simpl.
    - by rewrite app_nil_r.
    - rewrite dict_set_fresh by (apply Hd; left).
      rewrite IH; [by rewrite <- app_assoc|].
      intros o' Ho'. rewrite dict_get_app, Hd by (by right). simpl.
      rewrite decide_False; [done|]. intros [= ->]. done. }
  by apply Hgen.
Qed.

Lemma dict_get_id_terms_plain k idnames :
  dict_get (KStr k) (id_terms idnames) = None.
Proof. induction idnames as [|o ids IH]; simpl; [done|]. exact IH. Qed.

Lemma dict_get_id_terms o idnames :
  dict_get (KTerm o) (id_terms idnames)
  = if decide (o ∈ idnames) then Some (VStr "@id") else None.
Proof.
  induction idnames as [|o' ids IH].
  - rewrite decide_False; [done|]. apply not_elem_of_nil.
  - change (dict_get (KTerm o) (id_terms (o' :: ids)))
      with (if decide (KTerm o = KTerm o') then Some (VStr "@id")
            else dict_get (KTerm o) (id_terms ids)).
    destruct (decide (KTerm o = KTerm o')) as [[= ->]|Hne].
    + rewrite decide_True; [done|]. left.
    + rewrite IH. destruct (decide (o ∈ ids)) as [Hin|Hin].
      * rewrite decide_True; [done|]. by right.
      * rewrite decide_False; [done|].
        intros [->|?]%elem_of_cons; done.
Qed.

Section determinism.
Context (g : list triple) (hni : list object).

(** The loop looks the table up under plain keys only. *)
Lemma fold_context_ext l t1 t2 acc errs :
  (∀ k, dict_get (KStr k) t1 = dict_get (KStr k) t2) →
  ∃ acc' errs',
    foldl (context_step g hni) {| terms := t1 ++ acc; errors := errs |} l
    = {| terms := t1 ++ acc'; errors := errs' |}
    ∧ foldl (context_step g hni) {| terms := t2 ++ acc; errors := errs |} l
      = {| terms := t2 ++ acc'; errors := errs' |}
    ∧ ∀ o, dict_get (KTerm o) acc' = dict_get (KTerm o) acc.
Proof.
  intros Hext. revert acc errs.
  induction l as [|s l IH]; intros acc errs; simpl; [by eauto|].
  rewrite !context_step_key. simpl.
  destruct (subject_key g s) as [k|]; [|apply IH].
  rewrite !dict_get_app, Hext.
  destruct (dict_get (KStr k) t2) as [v|]; [apply IH|].
  destruct (dict_get (KStr k) acc) as [v|]; [apply IH|].
  rewrite <- !app_assoc.
  destruct (IH (acc ++ [(KStr k, get_subject_term g hni s)]) errs)
    as (acc' & errs' & H1 & H2 & Hacc).
  exists acc', errs'. split; [done|]. split; [done|].
  intros o. rewrite Hacc, dict_get_app. by destruct (dict_get (KTerm o) acc).
Qed.

End determinism.

Lemma sort_keys_context_json ctx :
  sort_keys (context_json ctx)
  = JObject [("@context", JObject (sort_members (term_member <$> terms ctx)))].
Proof.
  unfold context_json. simpl.
  apply (f_equal (λ ms, JObject [("@context", JObject (sort_members ms))])).
  rewrite <- list_fmap_compose. done.
Qed.

Lemma sort_members_app {A} (ms1 ms2 : list (string * A)) :
  sort_members (ms1 ++ ms2) = foldr insert_member (sort_members ms2) ms1.
Proof. unfold sort_members. by rewrite foldr_app. Qed.

(** Whatever the order of the identifying-property names, the loop over
    the subjects appends the same entries and reports the same errors. *)
Lemma jsonld_context_from_perm g idnames1 idnames2 :
  NoDup idnames1 → NoDup idnames2 →
  ∃ tail errs,
    jsonld_context_from idnames1 g
    = {| terms := [(KStr "spdx", VStr URI_BASE); (KStr "type", VStr "@type")]
                  ++ id_terms idnames1 ++ tail;
         errors := errs |}
    ∧ jsonld_context_from idnames2 g
      = {| terms := [(KStr "spdx", VStr URI_BASE); (KStr "type", VStr "@type")]
                    ++ id_terms idnames2 ++ tail;
           errors := errs |}
    ∧ ∀ o, dict_get (KTerm o) tail = None.
Proof.
  intros Hnodup1 Hnodup2. unfold jsonld_context_from.
  rewrite !seed_terms_fresh by done.
  set (base := [(KStr "spdx", VStr URI_BASE); (KStr "type", VStr "@type")]).
  destruct (fold_context_ext g (has_named_individuals g) (sorted_subjects g)
              (base ++ id_terms idnames1) (base ++ id_terms idnames2) [] [])
    as (tail & errs & H1 & H2 & Htail).
  { intros k. rewrite !dict_get_app, !dict_get_id_terms_plain. done. }
  rewrite !app_nil_r in H1, H2. rewrite <- !app_assoc in H1, H2.
  by exists tail, errs.
Qed.

(** The builder files identifying-property names as plain literals. *)
Lemma gen_rdf_ontology_idnames fuel model st o :
  gen_rdf_ontology fuel model = Ok st →
  o ∈ objects (graph st) SPDXS.idPropertyName →
  ∃ s, o = Literal s None.
Proof.
  intros Hrun Ho. apply elem_of_objects in Ho as (s & Hin).
  apply (gen_rdf_ontology_emitted model fuel st _ Hrun) in Hin.
  inversion Hin as [| |fq' c t Hc Ht|fq' p' n t Hp' Hn Hid Ht
                    |fq' v t Hv Ht|fq' i t Hi Ht]; subst;
    try iri_discriminate.
  - destruct Ht as [Ht|(b & pn & r & prop & n & _ & _ & _ & _ & _ & Ht)];
      inversion Ht; subst; try iri_discriminate. by eexists.
  - inversion Ht; subst; iri_discriminate.
  - inversion Ht; subst; iri_discriminate.
  - inversion Ht; subst; iri_discriminate.
Qed.

(** Claim C7. On the graph of a run of the builder the context does not
    depend on the order in which Python iterates the set of
    identifying-property names: whatever that order, the text written
    with sorted keys is the same, and so are the diagnostics and the
    table as a mapping from keys to terms. *)
Theorem context_is_deterministic fuel model st idnames :
  gen_rdf_ontology fuel model = Ok st →
  idnames ≡ₚ remove_dups (objects (graph st) SPDXS.idPropertyName) →
  context_jsonld (jsonld_context_from idnames (graph st))
  = context_jsonld (jsonld_context (graph st))
  ∧ errors (jsonld_context_from idnames (graph st))
    = errors (jsonld_context (graph st))
  ∧ ∀ k, dict_get k (terms (jsonld_context_from idnames (graph st)))
         = dict_get k (terms (jsonld_context (graph st))).
Proof.
  intros Hrun Hperm. unfold jsonld_context.
  set (g := graph st) in *.
  set (ids := remove_dups (objects g SPDXS.idPropertyName)) in *.
  assert (NoDup ids) as Hnodup by apply NoDup_remove_dups.
  assert (NoDup idnames) as Hnodup' by (by rewrite Hperm).
  destruct (jsonld_context_from_perm g idnames ids Hnodup' Hnodup)
    as (tail & errs & -> & -> & Htail).
  split; [|split; [done|]].
  - unfold context_jsonld. f_equal. rewrite !sort_keys_context_json. cbn [terms].
    apply (f_equal (λ ms, JObject [("@context", JObject ms)])).
    rewrite !fmap_app, !sort_members_app. f_equal.
    apply foldr_insert_member_perm.
    + unfold id_terms. by rewrite Hperm.
    + unfold id_terms. rewrite <- !list_fmap_compose.
      apply NoDup_fmap_2_strong; [|done].
      intros o1 o2 Ho1 Ho2 Htext. simpl in Htext.
      rewrite Hperm in Ho1, Ho2. unfold ids in Ho1, Ho2.
      apply (proj1 (elem_of_remove_dups _ _)) in Ho1.
      apply (proj1 (elem_of_remove_dups _ _)) in Ho2.
      destruct (gen_rdf_ontology_idnames fuel model st o1 Hrun Ho1) as [s1 ->].
      destruct (gen_rdf_ontology_idnames fuel model st o2 Hrun Ho2) as [s2 ->].
      simpl in Htext. by subst.
  - intros k. cbn [terms]. rewrite !dict_get_app.
    destruct k as [k|o].
    + by rewrite !dict_get_id_terms_plain.
    + rewrite !dict_get_id_terms.
      destruct (decide (o ∈ idnames)) as [Hin|Hin].
      * rewrite decide_True; [done|]. by rewrite <- Hperm.
      * rewrite decide_False; [done|]. by rewrite <- Hperm.
Qed.

(** ** The scenarios *)




Lemma two_ids_chain :
  chain Scenario.model_two_ids Scenario.thing [Scenario.thing].
Proof. apply chain_root. reflexivity. Qed.

Lemma two_ids_resolve :
  Forall (properties_resolve Scenario.model_two_ids) [Scenario.thing].
Proof.
  repeat constructor.
  - exists Scenario.first_id. split; [reflexivity|]. by eexists.
  - exists Scenario.second_id. split; [reflexivity|]. by eexists.
Qed.

Lemma last_id_property_wins_witness :
  ∃ referenceable,
    inheritance_walk 1 Scenario.model_two_ids Scenario.thing
    = Ok (referenceable, Some "build_second").
Proof.
  apply (last_id_property_wins Scenario.model_two_ids Scenario.thing
           [Scenario.thing] [] Scenario.thing []
           "/Core/first" Scenario.first_id [] "/Build/second" Scenario.second_id 1
           two_ids_chain two_ids_resolve);
    [reflexivity|constructor|reflexivity|simpl; lia].
Defined.

Lemma scenario_A_person_parent :
  get_parent Scenario.person Scenario.model_A = Ok (Some Scenario.agent).
Proof. reflexivity. Qed.

Lemma scenario_A_agent_parent :
  get_parent Scenario.agent Scenario.model_A = Ok None.
Proof. reflexivity. Qed.

Lemma scenario_A_reach a :
  rtc (parent_of Scenario.model_A) Scenario.person a →
  a = Scenario.person ∨ a = Scenario.agent.
Proof.
  intros Hreach. apply rtc_list in Hreach as (l & Hhd & Hlast & Hl).
  assert (∀ x y, parent_of Scenario.model_A x y →
                 x = Scenario.person ∨ x = Scenario.agent →
                 x = Scenario.person ∧ y = Scenario.agent) as Hstep.
  { intros x y Hxy [-> | ->]; unfold parent_of in Hxy.
    - rewrite scenario_A_person_parent in Hxy. split; congruence.
    - by rewrite scenario_A_agent_parent in Hxy. }
  assert (∀ i x, l !! i = Some x → x = Scenario.person ∨ x = Scenario.agent)
    as Hall.
  { induction i as [|i IH]; intros x Hx.
    - left. destruct l; simpl in *; congruence.
    - assert (is_Some (l !! i)) as [y Hy].
      { apply lookup_lt_is_Some. apply lookup_lt_Some in Hx. lia. }
      destruct (Hstep y x (Hl i y x Hy Hx) (IH y Hy)) as [_ ->]. by right. }
  destruct (last l) as [x|] eqn:Hx; [|done]. injection Hlast as ->.
  rewrite last_lookup in Hx. by eapply Hall.
Qed.

Lemma scenario_A_acyclic a :
  rtc (parent_of Scenario.model_A) Scenario.person a →
  ¬ tc (parent_of Scenario.model_A) a a.
Proof.
  assert (∀ y, ¬ parent_of Scenario.model_A Scenario.agent y) as Hroot.
  { intros y Hy. unfold parent_of in Hy.
    by rewrite scenario_A_agent_parent in Hy. }
  assert (∀ y, parent_of Scenario.model_A Scenario.person y → y = Scenario.agent)
    as Hperson.
  { intros y Hy. unfold parent_of in Hy.
    rewrite scenario_A_person_parent in Hy. congruence. }
  assert (∀ y, ¬ tc (parent_of Scenario.model_A) Scenario.agent y) as Hroot'.
  { intros y Hy. destruct Hy as [? ? Hy|? ? ? Hy _]; by apply Hroot in Hy. }
  intros [-> | ->]%scenario_A_reach Hcycle.
  - inversion Hcycle as [? ? Hy|? y ? Hy Htc]; subst.
    + apply Hperson in Hy. discriminate Hy.
    + apply Hperson in Hy as ->. by apply Hroot' in Htc.
  - by apply Hroot' in Hcycle.
Qed.

Lemma scenario_A_parents_exist a :
  rtc (parent_of Scenario.model_A) Scenario.person a →
  is_Ok (get_parent a Scenario.model_A).
Proof. intros [-> | ->]%scenario_A_reach; by eexists. Qed.

Lemma walk_terminates_witness :
  ∃ l, chain Scenario.model_A Scenario.person l
       ∧ walk (length l) Scenario.model_A Scenario.person None None ≠ OutOfFuel.
Proof.
  destruct (walk_terminates Scenario.model_A Scenario.person
              scenario_A_acyclic scenario_A_parents_exist)
    as (l & root & Hchain & _ & _ & _ & _ & Hfuel & _).
  exists l. split; [exact Hchain|].
  exact (proj1 (Hfuel (length l) None None (le_n _))).
Defined.

Lemma model_B_distinct_iris : distinct_iris Scenario.model_B.
Proof. apply (bool_decide_unpack _). vm_compute. exact I. Qed.

(** Claim C2, as the specification states it, fails for a class whose only
    declared property is identifying: [Core/Agent] of scenario A is
    marked as a node shape although it has no property shape. *)
Lemma node_shape_without_property_shape :
  ∃ st,
    gen_rdf_ontology 2 Scenario.model_A = Ok st
    ∧ shape_entries Scenario.model_A (c_properties Scenario.agent) = []
    ∧ (URIRef (c_iri Scenario.agent), RDF.type, Res SH.NodeShape) ∈ graph st
    ∧ ∀ o, (URIRef (c_iri Scenario.agent), SH.property, o) ∉ graph st.
Proof.
  eexists. split; [vm_compute; reflexivity|]. split; [reflexivity|]. split.
  - apply list_elem_of_In. simpl. auto 10.
  - intros o Hin. apply list_elem_of_In in Hin. simpl in Hin.
    repeat (destruct Hin as [Hin|Hin]; [discriminate Hin|]). done.
Qed.

Lemma class_node_shape_witness :
  ∃ st,
    gen_rdf_ontology 2 Scenario.model_B = Ok st
    ∧ ((URIRef (c_iri Scenario.agent_B), RDF.type, Res SH.NodeShape) ∈ graph st ↔
       c_properties Scenario.agent_B ≠ [])
    ∧ ∃ b0,
        (∀ o, (URIRef (c_iri Scenario.agent_B), SH.property, o) ∈ graph st ↔
              ∃ k, k < length (shape_entries Scenario.model_B
                                 (c_properties Scenario.agent_B))
                   ∧ o = Res (BNode (b0 + k)))
        ∧ (∀ k r prop,
             shape_entries Scenario.model_B (c_properties Scenario.agent_B) !! k
             = Some (r, prop) →
             ∀ o, (BNode (b0 + k), SH.path, o) ∈ graph st ↔
                  o = Res (URIRef (p_iri prop))).
Proof.
  eexists. split; [vm_compute; reflexivity|].
  apply (class_node_shape Scenario.model_B 2 _ "/Core/Agent" Scenario.agent_B);
    [vm_compute; reflexivity|left|exact model_B_distinct_iris].
Defined.

(** Claim C3, as the specification states it, fails when an individual
    has the IRI of an identifying property: scenario A with an
    individual [Core/name] has a range statement on the node of the
    identifying property [Core/name], the one of the individual. *)
Lemma id_property_node_gets_a_range :
  ∃ st,
    gen_rdf_ontology 2 Scenario.model_shared_iri = Ok st
    ∧ ("/Core/name", Scenario.name) ∈ properties Scenario.model_shared_iri
    ∧ p_metadata Scenario.name !! "Nature" = Some "IdProperty"
    ∧ (URIRef (p_iri Scenario.name), RDFS.range,
       Res (URIRef (c_iri Scenario.agent))) ∈ graph st.
Proof.
  eexists. split; [vm_compute; reflexivity|]. split; [left|].
  split; [reflexivity|]. apply list_elem_of_In. simpl. auto 20.
Qed.

Lemma id_property_not_declared_witness :
  ∃ st,
    gen_rdf_ontology 2 Scenario.model_B = Ok st
    ∧ ((URIRef (p_iri Scenario.name), RDF.type, Res RDF.Property) ∉ graph st)
    ∧ (∀ o, (URIRef (p_iri Scenario.name), RDFS.range, o) ∉ graph st)
    ∧ (∀ s, (s, SH.path, Res (URIRef (p_iri Scenario.name))) ∉ graph st).
Proof.
  assert (∃ st, gen_rdf_ontology 2 Scenario.model_B = Ok st) as [st Hrun]
    by (eexists; vm_compute; reflexivity).
  exists st. split; [exact Hrun|].
  destruct (id_property_not_declared 2 Scenario.model_B st "/Core/name"
              Scenario.name)
    as (Hproperty & _ & _ & Hrange & Hpath);
    [exact Hrun|left|reflexivity|..].
  - intros fq' p' Hin Hiri. apply list_elem_of_In in Hin. simpl in Hin.
    destruct Hin as [[= <- <-]|[[= <- <-]|[[= <- <-]|[[= <- <-]|[]]]]];
      (reflexivity || discriminate Hiri).
  - intros fq' v e d Hv He Hiri. apply list_elem_of_In in Hv. simpl in Hv.
    destruct Hv as [[= <- <-]|[]]. apply list_elem_of_In in He. simpl in He.
    destruct He as [[= <- <-]|[[= <- <-]|[]]]; discriminate Hiri.
  - intros fq' i Hi Hiri. apply list_elem_of_In in Hi. simpl in Hi.
    destruct Hi as [[= <- <-]|[]]. discriminate Hiri.
  - split; [exact Hproperty|]. split; [exact Hrange|exact Hpath].
Defined.

Lemma shape_cardinalities_witness :
  ∃ st,
    gen_rdf_ontology 2 Scenario.model_B = Ok st
    ∧ (URIRef (c_iri Scenario.agent_B), SH.property, Res (BNode 1)) ∈ graph st
    ∧ (BNode 1, SH.path, Res (URIRef (p_iri Scenario.status_of))) ∈ graph st
    ∧ (∀ o, (BNode 1, SH.minCount, o) ∈ graph st ↔ o = IntLiteral 1)
    ∧ (∀ o, (BNode 1, SH.maxCount, o) ∈ graph st ↔ o = IntLiteral 2).
Proof.
  eexists. split; [vm_compute; reflexivity|].
  match goal with
  | |- ?t ∈ graph ?st ∧ _ =>
      assert (t ∈ graph st) as Hin
        by (apply list_elem_of_In; simpl; auto 20);
      destruct (shape_cardinalities Scenario.model_B 2 st
                  (URIRef (c_iri Scenario.agent_B)) 1) as
        (fq & c & pn & r & prop & Hc & Hx & Hr & Hprop & Hpath & _ & _ & _
         & Hmin & Hmax); [vm_compute; reflexivity|exact Hin|]
  end.
  split; [exact Hin|].
  assert (r = {| fqname := "/Core/status"; minCount := "1"; maxCount := "2" |}
          ∧ prop = Scenario.status_of) as [-> ->].
  { apply list_elem_of_In in Hc. simpl in Hc.
    destruct Hc as [[= <- <-]|[[= <- <-]|[]]];
      apply list_elem_of_In in Hr; simpl in Hr.
    - destruct Hr as [[= <- <-]|[[= <- <-]|[[= <- <-]|[]]]];
        injection Hprop as <-; try done;
        apply list_elem_of_In in Hpath; simpl in Hpath;
        repeat (destruct Hpath as [Hpath|Hpath]; [discriminate Hpath|]);
        done.
    - discriminate Hx. }
  split; [exact Hpath|]. split.
  - intros o. rewrite (Hmin 1%Z eq_refl). split; [by intros [_ ->]|done].
  - exact (Hmax 2%Z eq_refl).
Defined.

Lemma colliding_keys_witness :
  URIRef "https://rdf.spdx.org/v3/A/b" ≠ URIRef "https://rdf.spdx.org/v3/Core/a_b"
  ∧ dict_get (KStr "a_b") (terms (jsonld_context Scenario.colliding))
    = Some (VNode (URIRef "https://rdf.spdx.org/v3/A/b"))
  ∧ key_entries "a_b" (terms (jsonld_context Scenario.colliding))
    = [(KStr "a_b", VNode (URIRef "https://rdf.spdx.org/v3/A/b"))]
  ∧ duplicate_reports "a_b" (errors (jsonld_context Scenario.colliding))
    = [("https://rdf.spdx.org/v3/Core/a_b", "https://rdf.spdx.org/v3/A/b")].
Proof.
  apply (colliding_keys Scenario.colliding
           (remove_dups (objects Scenario.colliding SPDXS.idPropertyName)) "a_b"
           (URIRef "https://rdf.spdx.org/v3/A/b")
           (URIRef "https://rdf.spdx.org/v3/Core/a_b") []).
  vm_compute. reflexivity.
Defined.

Lemma context_is_deterministic_witness :
  ∃ st,
    gen_rdf_ontology 2 Scenario.model_B = Ok st
    ∧ context_jsonld
        (jsonld_context_from
           [Literal "build_toolId" None; Literal "name" None] (graph st))
      = context_jsonld (jsonld_context (graph st)).
Proof.
  eexists. split; [vm_compute; reflexivity|].
  refine (proj1 (context_is_deterministic 2 Scenario.model_B _ _ _ _));
    [vm_compute; reflexivity|].
  vm_compute. apply perm_swap.
Defined.



#[local] Set Warnings "-clear-no-such-hyp".
(** * Further properties of the builder *)

(** ** Whose statements are whose *)

(** Constants of the vocabularies are told apart in the goal as well. *)
Ltac iri_unfold :=
  cbv delta [RDF.type RDF.Property RDFS.Class RDFS.comment
             RDFS.subClassOf RDFS.range RDFS.label OWL.Ontology
             OWL.versionIRI OWL.Class OWL.ObjectProperty
             OWL.DatatypeProperty OWL.NamedIndividual OWL.sameAs
             SH.NodeShape SH.property SH.path SH.class SH.pattern
             SH.datatype SH.minCount SH.maxCount
             SPDXS.referenceable SPDXS.idPropertyName] in *.

(** A disjunction of cases is proved by the case at hand, and used case
    by case. *)
Ltac pick :=
  lazymatch goal with
  | |- _ ∨ _ => first [left; pick | right; pick]
  | |- _ ∧ _ => split; pick
  | |- ∃ _, _ => eexists; pick
  | |- _ => first [done | congruence]
  end.

Ltac crack :=
  repeat match goal with
  | H : _ ∨ _ |- _ => destruct H as [H|H]
  | H : _ ∧ _ |- _ => destruct H as [? ?]
  | H : ∃ _, _ |- _ => destruct H as [? ?]
  end; simplify_eq.

(** A loop leaves alone what none of its bodies adds. *)
Lemma for_each_frame {A} (body : A → state → outcome state)
    (Q : A → triple → Prop) l st st' :
  (∀ x s s', x ∈ l → body x s = Ok s' → step_adds (Q x) s s') →
  for_each body l st = Ok st' →
  bnodes st ≤ bnodes st'
  ∧ ∀ t, (∀ x, x ∈ l → ¬ Q x t) → (t ∈ graph st' ↔ t ∈ graph st).
Proof.
  intros Hbody Hrun.
  destruct (for_each_step_adds body (λ x _, Q x) l st st')
    as (Hb & Hmono & Hadds); [done|done|done|].
  split; [done|]. intros t Ht. split; [|apply Hmono].
  intros Hin. destruct (Hadds t Hin) as [?|(x & Hx & HQ)]; [done|].
  by destruct (Ht x Hx).
Qed.

Lemma NoDup_app5 {A} (l1 l2 l3 l4 l5 : list A) :
  NoDup (l1 ++ l2 ++ l3 ++ l4 ++ l5) →
  (NoDup l1 ∧ NoDup l2 ∧ NoDup l3 ∧ NoDup l4 ∧ NoDup l5)
  ∧ (∀ x, x ∈ l1 → (x ∉ l2) ∧ (x ∉ l3) ∧ (x ∉ l4) ∧ (x ∉ l5))
  ∧ (∀ x, x ∈ l2 → (x ∉ l3) ∧ (x ∉ l4) ∧ (x ∉ l5))
  ∧ (∀ x, x ∈ l3 → (x ∉ l4) ∧ (x ∉ l5))
  ∧ (∀ x, x ∈ l4 → (x ∉ l5)).
Proof.
  intros H.
  apply NoDup_app in H as (H1 & H1' & H).
  apply NoDup_app in H as (H2 & H2' & H).
  apply NoDup_app in H as (H3 & H3' & H).
  apply NoDup_app in H as (H4 & H4' & H5).
  split; [done|]. split; [|split; [|split]].
  - intros x Hx. specialize (H1' x Hx). rewrite !elem_of_app in H1'. tauto.
  - intros x Hx. specialize (H2' x Hx). rewrite !elem_of_app in H2'. tauto.
  - intros x Hx. specialize (H3' x Hx). rewrite !elem_of_app in H3'. tauto.
  - done.
Qed.

Lemma class_emits_subject model lo c t :
  class_emits model lo c t →
  t.1.1 = URIRef (c_iri c) ∨ ∃ b, lo ≤ b ∧ t.1.1 = BNode b.
Proof.
  intros [Ht|(b & pn & r & prop & n & Hb & _ & _ & _ & _ & Ht)].
  - left. by destruct Ht.
  - destruct Ht; eauto.
Qed.

Lemma property_emits_subject p t : property_emits p t → t.1.1 = URIRef (p_iri p).
Proof. by destruct 1. Qed.

Lemma vocabulary_emits_subject v t :
  vocabulary_emits v t →
  t.1.1 = URIRef (v_iri v) ∨ ∃ i, i ∈ entry_iris v ∧ t.1.1 = URIRef i.
Proof.
  assert (∀ e d, (e, d) ∈ v_entries v → v_iri v +:+ "/" +:+ e ∈ entry_iris v)
    as Hentry.
  { intros e d He. unfold entry_iris.
    by apply (list_elem_of_fmap_2 (λ e : string * string, _ +:+ "/" +:+ e.1)
                _ (e, d)). }
  destruct 1; eauto.
Qed.

Lemma individual_emits_subject i t :
  individual_emits i t → t.1.1 = URIRef (i_iri i).
Proof. by destruct 1. Qed.

Section owners.
Context (model : Model) (Hdistinct : distinct_iris model).

Lemma elem_of_entry_iris fq v i :
  (fq, v) ∈ vocabularies model → i ∈ entry_iris v →
  i ∈ flat_map (λ e, entry_iris e.2) (vocabularies model).
Proof.
  intros Hv Hi. apply list_elem_of_In, in_flat_map.
  exists (fq, v). split; by apply list_elem_of_In.
Qed.

(** What the visits of the other entities say is not about [i], when
    [i] is the IRI of one entity only. *)
Lemma classes_not_about fuel (l : list (string * Class)) i st st' :
  (∀ e, e ∈ l → c_iri e.2 ≠ i) →
  for_each (gen_class fuel model) l st = Ok st' →
  ∀ p o, (URIRef i, p, o) ∈ graph st' ↔ (URIRef i, p, o) ∈ graph st.
Proof.
  intros Hl Hrun p o.
  eapply (for_each_frame _ (λ e t, ∃ lo, class_emits model lo e.2 t));
    [|exact Hrun|].
  - intros e s s' _ Hbody. eapply step_adds_weaken; [|by eapply gen_class_adds].
    intros t Ht. eauto.
  - intros e He (lo & Ht). apply class_emits_subject in Ht as [Ht|(b & _ & Ht)].
    + injection Ht as Ht. by apply (Hl e).
    + done.
Qed.

Lemma properties_not_about (l : list (string * Property)) i st st' :
  (∀ e, e ∈ l → p_iri e.2 ≠ i) →
  for_each (gen_property model) l st = Ok st' →
  ∀ p o, (URIRef i, p, o) ∈ graph st' ↔ (URIRef i, p, o) ∈ graph st.
Proof.
  intros Hl Hrun p o.
  eapply (for_each_frame _ (λ e t, property_emits e.2 t)); [|exact Hrun|].
  - intros e s s' _ Hbody.
    destruct (gen_property_adds model e s s' Hbody)
      as [->|(n & _ & _ & Hadds & _)]; [apply step_adds_refl|done].
  - intros e He Ht. apply property_emits_subject in Ht.
    injection Ht as Ht. by apply (Hl e).
Qed.

Lemma vocabularies_not_about (l : list (string * Vocabulary)) i st st' :
  (∀ e, e ∈ l → v_iri e.2 ≠ i ∧ i ∉ entry_iris e.2) →
  for_each gen_vocabulary l st = Ok st' →
  ∀ p o, (URIRef i, p, o) ∈ graph st' ↔ (URIRef i, p, o) ∈ graph st.
Proof.
  intros Hl Hrun p o.
  eapply (for_each_frame _ (λ e t, vocabulary_emits e.2 t)); [|exact Hrun|].
  - intros e s s' _ Hbody. by apply gen_vocabulary_adds.
  - intros e He Ht. destruct (Hl e He) as [Hv Hes].
    apply vocabulary_emits_subject in Ht as [Ht|(i' & Hi' & Ht)];
      injection Ht as Ht; congruence.
Qed.

Lemma individuals_not_about (l : list (string * Individual)) i st st' :
  (∀ e, e ∈ l → i_iri e.2 ≠ i) →
  for_each (gen_individual model) l st = Ok st' →
  ∀ p o, (URIRef i, p, o) ∈ graph st' ↔ (URIRef i, p, o) ∈ graph st.
Proof.
  intros Hl Hrun p o.
  eapply (for_each_frame _ (λ e t, individual_emits e.2 t)); [|exact Hrun|].
  - intros e s s' _ Hbody. by apply (gen_individual_adds model).
  - intros e He Ht. apply individual_emits_subject in Ht.
    injection Ht as Ht. by apply (Hl e).
Qed.

(** The other elements of a list without duplicates. *)
Lemma NoDup_fmap_split {A} (f : A → string) (l1 l2 : list A) x :
  NoDup (f <$> l1 ++ x :: l2) → ∀ y, y ∈ l1 ++ l2 → f y ≠ f x.
Proof.
  rewrite fmap_app, fmap_cons. intros Hnd y Hy Heq.
  apply NoDup_app in Hnd as (_ & Hl1 & Hl2).
  apply NoDup_cons in Hl2 as [Hl2 _].
  apply elem_of_app in Hy as [Hy|Hy].
  - apply (Hl1 (f y)); [by apply list_elem_of_fmap_2|]. rewrite Heq. left.
  - apply Hl2. rewrite <- Heq. by apply list_elem_of_fmap_2.
Qed.

(** The statements about a class are those of its own visit. *)
Lemma class_visit_isolated fuel st fq c :
  gen_rdf_ontology fuel model = Ok st → (fq, c) ∈ classes model →
  ∃ s1 s2,
    gen_class fuel model (fq, c) s1 = Ok s2
    ∧ ∀ p o,
        ((URIRef (c_iri c), p, o) ∈ graph s1 ↔
         (URIRef (c_iri c), p, o) ∈ graph ontology_header)
        ∧ ((URIRef (c_iri c), p, o) ∈ graph st ↔
           (URIRef (c_iri c), p, o) ∈ graph s2).
Proof.
  intros Hrun Hc.
  destruct (NoDup_app5 _ _ _ _ _ Hdistinct)
    as ((Hcs & _) & Hc' & _).
  destruct (gen_rdf_ontology_passes model fuel st Hrun)
    as (st1 & st2 & st3 & H1 & H2 & H3 & H4).
  pose proof Hc as Hsplit.
  apply list_elem_of_split in Hsplit as (l1 & l2 & Hl).
  rewrite Hl in H1, Hcs.
  apply for_each_app in H1 as (s1 & Hl1 & H1).
  apply for_each_cons in H1 as (s2 & Hbody & Hl2).
  pose proof (NoDup_fmap_split (λ e, c_iri e.2) l1 l2 (fq, c) Hcs) as Hother.
  assert (c_iri c ∈ (λ e, c_iri e.2) <$> classes model) as Hin
    by (by apply (list_elem_of_fmap_2 (λ e, c_iri e.2) _ (fq, c))).
  destruct (Hc' _ Hin) as (Hps & Hvs & Hes & His).
  exists s1, s2. split; [done|]. intros p o. split.
  - apply (classes_not_about fuel l1); [|done].
    intros e He. apply Hother, elem_of_app. by left.
  - rewrite (individuals_not_about (individuals model) (c_iri c) st3 st); [|
      |exact H4].
    2:{ intros e He Heq. apply His. rewrite <- Heq.
        by apply (list_elem_of_fmap_2 (λ e, i_iri e.2)). }
    rewrite (vocabularies_not_about (vocabularies model) (c_iri c) st2 st3); [| |exact H3].
    2:{ intros [fqv v] He. split.
        - intros Heq. apply Hvs. rewrite <- Heq.
          by apply (list_elem_of_fmap_2 (λ e, v_iri e.2) _ (fqv, v)).
        - intros Hi. apply Hes. by eapply elem_of_entry_iris. }
    rewrite (properties_not_about (properties model) (c_iri c) st1 st2); [| |exact H2].
    2:{ intros e He Heq. apply Hps. rewrite <- Heq.
        by apply (list_elem_of_fmap_2 (λ e, p_iri e.2)). }
    apply (classes_not_about fuel l2); [|done].
    intros e He. apply Hother, elem_of_app. by right.
Qed.

(** The statements about a property are those of its own visit. *)
Lemma property_visit_isolated fuel st fq p :
  gen_rdf_ontology fuel model = Ok st → (fq, p) ∈ properties model →
  ∃ s1 s2,
    gen_property model (fq, p) s1 = Ok s2
    ∧ ∀ pr o,
        ((URIRef (p_iri p), pr, o) ∈ graph s1 ↔
         (URIRef (p_iri p), pr, o) ∈ graph ontology_header)
        ∧ ((URIRef (p_iri p), pr, o) ∈ graph st ↔
           (URIRef (p_iri p), pr, o) ∈ graph s2).
Proof.
  intros Hrun Hp.
  destruct (NoDup_app5 _ _ _ _ _ Hdistinct)
    as ((_ & Hps & _) & Hc' & Hp' & _).
  destruct (gen_rdf_ontology_passes model fuel st Hrun)
    as (st1 & st2 & st3 & H1 & H2 & H3 & H4).
  pose proof Hp as Hsplit.
  apply list_elem_of_split in Hsplit as (l1 & l2 & Hl).
  rewrite Hl in H2, Hps.
  apply for_each_app in H2 as (s1 & Hl1 & H2).
  apply for_each_cons in H2 as (s2 & Hbody & Hl2).
  pose proof (NoDup_fmap_split (λ e, p_iri e.2) l1 l2 (fq, p) Hps) as Hother.
  assert (p_iri p ∈ (λ e, p_iri e.2) <$> properties model) as Hin
    by (by apply (list_elem_of_fmap_2 (λ e, p_iri e.2) _ (fq, p))).
  destruct (Hp' _ Hin) as (Hvs & Hes & His).
  exists s1, s2. split; [done|]. intros pr o. split.
  - rewrite (properties_not_about l1 (p_iri p) st1 s1); [| |exact Hl1].
    2:{ intros e He. apply Hother, elem_of_app. by left. }
    apply (classes_not_about fuel (classes model)); [|done].
    intros e He Heq.
    destruct (Hc' (c_iri e.2)) as (Hps' & _);
      [by apply (list_elem_of_fmap_2 (λ e, c_iri e.2))|].
    apply Hps'. by rewrite Heq.
  - rewrite (individuals_not_about (individuals model) (p_iri p) st3 st); [| |exact H4].
    2:{ intros e He Heq. apply His. rewrite <- Heq.
        by apply (list_elem_of_fmap_2 (λ e, i_iri e.2)). }
    rewrite (vocabularies_not_about (vocabularies model) (p_iri p) st2 st3); [| |exact H3].
    2:{ intros [fqv v] He. split.
        - intros Heq. apply Hvs. rewrite <- Heq.
          by apply (list_elem_of_fmap_2 (λ e, v_iri e.2) _ (fqv, v)).
        - intros Hi. apply Hes. by eapply elem_of_entry_iris. }
    apply (properties_not_about l2); [|done].
    intros e He. apply Hother, elem_of_app. by right.
Qed.

End owners.

(** ** The statements about a class *)

Section class_visit.
Context (model : Model).

(** The shapes of a class say only [sh:property] about an IRI. *)
Lemma gen_shapes_keep cnode props st st' i p o :
  for_each (gen_shape model cnode) props st = Ok st' → p ≠ SH.property →
  (URIRef i, p, o) ∈ graph st' ↔ (URIRef i, p, o) ∈ graph st.
Proof.
  intros Hrun Hp.
  destruct (gen_shapes_frame model _ _ _ _ Hrun) as (_ & Hmono & Hadds).
  split; [|apply Hmono].
  intros Hin. destruct (Hadds _ Hin) as [?|(b & r & prop & _ & Hnew)]; [done|].
  inversion Hnew; subst. done.
Qed.

(** What the visit of a class says about the class, its shapes apart. *)
Lemma gen_class_exact fuel e st st' :
  gen_class fuel model e st = Ok st' →
  ∃ parent found,
    get_parent e.2 model = Ok parent
    ∧ inheritance_walk fuel model e.2 = Ok found
    ∧ ∀ p o, p ≠ SH.property →
        ((URIRef (c_iri e.2), p, o) ∈ graph st' ↔
         (URIRef (c_iri e.2), p, o) ∈ graph st
         ∨ (p = RDF.type
            ∧ (o = Res RDFS.Class ∨ o = Res OWL.Class
               ∨ (c_properties e.2 ≠ [] ∧ o = Res SH.NodeShape)))
         ∨ (p = RDFS.comment ∧ truthy (c_summary e.2) = true
            ∧ o = Literal (default EmptyString (c_summary e.2)) (Some "en"))
         ∨ (p = RDFS.subClassOf
            ∧ ∃ pc, parent = Some pc ∧ o = Res (URIRef (c_iri pc)))
         ∨ (p = SPDXS.referenceable ∧ o = Literal found.1 None)
         ∨ (p = SPDXS.idPropertyName
            ∧ ∃ id, found.2 = Some id ∧ o = Literal id None)).
Proof.
  unfold gen_class. intros Hrun.
  apply bind_Ok in Hrun as (parent & Hparent & Hrun).
  apply bind_Ok in Hrun as (found & Hfound & Hrun).
  exists parent, found. split; [done|]. split; [done|].
  intros p o Hp. clear Hparent Hfound.
  destruct (c_properties e.2) as [|pe props] eqn:Hprops.
  - injection Hrun as <-.
    destruct (truthy (c_summary e.2)), parent as [pc|], (found.2) as [id|];
      rewrite !elem_of_add; (split; intros H; crack; pick).
  - rewrite (gen_shapes_keep _ _ _ _ _ _ _ Hrun Hp). clear Hrun.
    destruct (truthy (c_summary e.2)), parent as [pc|], (found.2) as [id|];
      rewrite !elem_of_add; (split; intros H; crack; pick).
Qed.

End class_visit.

Lemma header_not_about i p o :
  p ≠ RDF.type → p ≠ OWL.versionIRI →
  (URIRef i, p, o) ∉ graph ontology_header.
Proof.
  intros Hp1 Hp2 Hin.
  destruct (elem_of_ontology_header _ Hin) as [[= _ ? _]|[= _ ? _]]; done.
Qed.

(** The visit of a class declares it, comments it when it has a summary
    and links it to its parent when it has one (lines 75-82): in a model
    whose entities have IRIs of their own, the class node is typed
    [rdfs:Class] and [owl:Class]; it has an [rdfs:comment] if and only if
    its summary is a non-empty text, and then that text in English and no
    other; its [rdfs:subClassOf] statements are exactly the one to the
    class that [get_parent] returns, none when it returns [None]. *)
Theorem class_declared fuel model st fq c :
  gen_rdf_ontology fuel model = Ok st →
  (fq, c) ∈ classes model →
  distinct_iris model →
  (URIRef (c_iri c), RDF.type, Res RDFS.Class) ∈ graph st
  ∧ (URIRef (c_iri c), RDF.type, Res OWL.Class) ∈ graph st
  ∧ (∀ o, (URIRef (c_iri c), RDFS.comment, o) ∈ graph st ↔
          ∃ s, c_summary c = Some s ∧ s ≠ EmptyString
               ∧ o = Literal s (Some "en"))
  ∧ (∀ o, (URIRef (c_iri c), RDFS.subClassOf, o) ∈ graph st ↔
          ∃ parent, get_parent c model = Ok (Some parent)
                    ∧ o = Res (URIRef (c_iri parent))).
Proof.
  intros Hrun Hc Hdistinct.
  destruct (class_visit_isolated model Hdistinct fuel st fq c Hrun Hc)
    as (s1 & s2 & Hvisit & Hiso).
  destruct (gen_class_exact model fuel _ s1 s2 Hvisit)
    as (parent & found & Hparent & _ & Hexact).
  simpl in Hparent, Hexact.
  assert (∀ p, p ≠ SH.property → p ≠ RDF.type → p ≠ OWL.versionIRI →
               ∀ o, (URIRef (c_iri c), p, o) ∈ graph s1 → False) as Hnone.
  { intros p _ Hp1 Hp2 o Hin. apply Hiso in Hin.
    by apply header_not_about in Hin. }
  split; [|split; [|split]].
  - apply Hiso, Hexact; [intros ?; iri_discriminate|]. right. left. auto.
  - apply Hiso, Hexact; [intros ?; iri_discriminate|]. right. left. auto.
  - intros o. rewrite (proj2 (Hiso _ _)), Hexact by (intros ?; iri_discriminate).
    split.
    + intros [Hin|[(? & _)|[(_ & Htruthy & ->)|[(? & _)|[(? & _)|(? & _)]]]]];
        try iri_discriminate.
      * exfalso. eapply (Hnone RDFS.comment); [..|exact Hin];
          intros ?; iri_discriminate.
      * destruct (c_summary c) as [[|a s]|]; try done.
        eexists. by split; [|split].
    + intros (s & -> & Hs & ->). right. right. left.
      split; [done|]. by destruct s.
  - intros o. rewrite (proj2 (Hiso _ _)), Hexact by (intros ?; iri_discriminate).
    split.
    + intros [Hin|[(? & _)|[(? & _)|[(_ & pc & -> & ->)|[(? & _)|(? & _)]]]]];
        try iri_discriminate.
      * exfalso. eapply (Hnone RDFS.subClassOf); [..|exact Hin];
          intros ?; iri_discriminate.
      * eauto.
    + intros (pc & Hpc & ->). do 3 right. left. split; [done|].
      exists pc. split; [congruence|done].
Qed.

(** What the inheritance walk resolves is what the graph records (lines
    102-106): in a model whose entities have IRIs of their own, the walk
    from a class of a successful run returns, the class node carries
    exactly one [spdxs:referenceable] statement, whose value is the
    resolved one, and it carries an [spdxs:idPropertyName] statement if
    and only if the walk found an identifying property, with its name. *)
Theorem walk_result_recorded fuel model st fq c :
  gen_rdf_ontology fuel model = Ok st →
  (fq, c) ∈ classes model →
  distinct_iris model →
  ∃ referenceable id_property,
    inheritance_walk fuel model c = Ok (referenceable, id_property)
    ∧ (∀ o, (URIRef (c_iri c), SPDXS.referenceable, o) ∈ graph st ↔
            o = Literal referenceable None)
    ∧ (∀ o, (URIRef (c_iri c), SPDXS.idPropertyName, o) ∈ graph st ↔
            ∃ id, id_property = Some id ∧ o = Literal id None).
Proof.
  intros Hrun Hc Hdistinct.
  destruct (class_visit_isolated model Hdistinct fuel st fq c Hrun Hc)
    as (s1 & s2 & Hvisit & Hiso).
  destruct (gen_class_exact model fuel _ s1 s2 Hvisit)
    as (parent & [referenceable id_property] & _ & Hfound & Hexact).
  simpl in Hfound, Hexact.
  assert (∀ p, p ≠ RDF.type → p ≠ OWL.versionIRI →
               ∀ o, (URIRef (c_iri c), p, o) ∈ graph s1 → False) as Hnone.
  { intros p Hp1 Hp2 o Hin. apply Hiso in Hin.
    by apply header_not_about in Hin. }
  exists referenceable, id_property. split; [done|]. split.
  - intros o. rewrite (proj2 (Hiso _ _)), Hexact by (intros ?; iri_discriminate).
    split.
    + intros [Hin|[(? & _)|[(? & _)|[(? & _)|[(_ & ->)|(? & _)]]]]];
        try iri_discriminate; [|done].
      exfalso. eapply (Hnone SPDXS.referenceable); [..|exact Hin];
        intros ?; iri_discriminate.
    + intros ->. do 4 right. left. done.
  - intros o. rewrite (proj2 (Hiso _ _)), Hexact by (intros ?; iri_discriminate).
    split.
    + intros [Hin|[(? & _)|[(? & _)|[(? & _)|[(? & _)|(_ & Hid)]]]]];
        try iri_discriminate; [|done].
      exfalso. eapply (Hnone SPDXS.idPropertyName); [..|exact Hin];
        intros ?; iri_discriminate.
    + intros Hid. do 5 right. done.
Qed.

(** ** The statements about a property *)

Lemma elem_of_add_xsd t s p rng propname st :
  t ∈ graph (add_xsd s p rng propname st) ↔
  t ∈ graph st
  ∨ (Py.startswith rng "xsd:" = true ∧ t = (s, p, Res (xsd_datatype rng))).
Proof.
  unfold add_xsd, xsd_range. destruct (Py.startswith rng "xsd:").
  - rewrite elem_of_add. unfold xsd_datatype. split; intros H; crack; pick.
  - simpl. split; intros H; crack; pick.
Qed.

(** What the visit of a property says. *)
Lemma gen_property_exact model e st st' :
  gen_property model e st = Ok st' →
  ∃ n,
    p_metadata e.2 !! "Nature" = Some n
    ∧ (n = "IdProperty" → st' = st)
    ∧ (n ≠ "IdProperty" →
       ∃ rng,
         p_metadata e.2 !! "Range" = Some rng
         ∧ ∀ t, t ∈ graph st' ↔
             t ∈ graph st
             ∨ t = (URIRef (p_iri e.2), RDF.type, Res RDF.Property)
             ∨ (truthy (p_summary e.2) = true
                ∧ t = (URIRef (p_iri e.2), RDFS.comment,
                       Literal (default EmptyString (p_summary e.2)) (Some "en")))
             ∨ (n = "ObjectProperty"
                ∧ t = (URIRef (p_iri e.2), RDF.type, Res OWL.ObjectProperty))
             ∨ (n = "DataProperty"
                ∧ t = (URIRef (p_iri e.2), RDF.type, Res OWL.DatatypeProperty))
             ∨ (∃ o, t = (URIRef (p_iri e.2), RDFS.range, o)
                  ∧ ((Py.contains ":" rng = true
                      ∧ Py.startswith rng "xsd:" = true
                      ∧ o = Res (xsd_datatype rng))
                     ∨ (Py.contains ":" rng = false
                        ∧ ∃ dt base,
                            datatypes model !! resolve_ref (ns_name (p_ns e.2)) rng
                            = Some dt
                            ∧ d_metadata dt !! "SubclassOf" = Some base
                            ∧ Py.startswith base "xsd:" = true
                            ∧ o = Res (xsd_datatype base))
                     ∨ (Py.contains ":" rng = false
                        ∧ datatypes model !! resolve_ref (ns_name (p_ns e.2)) rng
                          = None
                        ∧ ∃ dt,
                            types model !! resolve_ref (ns_name (p_ns e.2)) rng
                            = Some dt
                            ∧ o = Res (URIRef (entity_iri dt)))))).
Proof.
  unfold gen_property. intros Hrun.
  apply bind_Ok in Hrun as (n & Hn & Hrun). apply mgetitem_Ok in Hn.
  exists n. split; [done|].
  destruct (decide (n = "IdProperty")) as [Hid|Hid].
  { split; [|done]. intros _. by injection Hrun. }
  split; [done|]. intros _.
  apply bind_Ok in Hrun as (rng & Hrng & Hrun). apply mgetitem_Ok in Hrng.
  exists rng. split; [done|]. intros t.
  destruct (Py.contains ":" rng).
  { injection Hrun as <-. rewrite elem_of_add_xsd.
    destruct (truthy (p_summary e.2)), (decide (n = "ObjectProperty")),
      (decide (n = "DataProperty"));
      rewrite !elem_of_add; (split; intros H; crack; pick). }
  destruct (datatypes model !! _) as [dt|] eqn:Hdt.
  - apply bind_Ok in Hrun as (base & Hbase & [= <-]). apply mgetitem_Ok in Hbase.
    rewrite elem_of_add_xsd.
    destruct (truthy (p_summary e.2)), (decide (n = "ObjectProperty")),
      (decide (n = "DataProperty"));
      rewrite !elem_of_add; (split; intros H; crack; pick).
  - apply bind_Ok in Hrun as (dt & Htypes & [= <-]). apply mgetitem_Ok in Htypes.
    destruct (truthy (p_summary e.2)), (decide (n = "ObjectProperty")),
      (decide (n = "DataProperty"));
      rewrite !elem_of_add; (split; intros H; crack; pick).
Qed.

(** The visit of a property that is not identifying declares it (lines
    154-165): in a model whose entities have IRIs of their own, the types
    of the property node, the ontology type apart, are [rdf:Property],
    and [owl:ObjectProperty] or [owl:DatatypeProperty] when its [Nature]
    is [ObjectProperty] or [DataProperty], and no other; a property of
    any other nature is an [rdf:Property] only. It has an [rdfs:comment]
    if and only if its summary is a non-empty text. *)
Theorem property_declared fuel model st fq p n :
  gen_rdf_ontology fuel model = Ok st →
  (fq, p) ∈ properties model →
  p_metadata p !! "Nature" = Some n →
  n ≠ "IdProperty" →
  distinct_iris model →
  (∀ o, o ≠ Res OWL.Ontology →
        ((URIRef (p_iri p), RDF.type, o) ∈ graph st ↔
         o = Res RDF.Property
         ∨ (n = "ObjectProperty" ∧ o = Res OWL.ObjectProperty)
         ∨ (n = "DataProperty" ∧ o = Res OWL.DatatypeProperty)))
  ∧ (∀ o, (URIRef (p_iri p), RDFS.comment, o) ∈ graph st ↔
          ∃ s, p_summary p = Some s ∧ s ≠ EmptyString
               ∧ o = Literal s (Some "en")).
Proof.
  intros Hrun Hp Hn Hid Hdistinct.
  destruct (property_visit_isolated model Hdistinct fuel st fq p Hrun Hp)
    as (s1 & s2 & Hvisit & Hiso).
  destruct (gen_property_exact model _ s1 s2 Hvisit) as (n' & Hn' & _ & Hexact).
  simpl in Hn', Hexact. assert (n' = n) as -> by congruence.
  destruct (Hexact Hid) as (rng & _ & Hgraph). clear Hexact.
  split.
  - intros o Ho. rewrite (proj2 (Hiso _ _)), Hgraph. split.
    + intros H. crack; try iri_discriminate; try pick.
      apply Hiso in H.
      destruct (elem_of_ontology_header _ H) as [Heq|Heq];
        [by injection Heq as _ ->|iri_discriminate].
    + intros H. crack; pick.
  - intros o. rewrite (proj2 (Hiso _ _)), Hgraph. split.
    + intros H. crack; try iri_discriminate.
      * apply Hiso in H. apply header_not_about in H; [done|..];
          intros ?; iri_discriminate.
      * destruct (p_summary p) as [[|a s]|]; try done.
        eexists. by split; [|split].
    + intros (s & Hs & Hne & ->). rewrite Hs. right. right. left.
      split; [by destruct s|done].
Qed.

(** The range of a property that is not identifying (lines 166-180), in
    a model whose entities have IRIs of their own. A [Range] that holds
    a colon gives the XML-Schema datatype behind the prefix [xsd:], and
    no range statement without the prefix. Any other is resolved against
    the namespace of the property: when it names a datatype of the
    model, the range is the XML-Schema datatype that the datatype wraps
    (its [SubclassOf], if that starts with [xsd:]); otherwise it is the
    IRI of the entity that [model.types] holds under the name. The
    property node has no other range statement. *)
Theorem property_range fuel model st fq p n :
  gen_rdf_ontology fuel model = Ok st →
  (fq, p) ∈ properties model →
  p_metadata p !! "Nature" = Some n →
  n ≠ "IdProperty" →
  distinct_iris model →
  ∃ rng,
    p_metadata p !! "Range" = Some rng
    ∧ ∀ o, (URIRef (p_iri p), RDFS.range, o) ∈ graph st ↔
        (Py.contains ":" rng = true ∧ Py.startswith rng "xsd:" = true
         ∧ o = Res (xsd_datatype rng))
        ∨ (Py.contains ":" rng = false
           ∧ ∃ dt base,
               datatypes model !! resolve_ref (ns_name (p_ns p)) rng = Some dt
               ∧ d_metadata dt !! "SubclassOf" = Some base
               ∧ Py.startswith base "xsd:" = true
               ∧ o = Res (xsd_datatype base))
        ∨ (Py.contains ":" rng = false
           ∧ datatypes model !! resolve_ref (ns_name (p_ns p)) rng = None
           ∧ ∃ dt,
               types model !! resolve_ref (ns_name (p_ns p)) rng = Some dt
               ∧ o = Res (URIRef (entity_iri dt))).
Proof.
  intros Hrun Hp Hn Hid Hdistinct.
  destruct (property_visit_isolated model Hdistinct fuel st fq p Hrun Hp)
    as (s1 & s2 & Hvisit & Hiso).
  destruct (gen_property_exact model _ s1 s2 Hvisit) as (n' & Hn' & _ & Hexact).
  simpl in Hn', Hexact. assert (n' = n) as -> by congruence.
  destruct (Hexact Hid) as (rng & Hrng & Hgraph). clear Hexact.
  exists rng. split; [done|].
  intros o. rewrite (proj2 (Hiso _ _)), Hgraph. split.
  - intros [H|[H|[[_ H]|[[_ H]|[[_ H]|(o' & [= <-] & H)]]]]];
      try iri_discriminate; [|done].
    apply Hiso in H. apply header_not_about in H; [done|..];
      intros ?; iri_discriminate.
  - intros H. do 5 right. by exists o.
Qed.

(** ** The statements about a vocabulary and about an individual *)

Section owners_more.
Context (model : Model) (Hdistinct : distinct_iris model).

(** The statements about a vocabulary and about its entries are those
    of its own visit. *)
Lemma vocabulary_visit_isolated fuel st fq v i :
  gen_rdf_ontology fuel model = Ok st → (fq, v) ∈ vocabularies model →
  i = v_iri v ∨ i ∈ entry_iris v →
  ∃ s1 s2,
    gen_vocabulary (fq, v) s1 = Ok s2
    ∧ ∀ p o,
        ((URIRef i, p, o) ∈ graph s1 ↔ (URIRef i, p, o) ∈ graph ontology_header)
        ∧ ((URIRef i, p, o) ∈ graph st ↔ (URIRef i, p, o) ∈ graph s2).
Proof.
  intros Hrun Hv Hi.
  destruct (NoDup_app5 _ _ _ _ _ Hdistinct)
    as ((_ & _ & Hvs & Hes & _) & Hc' & Hp' & Hv' & He').
  destruct (gen_rdf_ontology_passes model fuel st Hrun)
    as (st1 & st2 & st3 & H1 & H2 & H3 & H4).
  pose proof Hv as Hsplit.
  apply list_elem_of_split in Hsplit as (l1 & l2 & Hl).
  assert (i ∈ ((λ e, v_iri e.2) <$> vocabularies model)
              ++ flat_map (λ e, entry_iris e.2) (vocabularies model)) as Hin.
  { apply elem_of_app. destruct Hi as [->|Hi].
    - left. by apply (list_elem_of_fmap_2 (λ e, v_iri e.2) _ (fq, v)).
    - right. by eapply elem_of_entry_iris. }
  assert (∀ e, e ∈ l1 ++ l2 → e ∈ vocabularies model) as Hsub.
  { intros e He. rewrite Hl, elem_of_app, elem_of_cons.
    rewrite elem_of_app in He. tauto. }
  assert (∀ (l : list (string * Vocabulary)) e x,
            e ∈ l → x ∈ entry_iris e.2 →
            x ∈ flat_map (λ e, entry_iris e.2) l) as Hflat.
  { intros l e x He Hx. apply list_elem_of_In, in_flat_map. exists e.
    split; by apply list_elem_of_In. }
  assert (∀ e, e ∈ l1 ++ l2 → v_iri e.2 ≠ i ∧ i ∉ entry_iris e.2) as Hother.
  { pose proof Hvs as Hvs0. rewrite Hl in Hvs0.
    pose proof (NoDup_fmap_split (λ e, v_iri e.2) l1 l2 (fq, v) Hvs0) as Hvs'.
    pose proof Hes as Hes0. rewrite Hl, flat_map_app in Hes0. simpl in Hes0.
    apply NoDup_app in Hes0 as (_ & Hes1 & Hes2).
    apply NoDup_app in Hes2 as (_ & Hes2 & _).
    intros e He. pose proof (Hsub _ He) as Hmem.
    destruct Hi as [->|Hi].
    - split; [by apply (Hvs' e)|].
      intros Hx. destruct (Hv' (v_iri v)) as [Hn _];
        [by apply (list_elem_of_fmap_2 (λ e, v_iri e.2) _ (fq, v))|].
      apply Hn. by eapply Hflat.
    - split.
      + intros Heq. destruct (Hv' (v_iri e.2)) as [Hn _];
          [by apply (list_elem_of_fmap_2 (λ e, v_iri e.2))|].
        apply Hn. rewrite Heq. by apply (Hflat _ (fq, v)).
      + intros Hx. apply elem_of_app in He as [He|He].
        * apply (Hes1 i); [by eapply Hflat|]. apply elem_of_app. by left.
        * apply (Hes2 i Hi). by eapply Hflat. }
  rewrite Hl in H3.
  apply for_each_app in H3 as (s1 & Hl1 & H3).
  apply for_each_cons in H3 as (s2 & Hbody & Hl2).
  exists s1, s2. split; [done|]. intros p o. split.
  - rewrite (vocabularies_not_about l1 i st2 s1); [| |exact Hl1].
    2:{ intros e He. apply Hother, elem_of_app. by left. }
    rewrite (properties_not_about model (properties model) i st1 st2);
      [| |exact H2].
    2:{ intros e He Heq.
        destruct (Hp' (p_iri e.2)) as (Hn1 & Hn2 & _);
          [by apply (list_elem_of_fmap_2 (λ e, p_iri e.2))|].
        rewrite Heq in Hn1, Hn2. apply elem_of_app in Hin as [?|?]; done. }
    apply (classes_not_about model fuel (classes model)); [|done].
    intros e He Heq.
    destruct (Hc' (c_iri e.2)) as (_ & Hn1 & Hn2 & _);
      [by apply (list_elem_of_fmap_2 (λ e, c_iri e.2))|].
    rewrite Heq in Hn1, Hn2. apply elem_of_app in Hin as [?|?]; done.
  - rewrite (individuals_not_about model (individuals model) i st3 st);
      [| |exact H4].
    2:{ intros e He Heq.
        assert (i ∈ (λ e, i_iri e.2) <$> individuals model) as Hii
          by (rewrite <- Heq; by apply (list_elem_of_fmap_2 (λ e, i_iri e.2))).
        apply elem_of_app in Hin as [Hin|Hin].
        - by destruct (Hv' i Hin) as [_ ?].
        - by apply (He' i Hin). }
    apply (vocabularies_not_about l2); [|done].
    intros e He. apply Hother, elem_of_app. by right.
Qed.

(** The statements about an individual are those of its own visit. *)
Lemma individual_visit_isolated fuel st fq i :
  gen_rdf_ontology fuel model = Ok st → (fq, i) ∈ individuals model →
  ∃ s1 s2,
    gen_individual model (fq, i) s1 = Ok s2
    ∧ ∀ p o,
        ((URIRef (i_iri i), p, o) ∈ graph s1 ↔
         (URIRef (i_iri i), p, o) ∈ graph ontology_header)
        ∧ ((URIRef (i_iri i), p, o) ∈ graph st ↔
           (URIRef (i_iri i), p, o) ∈ graph s2).
Proof.
  intros Hrun Hi.
  destruct (NoDup_app5 _ _ _ _ _ Hdistinct)
    as ((_ & _ & _ & _ & His) & Hc' & Hp' & Hv' & He').
  destruct (gen_rdf_ontology_passes model fuel st Hrun)
    as (st1 & st2 & st3 & H1 & H2 & H3 & H4).
  pose proof Hi as Hsplit.
  apply list_elem_of_split in Hsplit as (l1 & l2 & Hl).
  rewrite Hl in H4, His.
  apply for_each_app in H4 as (s1 & Hl1 & H4).
  apply for_each_cons in H4 as (s2 & Hbody & Hl2).
  pose proof (NoDup_fmap_split (λ e, i_iri e.2) l1 l2 (fq, i) His) as Hother.
  assert (i_iri i ∈ (λ e, i_iri e.2) <$> individuals model) as Hin
    by (by apply (list_elem_of_fmap_2 (λ e, i_iri e.2) _ (fq, i))).
  exists s1, s2. split; [done|]. intros p o. split.
  - rewrite (individuals_not_about model l1 (i_iri i) st3 s1); [| |exact Hl1].
    2:{ intros e He. apply Hother, elem_of_app. by left. }
    rewrite (vocabularies_not_about (vocabularies model) (i_iri i) st2 st3);
      [| |exact H3].
    2:{ intros [fqv v] He. split.
        - intros Heq. destruct (Hv' (v_iri v)) as [_ Hn];
            [by apply (list_elem_of_fmap_2 (λ e, v_iri e.2) _ (fqv, v))|].
          apply Hn. simpl in Heq. by rewrite Heq.
        - intros Hx. apply (He' (i_iri i)); [|done].
          by eapply elem_of_entry_iris. }
    rewrite (properties_not_about model (properties model) (i_iri i) st1 st2);
      [| |exact H2].
    2:{ intros e He Heq.
        destruct (Hp' (p_iri e.2)) as (_ & _ & Hn);
          [by apply (list_elem_of_fmap_2 (λ e, p_iri e.2))|].
        apply Hn. by rewrite Heq. }
    apply (classes_not_about model fuel (classes model)); [|done].
    intros e He Heq.
    destruct (Hc' (c_iri e.2)) as (_ & _ & _ & Hn);
      [by apply (list_elem_of_fmap_2 (λ e, c_iri e.2))|].
    apply Hn. by rewrite Heq.
  - apply (individuals_not_about model l2); [|done].
    intros e He. apply Hother, elem_of_app. by right.
Qed.

End owners_more.

(** What the loop over the entries of a vocabulary says. *)
Lemma gen_entries_exact v vnode l st st' :
  for_each (gen_entry v vnode) l st = Ok st' →
  ∀ t, t ∈ graph st' ↔
    t ∈ graph st
    ∨ ∃ e d, (e, d) ∈ l
        ∧ (t = (URIRef (v_iri v +:+ "/" +:+ e), RDF.type, Res OWL.NamedIndividual)
           ∨ t = (URIRef (v_iri v +:+ "/" +:+ e), RDF.type, Res vnode)
           ∨ t = (URIRef (v_iri v +:+ "/" +:+ e), RDFS.label, Literal e None)
           ∨ t = (URIRef (v_iri v +:+ "/" +:+ e), RDFS.comment,
                  Literal d (Some "en"))).
Proof.
  revert st. induction l as [|[e d] l IH]; intros st Hrun t.
  - injection Hrun as <-. split; [auto|].
    intros [?|(e & d & He & _)]; [done|]. by apply elem_of_nil in He.
  - apply for_each_cons in Hrun as (s1 & [= <-] & Hrun).
    rewrite (IH _ Hrun), !elem_of_add. split.
    + intros [[[[[?| -> ]| -> ]| -> ]| -> ]|(e' & d' & He' & Ht)]; [by left|..];
        right; [exists e, d; split; [left|tauto]..|].
      exists e', d'. split; [by right|done].
    + intros [?|(e' & d' & He' & Ht)]; [tauto|].
      apply elem_of_cons in He' as [[= -> ->]|He'].
      * left. tauto.
      * right. by exists e', d'.
Qed.

(** What the visit of a vocabulary says. *)
Lemma gen_vocabulary_exact e st st' :
  gen_vocabulary e st = Ok st' →
  ∀ t, t ∈ graph st' ↔
    t ∈ graph st
    ∨ t = (URIRef (v_iri e.2), RDF.type, Res RDFS.Class)
    ∨ t = (URIRef (v_iri e.2), RDF.type, Res OWL.Class)
    ∨ (truthy (v_summary e.2) = true
       ∧ t = (URIRef (v_iri e.2), RDFS.comment,
              Literal (default EmptyString (v_summary e.2)) (Some "en")))
    ∨ ∃ en d, (en, d) ∈ v_entries e.2
        ∧ (t = (URIRef (v_iri e.2 +:+ "/" +:+ en), RDF.type,
                Res OWL.NamedIndividual)
           ∨ t = (URIRef (v_iri e.2 +:+ "/" +:+ en), RDF.type,
                  Res (URIRef (v_iri e.2)))
           ∨ t = (URIRef (v_iri e.2 +:+ "/" +:+ en), RDFS.label, Literal en None)
           ∨ t = (URIRef (v_iri e.2 +:+ "/" +:+ en), RDFS.comment,
                  Literal d (Some "en"))).
Proof.
  unfold gen_vocabulary. intros Hrun t.
  rewrite (gen_entries_exact _ _ _ _ _ Hrun).
  destruct (truthy (v_summary e.2)); rewrite !elem_of_add;
    split; intros H; crack; pick.
Qed.

(** What the visit of an individual says. *)
Lemma gen_individual_exact model e st st' :
  gen_individual model e st = Ok st' →
  ∃ typ dt,
    i_metadata e.2 !! "type" = Some typ
    ∧ types model !! resolve_ref (ns_name (i_ns e.2)) typ = Some dt
    ∧ ∀ t, t ∈ graph st' ↔
        t ∈ graph st
        ∨ t = (URIRef (i_iri e.2), RDF.type, Res OWL.NamedIndividual)
        ∨ (truthy (i_summary e.2) = true
           ∧ t = (URIRef (i_iri e.2), RDFS.comment,
                  Literal (default EmptyString (i_summary e.2)) (Some "en")))
        ∨ t = (URIRef (i_iri e.2), RDFS.range, Res (URIRef (entity_iri dt)))
        ∨ (truthy (i_metadata e.2 !! "IRI") = true
           ∧ t = (URIRef (i_iri e.2), OWL.sameAs,
                  Res (URIRef (default EmptyString (i_metadata e.2 !! "IRI"))))).
Proof.
  unfold gen_individual. intros Hrun.
  apply bind_Ok in Hrun as (typ & Htyp & Hrun). apply mgetitem_Ok in Htyp.
  apply bind_Ok in Hrun as (dt & Hdt & [= <-]). apply mgetitem_Ok in Hdt.
  exists typ, dt. split; [done|]. split; [done|]. intros t.
  destruct (truthy (i_summary e.2)), (truthy (i_metadata e.2 !! "IRI"));
    rewrite !elem_of_add; split; intros H; crack; pick.
Qed.

Lemma NoDup_flat_map_elem {A B} (f : A → list B) (l : list A) x :
  NoDup (flat_map f l) → x ∈ l → NoDup (f x).
Proof.
  intros Hnd Hx. apply list_elem_of_split in Hx as (l1 & l2 & ->).
  rewrite flat_map_app in Hnd. simpl in Hnd.
  apply NoDup_app in Hnd as (_ & _ & Hnd).
  by apply NoDup_app in Hnd as (Hnd & _).
Qed.

(** The visit of a vocabulary declares it as a class and each of its
    entries as a named individual of that class (lines 182-193;
    scenario D). In a model whose entities have IRIs of their own: the
    types of the vocabulary node, the ontology type apart, are
    [rdfs:Class] and [owl:Class]; it has a comment if and only if its
    summary is a non-empty text; and the node of each entry [e], at the
    IRI of the vocabulary followed by ['/'] and [e], has exactly the
    types [owl:NamedIndividual] and the vocabulary, exactly one label,
    which is [e], and exactly one comment, which is the description of
    the entry, in English. *)
Theorem vocabulary_declared fuel model st fq v :
  gen_rdf_ontology fuel model = Ok st →
  (fq, v) ∈ vocabularies model →
  distinct_iris model →
  (∀ o, o ≠ Res OWL.Ontology →
        ((URIRef (v_iri v), RDF.type, o) ∈ graph st ↔
         o = Res RDFS.Class ∨ o = Res OWL.Class))
  ∧ (∀ o, (URIRef (v_iri v), RDFS.comment, o) ∈ graph st ↔
          ∃ s, v_summary v = Some s ∧ s ≠ EmptyString
               ∧ o = Literal s (Some "en"))
  ∧ ∀ e d, (e, d) ∈ v_entries v →
      (∀ o, o ≠ Res OWL.Ontology →
            ((URIRef (v_iri v +:+ "/" +:+ e), RDF.type, o) ∈ graph st ↔
             o = Res OWL.NamedIndividual ∨ o = Res (URIRef (v_iri v))))
      ∧ (∀ o, (URIRef (v_iri v +:+ "/" +:+ e), RDFS.label, o) ∈ graph st ↔
              o = Literal e None)
      ∧ (∀ o, (URIRef (v_iri v +:+ "/" +:+ e), RDFS.comment, o) ∈ graph st ↔
              o = Literal d (Some "en")).
Proof.
  intros Hrun Hv Hdistinct.
  destruct (NoDup_app5 _ _ _ _ _ Hdistinct)
    as ((_ & _ & _ & Hes & _) & _ & _ & Hv' & _).
  assert (∀ e d, (e, d) ∈ v_entries v → v_iri v +:+ "/" +:+ e ∈ entry_iris v)
    as Hentry.
  { intros e d He. unfold entry_iris.
    by apply (list_elem_of_fmap_2 (λ e : string * string, _ +:+ "/" +:+ e.1)
                _ (e, d)). }
  assert (∀ e d, (e, d) ∈ v_entries v → v_iri v +:+ "/" +:+ e ≠ v_iri v)
    as Hne.
  { intros e d He Heq.
    destruct (Hv' (v_iri v)) as [Hn _];
      [by apply (list_elem_of_fmap_2 (λ e, v_iri e.2) _ (fq, v))|].
    apply Hn. eapply elem_of_entry_iris; [exact Hv|].
    rewrite <- Heq. by eapply Hentry. }
  assert (∀ e d e' d', (e, d) ∈ v_entries v → (e', d') ∈ v_entries v →
            v_iri v +:+ "/" +:+ e' = v_iri v +:+ "/" +:+ e →
            e' = e ∧ d' = d) as Hsame.
  { intros e d e' d' He He' Heq.
    assert ((e', d') = (e, d)) as [= -> ->]; [|done].
    eapply (NoDup_fmap_eq (λ e : string * string, v_iri v +:+ "/" +:+ e.1));
      [|done..].
    by apply (NoDup_flat_map_elem (λ e : string * Vocabulary, entry_iris e.2)
                (vocabularies model) (fq, v)). }
  split; [|split].
  - destruct (vocabulary_visit_isolated model Hdistinct fuel st fq v (v_iri v)
                Hrun Hv) as (s1 & s2 & Hvisit & Hiso); [by left|].
    pose proof (gen_vocabulary_exact _ _ _ Hvisit) as Hexact. simpl in Hexact.
    intros o Ho. rewrite (proj2 (Hiso _ _)), Hexact. split.
    + intros H. crack; try iri_discriminate; try pick;
        try (by edestruct Hne).
      apply Hiso in H.
      destruct (elem_of_ontology_header _ H) as [Heq|Heq];
        [by injection Heq as _ ->|iri_discriminate].
    + intros H. crack; pick.
  - destruct (vocabulary_visit_isolated model Hdistinct fuel st fq v (v_iri v)
                Hrun Hv) as (s1 & s2 & Hvisit & Hiso); [by left|].
    pose proof (gen_vocabulary_exact _ _ _ Hvisit) as Hexact. simpl in Hexact.
    intros o. rewrite (proj2 (Hiso _ _)), Hexact. split.
    + intros H. crack; try iri_discriminate; try (by edestruct Hne).
      * apply Hiso in H. apply header_not_about in H; [done|..];
          intros ?; iri_discriminate.
      * destruct (v_summary v) as [[|a s]|]; try done.
        eexists. by split; [|split].
    + intros (s & Hs & Hnes & ->). rewrite Hs. do 3 right. left.
      split; [by destruct s|done].
  - intros e d He.
    destruct (vocabulary_visit_isolated model Hdistinct fuel st fq v
                (v_iri v +:+ "/" +:+ e) Hrun Hv)
      as (s1 & s2 & Hvisit & Hiso); [right; by eapply Hentry|].
    pose proof (gen_vocabulary_exact _ _ _ Hvisit) as Hexact. simpl in Hexact.
    split; [|split].
    + intros o Ho. rewrite (proj2 (Hiso _ _)), Hexact. split.
      * intros H. crack; try iri_discriminate; try pick;
          try (by edestruct Hne).
        apply Hiso in H.
        destruct (elem_of_ontology_header _ H) as [Heq|Heq];
          [by injection Heq as _ ->|iri_discriminate].
      * intros [->| ->]; do 4 right; exists e, d; (split; [done|]); auto.
    + intros o. rewrite (proj2 (Hiso _ _)), Hexact. split.
      * intros H. crack; try iri_discriminate; try (by edestruct Hne).
        -- apply Hiso in H. apply header_not_about in H; [done|..];
             intros ?; iri_discriminate.
        -- done.
      * intros ->. do 4 right. exists e, d. split; [done|]. auto.
    + intros o. rewrite (proj2 (Hiso _ _)), Hexact. split.
      * intros H. crack; try iri_discriminate; try (by edestruct Hne).
        -- apply Hiso in H. apply header_not_about in H; [done|..];
             intros ?; iri_discriminate.
        -- match goal with
           | H1 : (?e', ?d') ∈ v_entries v |- Literal ?d' _ = _ =>
               by destruct (Hsame _ _ e' d' He H1 eq_refl) as [_ ->]
           end.
      * intros ->. do 4 right. exists e, d. split; [done|]. auto.
Qed.

(** The visit of an individual (lines 195-207; scenario E), in a model
    whose entities have IRIs of their own: the individual has a [type],
    which resolves, against its namespace, to an entity of
    [model.types]; its node is an [owl:NamedIndividual] and, the
    ontology type apart, nothing else; the IRI of that entity is the
    object of its one [rdfs:range] statement; and it has an [owl:sameAs]
    statement if and only if its metadata holds a non-empty [IRI], to
    that IRI. *)
Theorem individual_declared fuel model st fq i :
  gen_rdf_ontology fuel model = Ok st →
  (fq, i) ∈ individuals model →
  distinct_iris model →
  ∃ typ dt,
    i_metadata i !! "type" = Some typ
    ∧ types model !! resolve_ref (ns_name (i_ns i)) typ = Some dt
    ∧ (∀ o, o ≠ Res OWL.Ontology →
            ((URIRef (i_iri i), RDF.type, o) ∈ graph st ↔
             o = Res OWL.NamedIndividual))
    ∧ (∀ o, (URIRef (i_iri i), RDFS.range, o) ∈ graph st ↔
            o = Res (URIRef (entity_iri dt)))
    ∧ (∀ o, (URIRef (i_iri i), OWL.sameAs, o) ∈ graph st ↔
            ∃ iri, i_metadata i !! "IRI" = Some iri ∧ iri ≠ EmptyString
                   ∧ o = Res (URIRef iri)).
Proof.
  intros Hrun Hi Hdistinct.
  destruct (individual_visit_isolated model Hdistinct fuel st fq i Hrun Hi)
    as (s1 & s2 & Hvisit & Hiso).
  destruct (gen_individual_exact model _ s1 s2 Hvisit)
    as (typ & dt & Htyp & Hdt & Hexact).
  simpl in Htyp, Hdt, Hexact.
  exists typ, dt. split; [done|]. split; [done|]. split; [|split].
  - intros o Ho. rewrite (proj2 (Hiso _ _)), Hexact. split.
    + intros H. crack; try iri_discriminate; try pick.
      apply Hiso in H.
      destruct (elem_of_ontology_header _ H) as [Heq|Heq];
        [by injection Heq as _ ->|iri_discriminate].
    + intros ->. auto.
  - intros o. rewrite (proj2 (Hiso _ _)), Hexact. split.
    + intros H. crack; try iri_discriminate; try pick.
      apply Hiso in H. apply header_not_about in H; [done|..];
        intros ?; iri_discriminate.
    + intros ->. auto.
  - intros o. rewrite (proj2 (Hiso _ _)), Hexact. split.
    + intros H. crack; try iri_discriminate.
      * apply Hiso in H. apply header_not_about in H; [done|..].
        -- intros ?; iri_discriminate.
        -- intros ?; iri_discriminate.
      * destruct (i_metadata i !! "IRI") as [[|a s]|]; try done.
        eexists. by split; [|split].
    + intros (iri & Hiri & Hne & ->). rewrite Hiri. do 4 right.
      split; [by destruct iri|done].
Qed.

(** ** The value constraints of the property shapes *)

(** What lines 126-143 say about the blank node of a shape. *)
Lemma shape_type_exact model bnode prop typename st st' :
  shape_type model bnode prop typename st = Ok st' →
  bnodes st' = bnodes st
  ∧ ∀ t, t ∈ graph st' ↔
      t ∈ graph st
      ∨ (∃ dt, dict_get typename (classes model) = Some dt
               ∧ t = (bnode, SH.class, Res (URIRef (c_iri dt))))
      ∨ (dict_get typename (classes model) = None
         ∧ ∃ dt, dict_get typename (vocabularies model) = Some dt
                 ∧ t = (bnode, SH.class, Res (URIRef (v_iri dt))))
      ∨ (dict_get typename (classes model) = None
         ∧ dict_get typename (vocabularies model) = None
         ∧ ∃ dt, datatypes model !! typename = Some dt
             ∧ ((∃ pat, d_format dt !! "pattern" = Some pat
                        ∧ t = (bnode, SH.pattern, Literal pat None))
                ∨ (∃ base, d_metadata dt !! "SubclassOf" = Some base
                           ∧ Py.startswith base "xsd:" = true
                           ∧ t = (bnode, SH.datatype, Res (xsd_datatype base)))))
      ∨ (dict_get typename (classes model) = None
         ∧ dict_get typename (vocabularies model) = None
         ∧ datatypes model !! typename = None
         ∧ Py.startswith typename "xsd:" = true
         ∧ t = (bnode, SH.datatype, Res (xsd_datatype typename))).
Proof.
  unfold shape_type. intros Hrun.
  assert (∀ s p rng pn s0, bnodes (add_xsd s p rng pn s0) = bnodes s0) as Hxsd.
  { intros. unfold add_xsd, xsd_range. by destruct (Py.startswith _ _). }
  destruct (dict_get typename (classes model)) as [dt|].
  { injection Hrun as <-. split; [done|]. intros t. rewrite elem_of_add.
    split; intros H; crack; pick. }
  destruct (dict_get typename (vocabularies model)) as [dt|].
  { injection Hrun as <-. split; [done|]. intros t. rewrite elem_of_add.
    split; intros H; crack; pick. }
  destruct (datatypes model !! typename) as [dt|].
  - apply bind_Ok in Hrun as (base & Hbase & [= <-]). apply mgetitem_Ok in Hbase.
    split; [rewrite Hxsd; by destruct (d_format dt !! "pattern")|].
    intros t. rewrite elem_of_add_xsd.
    destruct (d_format dt !! "pattern") as [pat|] eqn:Hpat; rewrite ?elem_of_add;
      split; intros H; crack; pick.
  - injection Hrun as <-. split; [by rewrite Hxsd|].
    intros t. rewrite elem_of_add_xsd. split; intros H; crack; pick.
Qed.

Lemma shape_counts_keep b r st st' t :
  shape_counts (BNode b) r st = Ok st' →
  t.1.2 ≠ SH.minCount → t.1.2 ≠ SH.maxCount →
  t ∈ graph st' ↔ t ∈ graph st.
Proof.
  intros Hrun Hmin Hmax.
  destruct (shape_counts_spec b r st st' Hrun) as (_ & _ & _ & Hadds).
  destruct (Hadds (λ t, t.1.2 = SH.minCount ∨ t.1.2 = SH.maxCount) st)
    as (_ & Hmono & Hnew); [by left|by right|apply step_adds_refl|].
  split; [|apply Hmono]. intros Hin. destruct (Hnew t Hin) as [?|[?|?]]; done.
Qed.

(** The value constraint of a new shape. *)
Lemma gen_shape_values model cnode pn r st st' prop n :
  gen_shape model cnode (pn, r) st = Ok st' →
  fresh_ok st →
  dict_get (fqname r) (properties model) = Some prop →
  p_metadata prop !! "Nature" = Some n → n ≠ "IdProperty" →
  ∃ rng,
    p_metadata prop !! "Range" = Some rng
    ∧ ∀ p o, p = SH.class ∨ p = SH.pattern ∨ p = SH.datatype →
        ((BNode (bnodes st), p, o) ∈ graph st' ↔
         (∃ dt, dict_get (range_typename prop rng) (classes model) = Some dt
                ∧ p = SH.class ∧ o = Res (URIRef (c_iri dt)))
         ∨ (dict_get (range_typename prop rng) (classes model) = None
            ∧ ∃ dt, dict_get (range_typename prop rng) (vocabularies model)
                    = Some dt
                    ∧ p = SH.class ∧ o = Res (URIRef (v_iri dt)))
         ∨ (dict_get (range_typename prop rng) (classes model) = None
            ∧ dict_get (range_typename prop rng) (vocabularies model) = None
            ∧ ∃ dt, datatypes model !! range_typename prop rng = Some dt
                ∧ ((∃ pat, d_format dt !! "pattern" = Some pat
                           ∧ p = SH.pattern ∧ o = Literal pat None)
                   ∨ (∃ base, d_metadata dt !! "SubclassOf" = Some base
                              ∧ Py.startswith base "xsd:" = true
                              ∧ p = SH.datatype
                              ∧ o = Res (xsd_datatype base))))
         ∨ (dict_get (range_typename prop rng) (classes model) = None
            ∧ dict_get (range_typename prop rng) (vocabularies model) = None
            ∧ datatypes model !! range_typename prop rng = None
            ∧ Py.startswith (range_typename prop rng) "xsd:" = true
            ∧ p = SH.datatype
            ∧ o = Res (xsd_datatype (range_typename prop rng)))).
Proof.
  unfold gen_shape. simpl. intros Hrun Hfresh Hprop Hn Hid.
  apply getitem_Ok in Hprop. rewrite Hprop in Hrun. simpl in Hrun.
  unfold nature in Hrun. apply mgetitem_Ok in Hn. rewrite Hn in Hrun.
  simpl in Hrun. rewrite decide_False in Hrun by done.
  apply bind_Ok in Hrun as (rng & Hrng & Hrun). apply mgetitem_Ok in Hrng.
  apply bind_Ok in Hrun as (st1 & Htype & Hrun).
  exists rng. split; [done|]. intros p o Hp.
  rewrite (shape_counts_keep _ _ _ _ _ Hrun)
    by (simpl; intros ->; destruct Hp as [?|[?|?]]; iri_discriminate).
  destruct (shape_type_exact _ _ _ _ _ _ Htype) as [_ Hexact].
  rewrite Hexact, !elem_of_add. simpl. split.
  - intros H. crack; try iri_discriminate; try pick;
      match goal with
      | H : _ ∈ graph st |- _ => by apply fresh_ok_subject in H
      end.
  - intros H. crack; pick.
Qed.

(** A property of the shapes that holds of each new shape, and that
    depends on nothing but the statements about its blank node, holds of
    every shape of the graph. *)
Section shape_invariant.
Context (model : Model) (P : list triple → node → nat → Prop).
Hypothesis P_frame : ∀ g g' x b,
  (∀ t, t ∈ g → t ∈ g') →
  (∀ p o, (BNode b, p, o) ∈ g' → (BNode b, p, o) ∈ g) →
  P g x b → P g' x b.
Hypothesis P_new : ∀ fq c pn r prop n st st',
  (fq, c) ∈ classes model → (pn, r) ∈ c_properties c →
  dict_get (fqname r) (properties model) = Some prop →
  p_metadata prop !! "Nature" = Some n → n ≠ "IdProperty" →
  fresh_ok st →
  gen_shape model (URIRef (c_iri c)) (pn, r) st = Ok st' →
  P (graph st') (URIRef (c_iri c)) (bnodes st).

Lemma shapes_inv_plain_step Q st st' :
  step_adds Q st st' → (∀ t, Q t → plain t) →
  fresh_ok st
  ∧ (∀ x b, (x, SH.property, Res (BNode b)) ∈ graph st → P (graph st) x b) →
  fresh_ok st'
  ∧ (∀ x b, (x, SH.property, Res (BNode b)) ∈ graph st' → P (graph st') x b).
Proof.
  intros Hstep HQ [Hfresh Hshapes].
  split; [by eapply fresh_ok_plain_step|].
  destruct Hstep as (_ & Hmono & Hadds).
  intros x b Hin. destruct (Hadds _ Hin) as [Hold|Hnew].
  - eapply P_frame; [exact Hmono| |by apply Hshapes].
    intros p o Hin'. destruct (Hadds _ Hin') as [?|Hnew]; [done|].
    apply HQ in Hnew as [Hs _]. simpl in Hs. lia.
  - apply HQ in Hnew as [_ Ho]. simpl in Ho. lia.
Qed.

Lemma shapes_inv_shape_step fq c pn r st st' :
  (fq, c) ∈ classes model → (pn, r) ∈ c_properties c →
  gen_shape model (URIRef (c_iri c)) (pn, r) st = Ok st' →
  fresh_ok st
  ∧ (∀ x b, (x, SH.property, Res (BNode b)) ∈ graph st → P (graph st) x b) →
  fresh_ok st'
  ∧ (∀ x b, (x, SH.property, Res (BNode b)) ∈ graph st' → P (graph st') x b).
Proof.
  intros Hc Hr Hbody [Hfresh Hshapes].
  destruct (gen_shape_spec model _ pn r st st' Hbody)
    as (prop & n & Hprop & Hn
        & [[_ ->]|(Hid & Hb' & Hadds & Hproperty & Hpath & Hmin & Hmax)]);
    [done|].
  split; [eapply fresh_ok_shape_step; [exact Hadds|lia|done]|].
  pose proof (P_new fq c pn r prop n st st' Hc Hr Hprop Hn Hid Hfresh Hbody)
    as Hnew_ok.
  destruct Hadds as (_ & Hmono & Hadds).
  intros x b Hin. destruct (Hadds _ Hin) as [Hold|Hnew].
  - eapply P_frame; [exact Hmono| |by apply Hshapes].
    intros p o Hin'. destruct (Hadds _ Hin') as [?|Hnew]; [done|].
    assert (b = bnodes st) as -> by (by inversion Hnew).
    by apply fresh_ok_object in Hold.
  - assert (x = URIRef (c_iri c) ∧ b = bnodes st) as [-> ->]
      by (inversion Hnew; subst; (done || iri_discriminate)).
    done.
Qed.

Lemma shapes_inv_run fuel st :
  gen_rdf_ontology fuel model = Ok st →
  ∀ x b, (x, SH.property, Res (BNode b)) ∈ graph st → P (graph st) x b.
Proof.
  intros Hrun.
  destruct (gen_rdf_ontology_passes model fuel st Hrun)
    as (st1 & st2 & st3 & H1 & H2 & H3 & H4).
  apply properties_adds in H2 as [H2 _].
  apply vocabularies_adds in H3 as [H3 _].
  apply individuals_adds in H4 as [H4 _].
  eapply shapes_inv_plain_step; [exact H4| |].
  { intros t (e & _ & Ht). by eapply individual_emits_plain. }
  eapply shapes_inv_plain_step; [exact H3| |].
  { intros t (e & _ & Ht). by eapply vocabulary_emits_plain. }
  eapply shapes_inv_plain_step; [exact H2| |].
  { intros t (e & n & _ & _ & _ & Ht). by eapply property_emits_plain. }
  eapply (for_each_invariant _ (λ s, fresh_ok s
      ∧ ∀ x b, (x, SH.property, Res (BNode b)) ∈ graph s → P (graph s) x b));
    [| |exact H1].
  - intros [fq c] s s' Hc Hs Hbody.
    destruct (gen_class_run model fuel _ s s' Hbody)
      as (sh & Hhead & _ & _ & Hshapes).
    eapply (for_each_invariant _ (λ s, fresh_ok s
        ∧ ∀ x b, (x, SH.property, Res (BNode b)) ∈ graph s → P (graph s) x b));
      [| |exact Hshapes].
    + intros [pn r] s0 s0' Hr Hs0 Hbody0. by eapply shapes_inv_shape_step.
    + eapply shapes_inv_plain_step; [exact Hhead| |done].
      apply class_head_emits_plain.
  - split.
    + intros s p o Hin.
      by destruct (elem_of_ontology_header _ Hin) as [[= -> -> ->]|[= -> -> ->]].
    + intros x b Hin.
      destruct (elem_of_ontology_header _ Hin) as [[= _ ? _]|[= _ ? _]];
        iri_discriminate.
Qed.

End shape_invariant.

Lemma shape_value_ok_frame model g g' x b :
  (∀ t, t ∈ g → t ∈ g') →
  (∀ p o, (BNode b, p, o) ∈ g' → (BNode b, p, o) ∈ g) →
  shape_value_ok model g x b → shape_value_ok model g' x b.
Proof.
  intros Hmono Hframe (fq & c & pn & r & prop & rng & Hc & Hx & Hr & Hprop
                       & Hrng & Hpath & Hclass & Hpattern & Hdatatype).
  exists fq, c, pn, r, prop, rng. repeat (split; [done|]). split; [auto|].
  split; [|split].
  - intros o. rewrite <- Hclass. split; auto.
  - intros o. rewrite <- Hpattern. split; auto.
  - intros o. rewrite <- Hdatatype. split; auto.
Qed.

(** The constraint on the values of a property shape (lines 119-143).
    In the graph of a successful run every property shape (a blank node
    [b] under [sh:property]) is the shape of a property that a class of
    the model declares, and, with [typename] the range of the property
    as it is looked up (resolved against the namespace of the property
    unless it holds a colon): the shape has an [sh:class] statement if
    and only if [typename] names a class or a vocabulary, to the IRI of
    the class if it names both; failing these, when [typename] names a
    datatype, it has an [sh:pattern] statement if and only if the
    datatype has a [pattern] format, and an [sh:datatype] statement if
    and only if the [SubclassOf] of the datatype starts with [xsd:];
    failing that too, it has an [sh:datatype] statement if and only if
    [typename] itself starts with [xsd:]. *)
Theorem shape_values fuel model st x b :
  gen_rdf_ontology fuel model = Ok st →
  (x, SH.property, Res (BNode b)) ∈ graph st →
  ∃ fq c pn r prop rng,
    (fq, c) ∈ classes model ∧ x = URIRef (c_iri c)
    ∧ (pn, r) ∈ c_properties c
    ∧ dict_get (fqname r) (properties model) = Some prop
    ∧ p_metadata prop !! "Range" = Some rng
    ∧ (BNode b, SH.path, Res (URIRef (p_iri prop))) ∈ graph st
    ∧ (∀ o, (BNode b, SH.class, o) ∈ graph st ↔
         (∃ dt, dict_get (range_typename prop rng) (classes model) = Some dt
                ∧ o = Res (URIRef (c_iri dt)))
         ∨ (dict_get (range_typename prop rng) (classes model) = None
            ∧ ∃ dt, dict_get (range_typename prop rng) (vocabularies model)
                    = Some dt
                    ∧ o = Res (URIRef (v_iri dt))))
    ∧ (∀ o, (BNode b, SH.pattern, o) ∈ graph st ↔
         dict_get (range_typename prop rng) (classes model) = None
         ∧ dict_get (range_typename prop rng) (vocabularies model) = None
         ∧ ∃ dt pat, datatypes model !! range_typename prop rng = Some dt
                     ∧ d_format dt !! "pattern" = Some pat
                     ∧ o = Literal pat None)
    ∧ (∀ o, (BNode b, SH.datatype, o) ∈ graph st ↔
         dict_get (range_typename prop rng) (classes model) = None
         ∧ dict_get (range_typename prop rng) (vocabularies model) = None
         ∧ ((∃ dt base, datatypes model !! range_typename prop rng = Some dt
                        ∧ d_metadata dt !! "SubclassOf" = Some base
                        ∧ Py.startswith base "xsd:" = true
                        ∧ o = Res (xsd_datatype base))
            ∨ (datatypes model !! range_typename prop rng = None
               ∧ Py.startswith (range_typename prop rng) "xsd:" = true
               ∧ o = Res (xsd_datatype (range_typename prop rng))))).
Proof.
  intros Hrun Hin.
  apply (shapes_inv_run model (shape_value_ok model)) with (fuel := fuel);
    [apply shape_value_ok_frame| |done..].
  clear. intros fq c pn r prop n st st' Hc Hr Hprop Hn Hid Hfresh Hbody.
  destruct (gen_shape_values model _ pn r st st' prop n Hbody Hfresh Hprop Hn Hid)
    as (rng & Hrng & Hvalues).
  destruct (gen_shape_spec model _ pn r st st' Hbody)
    as (prop' & n' & Hprop' & Hn'
        & [[-> _]|(_ & _ & _ & _ & Hpath & _)]); [congruence|].
  assert (prop' = prop) as -> by congruence.
  exists fq, c, pn, r, prop, rng. repeat (split; [done|]).
  split; [|split].
  - intros o. rewrite Hvalues by auto. split; intros H; crack;
      try iri_discriminate; pick.
  - intros o. rewrite Hvalues by auto. split; intros H; crack;
      try iri_discriminate; pick.
  - intros o. rewrite Hvalues by auto. split; intros H; crack;
      try iri_discriminate; pick.
Qed.

(** ** The blank nodes *)

Lemma classes_blank_nodes model fuel l st st' :
  for_each (gen_class fuel model) l st = Ok st' →
  fresh_ok st →
  (∀ b, b < bnodes st → ∃ x, (x, SH.property, Res (BNode b)) ∈ graph st) →
  fresh_ok st'
  ∧ (∀ b, b < bnodes st' → ∃ x, (x, SH.property, Res (BNode b)) ∈ graph st')
  ∧ bnodes st'
    = bnodes st
      + sum_list ((λ e, length (shape_entries model (c_properties e.2))) <$> l).
Proof.
  revert st. induction l as [|[fq c] l IH]; intros st Hrun Hfresh Hshapes.
  { injection Hrun as <-. simpl. split; [done|]. split; [done|lia]. }
  apply for_each_cons in Hrun as (s2 & Hbody & Hrun).
  destruct (gen_class_run model fuel _ st s2 Hbody)
    as (sh & Hhead & Hbh & _ & Hloop). simpl in Hhead, Hloop.
  assert (fresh_ok sh) as Hfreshh.
  { eapply fresh_ok_plain_step; [exact Hhead| |done].
    apply class_head_emits_plain. }
  destruct (gen_shapes_enumerated model _ _ sh s2 Hloop Hfreshh)
    as (Hfresh2 & Hb2 & Hprops2 & _).
  pose proof (gen_shapes_frame model _ _ _ _ Hloop) as (_ & Hmono2 & _).
  destruct (IH s2 Hrun Hfresh2) as (Hfresh' & Hshapes' & Hb').
  { intros b Hb. destruct (decide (b < bnodes st)) as [Hold|Hnew].
    - destruct (Hshapes b Hold) as [x Hx]. exists x.
      apply Hmono2. by apply Hhead.
    - exists (URIRef (c_iri c)). apply Hprops2. right.
      exists (b - bnodes sh). split; [lia|]. do 2 f_equal. lia. }
  split; [done|]. split; [done|]. rewrite fmap_cons. simpl. lia.
Qed.

(** The builder creates one blank node for each declared property that
    is not identifying, and for nothing else (line 116): after a
    successful run their number is the number of such declarations over
    all the classes, and the blank nodes are exactly the objects of the
    [sh:property] statements of the graph. *)
Theorem blank_nodes_are_shapes fuel model st :
  gen_rdf_ontology fuel model = Ok st →
  bnodes st
  = sum_list ((λ e, length (shape_entries model (c_properties e.2)))
                <$> classes model)
  ∧ ∀ b, b < bnodes st ↔ ∃ x, (x, SH.property, Res (BNode b)) ∈ graph st.
Proof.
  intros Hrun.
  destruct (shapes_ok_run model fuel st Hrun) as [Hfresh _].
  destruct (gen_rdf_ontology_passes model fuel st Hrun)
    as (st1 & st2 & st3 & H1 & H2 & H3 & H4).
  destruct (classes_blank_nodes model fuel _ _ _ H1) as (_ & Hshapes & Hb1).
  { by destruct (shapes_ok_header model). }
  { simpl. lia. }
  apply properties_adds in H2 as [(_ & Hm2 & _) Hb2].
  apply vocabularies_adds in H3 as [(_ & Hm3 & _) Hb3].
  apply individuals_adds in H4 as [(_ & Hm4 & _) Hb4].
  assert (bnodes st = bnodes st1) as Hb by congruence.
  split; [rewrite Hb, Hb1; simpl; lia|].
  intros b. split.
  - intros Hlt. rewrite Hb in Hlt. destruct (Hshapes b Hlt) as [x Hx].
    exists x. auto.
  - intros [x Hx]. destruct (Hfresh _ _ _ Hx) as [_ Ho]. done.
Qed.

(** ** Runs that fail *)

Lemma for_each_elem {A} (body : A → state → outcome state) l st st' x :
  for_each body l st = Ok st' → x ∈ l → ∃ s s', body x s = Ok s'.
Proof.
  intros Hrun Hx. apply list_elem_of_split in Hx as (l1 & l2 & ->).
  apply for_each_app in Hrun as (s1 & _ & Hrun).
  apply for_each_cons in Hrun as (s2 & Hbody & _). eauto.
Qed.

(** No graph comes out of a model with a reference that does not
    resolve: every lookup of the builder is a plain subscript or a call
    of [int], which raise ([KeyError], [ValueError]) and abort the run.
    So when the run returns, for every class the parent reference, if
    any, names a class of the model, the inheritance walk returns, and
    every declared property is a property of the model with a [Nature],
    and, unless it is identifying, with a [Range], a [minCount] that
    reads as an integer and a [maxCount] that does or is ['*']; every
    property has a [Nature], and unless it is identifying a [Range],
    which, when it holds no colon, names a datatype with a [SubclassOf]
    or an entity of [model.types]; and every individual has a [type]
    that names an entity of [model.types]. *)
Theorem run_resolves_references fuel model st :
  gen_rdf_ontology fuel model = Ok st →
  (∀ fq c, (fq, c) ∈ classes model →
     (∃ parent, get_parent c model = Ok parent)
     ∧ (∃ found, inheritance_walk fuel model c = Ok found)
     ∧ ∀ pn r, (pn, r) ∈ c_properties c →
         ∃ prop n,
           dict_get (fqname r) (properties model) = Some prop
           ∧ p_metadata prop !! "Nature" = Some n
           ∧ (n ≠ "IdProperty" →
              is_Some (p_metadata prop !! "Range")
              ∧ is_Some (Py.int (minCount r))
              ∧ (maxCount r ≠ "*" → is_Some (Py.int (maxCount r)))))
  ∧ (∀ fq p, (fq, p) ∈ properties model →
       ∃ n, p_metadata p !! "Nature" = Some n
         ∧ (n ≠ "IdProperty" →
            ∃ rng, p_metadata p !! "Range" = Some rng
              ∧ (Py.contains ":" rng = false →
                 match datatypes model !! resolve_ref (ns_name (p_ns p)) rng with
                 | Some dt => is_Some (d_metadata dt !! "SubclassOf")
                 | None =>
                     is_Some (types model !! resolve_ref (ns_name (p_ns p)) rng)
                 end)))
  ∧ (∀ fq i, (fq, i) ∈ individuals model →
       ∃ typ, i_metadata i !! "type" = Some typ
         ∧ is_Some (types model !! resolve_ref (ns_name (i_ns i)) typ)).
Proof.
  intros Hrun.
  destruct (gen_rdf_ontology_passes model fuel st Hrun)
    as (st1 & st2 & st3 & H1 & H2 & H3 & H4).
  split; [|split].
  - intros fq c Hc.
    destruct (for_each_elem _ _ _ _ _ H1 Hc) as (s & s' & Hbody).
    destruct (gen_class_exact model fuel _ s s' Hbody)
      as (parent & found & Hparent & Hfound & _).
    split; [eauto|]. split; [eauto|].
    destruct (gen_class_run model fuel _ s s' Hbody) as (sh & _ & _ & _ & Hloop).
    intros pn r Hr.
    destruct (for_each_elem _ _ _ _ _ Hloop Hr) as (s0 & s0' & Hshape).
    unfold gen_shape in Hshape. simpl in Hshape.
    apply bind_Ok in Hshape as (prop & Hprop & Hshape).
    apply bind_Ok in Hshape as (n & Hn & Hshape).
    apply getitem_Ok in Hprop. apply mgetitem_Ok in Hn.
    exists prop, n. split; [done|]. split; [done|]. intros Hid.
    rewrite decide_False in Hshape by done.
    apply bind_Ok in Hshape as (rng & Hrng & Hshape). apply mgetitem_Ok in Hrng.
    apply bind_Ok in Hshape as (s1 & _ & Hcounts).
    destruct (shape_counts_spec _ _ _ _ Hcounts)
      as (_ & (mincount & Hmin & _) & Hmax & _).
    split; [by eexists|]. split; [by eexists|].
    intros Hstar. destruct (Hmax Hstar) as (maxcount & Hmaxcount & _).
    by eexists.
  - intros fq p Hp.
    destruct (for_each_elem _ _ _ _ _ H2 Hp) as (s & s' & Hbody).
    unfold gen_property in Hbody. simpl in Hbody.
    apply bind_Ok in Hbody as (n & Hn & Hbody). apply mgetitem_Ok in Hn.
    exists n. split; [done|]. intros Hid.
    rewrite decide_False in Hbody by done.
    apply bind_Ok in Hbody as (rng & Hrng & Hbody). apply mgetitem_Ok in Hrng.
    exists rng. split; [done|]. intros Hcolon. rewrite Hcolon in Hbody.
    destruct (datatypes model !! _) as [dt|].
    + apply bind_Ok in Hbody as (base & Hbase & _). apply mgetitem_Ok in Hbase.
      by eexists.
    + apply bind_Ok in Hbody as (dt & Hdt & _). apply mgetitem_Ok in Hdt.
      by eexists.
  - intros fq i Hi.
    destruct (for_each_elem _ _ _ _ _ H4 Hi) as (s & s' & Hbody).
    destruct (gen_individual_exact model _ s s' Hbody)
      as (typ & dt & Htyp & Hdt & _).
    exists typ. split; [done|]. by eexists.
Qed.

(** ** Cycles *)

Section cycles.
Context (model : Model).

Lemma chain_step c p l :
  chain model c l → parent_of model c p →
  ∃ l', chain model p l' ∧ length l' < length l.
Proof.
  unfold parent_of. intros Hchain Hp.
  inversion Hchain as [c' Hroot|c' p' l' Hparent Hchain']; subst; [congruence|].
  assert (p' = p) as -> by congruence.
  exists l'. split; [done|simpl; lia].
Qed.

Lemma chain_tc c a l :
  chain model c l → tc (parent_of model) c a →
  ∃ l', chain model a l' ∧ length l' < length l.
Proof.
  intros Hchain Hreach. revert l Hchain.
  induction Hreach as [c a Hp|c p a Hp Hreach IH]; intros l Hchain.
  - by eapply chain_step.
  - destruct (chain_step c p l Hchain Hp) as (l0 & Hl0 & Hlen).
    destruct (IH l0 Hl0) as (l' & Hl' & Hlen').
    exists l'. split; [done|lia].
Qed.

Lemma chain_functional c l1 l2 :
  chain model c l1 → chain model c l2 → l1 = l2.
Proof.
  intros H1. revert l2.
  induction H1 as [c Hroot|c p l Hparent Hchain IH]; intros l2 H2;
    inversion H2 as [c' Hroot'|c' p' l' Hparent' Hchain']; subst;
    try congruence.
  assert (p' = p) as -> by congruence. f_equal. by apply IH.
Qed.

(** A class from which a cycle is reached has no chain. *)
Lemma cycle_no_chain c a l :
  rtc (parent_of model) c a → tc (parent_of model) a a → ¬ chain model c l.
Proof.
  intros Hreach Hcycle Hchain.
  assert (∃ l', chain model a l') as [la Hla].
  { apply rtc_tc in Hreach as [->|Hreach]; [by exists l|].
    destruct (chain_tc c a l Hchain Hreach) as (l' & Hl' & _). by exists l'. }
  destruct (chain_tc a a la Hla Hcycle) as (l' & Hl' & Hlen).
  rewrite (chain_functional a l' la Hl' Hla) in Hlen. lia.
Qed.

(** A walk that returns has followed a chain. *)
Lemma walk_Ok_chain fuel c referenceable id_property res :
  walk fuel model c referenceable id_property = Ok res →
  ∃ l, chain model c l ∧ length l ≤ fuel.
Proof.
  revert c referenceable id_property.
  induction fuel as [|fuel IH]; intros c r i; [done|]. simpl. intros Hres.
  apply bind_Ok in Hres as (i' & _ & Hres).
  apply bind_Ok in Hres as ([p|] & Hp & Hres).
  - destruct (IH _ _ _ Hres) as (l & Hl & Hlen).
    exists (c :: l). split; [by eapply chain_parent|simpl; lia].
  - exists [c]. split; [by apply chain_root|simpl; lia].
Qed.

(** A walk raises only where a lookup fails. *)
Lemma walk_no_raise fuel c referenceable id_property e :
  (∀ x, rtc (parent_of model) c x → is_Ok (get_parent x model)) →
  (∀ x, rtc (parent_of model) c x → properties_resolve model x) →
  walk fuel model c referenceable id_property ≠ Raise e.
Proof.
  revert c referenceable id_property.
  induction fuel as [|fuel IH]; intros c r i Hparents Hprops; [done|]. simpl.
  rewrite (walk_round_id_property model c i) by (apply Hprops; done).
  simpl. destruct (Hparents c) as [[p|] Hp]; [done|..]; rewrite Hp; simpl;
    [|done].
  apply IH.
  - intros x Hx. apply Hparents. by eapply rtc_l.
  - intros x Hx. apply Hprops. by eapply rtc_l.
Qed.

(** On a cyclic [SubclassOf] chain the [while parent:] loop has no end
    (lines 87-100): when a class [a] that is reached from [c] through
    the parent references is its own ancestor, the walk from [c] returns
    for no bound on the number of its rounds, and so no run on a model
    with the class [c] returns a graph. When moreover every lookup on
    the way succeeds, nothing is raised either: whatever the bound, the
    walk is still under way when it is reached. *)
Theorem cyclic_walk_never_returns c a :
  rtc (parent_of model) c a → tc (parent_of model) a a →
  (∀ fuel, ¬ is_Ok (inheritance_walk fuel model c))
  ∧ (∀ fq, (fq, c) ∈ classes model →
       ∀ fuel, ¬ is_Ok (gen_rdf_ontology fuel model))
  ∧ ((∀ x, rtc (parent_of model) c x → is_Ok (get_parent x model)) →
     (∀ x, rtc (parent_of model) c x → properties_resolve model x) →
     ∀ fuel, inheritance_walk fuel model c = OutOfFuel).
Proof.
  intros Hreach Hcycle.
  assert (∀ fuel, ¬ is_Ok (inheritance_walk fuel model c)) as Hnever.
  { intros fuel [res Hres]. unfold inheritance_walk in Hres.
    apply bind_Ok in Hres as (found & Hwalk & _).
    destruct (walk_Ok_chain _ _ _ _ _ Hwalk) as (l & Hl & _).
    by eapply cycle_no_chain. }
  split; [done|]. split.
  - intros fq Hc fuel [st Hrun].
    destruct (gen_rdf_ontology_passes model fuel st Hrun)
      as (st1 & _ & _ & H1 & _).
    destruct (for_each_elem _ _ _ _ _ H1 Hc) as (s & s' & Hbody).
    destruct (gen_class_exact model fuel _ s s' Hbody)
      as (_ & found & _ & Hfound & _).
    apply (Hnever fuel). by exists found.
  - intros Hparents Hprops fuel.
    pose proof (Hnever fuel) as Hfuel. unfold inheritance_walk in *.
    destruct (walk fuel model c None None) as [res|e|] eqn:Hwalk; simpl.
    + destruct Hfuel. by eexists.
    + by destruct (walk_no_raise fuel c None None e).
    + done.
Qed.

End cycles.

(** * Further properties of the context *)

(** ** The table as a dictionary *)

Lemma dict_get_set {K} `{EqDecision K} {V} (k k' : K) (v : V) (d : list (K * V)) :
  dict_get k (dict_set k' v d)
  = if decide (k = k') then Some v else dict_get k d.
Proof.
  induction d as [|[k0 v0] d IH]; simpl.
  - by destruct (decide (k = k')).
  - destruct (decide (k' = k0)) as [->|Hk0]; simpl.
    + by destruct (decide (k = k0)).
    + destruct (decide (k = k0)) as [->|Hk].
      * rewrite decide_False by done. done.
      * exact IH.
Qed.

Lemma dict_set_keys {K} `{EqDecision K} {V} (k : K) (v : V) (d : list (K * V)) :
  (dict_set k v d).*1
  = if decide (k ∈ d.*1) then d.*1 else d.*1 ++ [k].
Proof.
  induction d as [|[k0 v0] d IH].
  - simpl. destruct (decide (k ∈ [])) as [Hin|_]; [|done].
    by apply elem_of_nil in Hin.
  - cbn [dict_set]. destruct (decide (k = k0)) as [->|Hk].
    + rewrite decide_True; [done|]. rewrite fmap_cons. left.
    + rewrite !fmap_cons, IH. simpl.
      destruct (decide (k ∈ d.*1)) as [Hin|Hin].
      * rewrite decide_True; [done|]. by right.
      * rewrite decide_False; [done|].
        intros [?|?]%elem_of_cons; done.
Qed.

Lemma dict_get_None_keys {K} `{EqDecision K} {V} (k : K) (d : list (K * V)) :
  dict_get k d = None ↔ k ∉ d.*1.
Proof.
  induction d as [|[k0 v0] d IH]; simpl.
  - split; [intros _; apply not_elem_of_nil|done].
  - rewrite not_elem_of_cons. destruct (decide (k = k0)) as [->|Hk].
    + split; [done|]. by intros [? _].
    + rewrite IH. tauto.
Qed.

Lemma dict_get_NoDup {K} `{EqDecision K} {V} (k : K) (v : V) (d : list (K * V)) :
  NoDup d.*1 → (k, v) ∈ d ↔ dict_get k d = Some v.
Proof.
  induction d as [|[k0 v0] d IH]; simpl; intros Hnd.
  - split; [by intros ?%elem_of_nil|done].
  - apply NoDup_cons in Hnd as [Hk0 Hnd]. rewrite elem_of_cons.
    destruct (decide (k = k0)) as [->|Hk].
    + split.
      * intros [[= ->]|Hin]; [done|].
        destruct Hk0. by apply (list_elem_of_fmap_2 fst _ (k0, v)).
      * intros [= ->]. by left.
    + rewrite <- IH by done. split; [|auto].
      intros [[= -> _]|?]; done.
Qed.

Lemma seed_terms_lookup idnames :
  dict_get (KStr "spdx") (seed_terms idnames) = Some (VStr URI_BASE)
  ∧ dict_get (KStr "type") (seed_terms idnames) = Some (VStr "@type")
  ∧ (∀ key, key ≠ "spdx" → key ≠ "type" →
            dict_get (KStr key) (seed_terms idnames) = None)
  ∧ (∀ o, dict_get (KTerm o) (seed_terms idnames)
          = if decide (o ∈ idnames) then Some (VStr "@id") else None)
  ∧ NoDup (seed_terms idnames).*1.
Proof.
  split; [by rewrite seed_terms_plain_key|].
  split; [by rewrite seed_terms_plain_key|]. split; [|split].
  - intros key H1 H2. rewrite seed_terms_plain_key. simpl.
    rewrite !decide_False by congruence. done.
  - intros o. unfold seed_terms.
    assert (∀ d : list (term_key * term_value),
              dict_get (KTerm o)
                (foldl (λ terms idname, dict_set (KTerm idname) (VStr "@id") terms)
                   d idnames)
              = if decide (o ∈ idnames) then Some (VStr "@id")
                else dict_get (KTerm o) d) as Hgen.
    { induction idnames as [|o' ids IH]; intros d; cbn [foldl].
      - destruct (decide (o ∈ [])) as [Hin|_]; [|done].
        by apply elem_of_nil in Hin.
      - rewrite IH, dict_get_set.
        destruct (decide (o ∈ ids)) as [Hin|Hin].
        + rewrite decide_True; [done|]. by right.
        + destruct (decide (KTerm o = KTerm o')) as [[= ->]|Hne].
          * rewrite decide_True; [done|]. left.
          * rewrite decide_False; [done|].
            intros [->|?]%elem_of_cons; done. }
    rewrite Hgen. by destruct (decide (o ∈ idnames)).
  - unfold seed_terms.
    assert (∀ d : list (term_key * term_value), NoDup d.*1 →
              NoDup (foldl (λ terms idname,
                              dict_set (KTerm idname) (VStr "@id") terms)
                       d idnames).*1) as Hgen.
    { induction idnames as [|o' ids IH]; intros d Hd; simpl; [done|].
      apply IH. rewrite dict_set_keys. destruct (decide _); [done|].
      apply NoDup_app. split; [done|]. split; [|apply NoDup_singleton].
      intros k Hk ->%list_elem_of_singleton. done. }
    apply Hgen. simpl. repeat constructor; set_solver.
Qed.

Section table.
Context (g : list triple) (hni : list object).

(** The loop files plain keys only, and no key twice. *)
Lemma fold_context_keys l ctx :
  NoDup (terms ctx).*1 →
  let ctx' := foldl (context_step g hni) ctx l in
  NoDup (terms ctx').*1
  ∧ ∀ o, dict_get (KTerm o) (terms ctx') = dict_get (KTerm o) (terms ctx).
Proof.
  revert ctx. induction l as [|s l IH]; intros ctx Hnd; simpl; [done|].
  rewrite context_step_key.
  destruct (subject_key g s) as [k|]; [|by apply IH].
  destruct (dict_get (KStr k) (terms ctx)) as [v|] eqn:Hk.
  - by apply (IH {| terms := terms ctx; errors := _ |}).
  - destruct (IH {| terms := terms ctx ++ [(KStr k, get_subject_term g hni s)];
                    errors := errors ctx |}) as [Hnd' Hget'].
    + simpl. rewrite fmap_app. apply NoDup_app. split; [done|].
      split; [|apply NoDup_singleton].
      intros k' Hk' ->%list_elem_of_singleton.
      by apply dict_get_None_keys in Hk.
    + split; [done|]. intros o. rewrite Hget'. simpl.
      rewrite dict_get_app. by destruct (dict_get (KTerm o) (terms ctx)).
Qed.

End table.

(** ** Decomposing a subject *)

Lemma split_pieces c s w : w ∈ Py.split c s → Py.contains c w = false.
Proof.
  revert w. induction s as [|a s IH]; intros w; simpl.
  - by intros ->%list_elem_of_singleton.
  - destruct (decide (a = c)) as [->|Ha].
    + intros [->|Hw]%elem_of_cons; [done|]. by apply IH.
    + pose proof (split_nonempty c s) as Hne.
      destruct (Py.split c s) as [|w0 ws]; [done|].
      intros [->|Hw]%elem_of_cons.
      * simpl. rewrite decide_False by done. apply IH. left.
      * apply IH. by right.
Qed.

Lemma split_whole c s : Py.contains c s = false → Py.split c s = [s].
Proof.
  induction s as [|a s IH]; simpl; [done|].
  destruct (decide (a = c)); [done|]. intros Hs. by rewrite IH.
Qed.

Lemma split_app c s1 s2 :
  Py.split c (s1 +:+ String c s2) = Py.split c s1 ++ Py.split c s2.
Proof.
  induction s1 as [|a s1 IH].
  - simpl. by rewrite decide_True.
  - rewrite append_cons. simpl. rewrite IH.
    destruct (decide (a = c)); [done|].
    pose proof (split_nonempty c s1) as Hne.
    by destruct (Py.split c s1).
Qed.

Lemma rsplit_compose c base ns name :
  Py.contains c ns = false → Py.contains c name = false →
  Py.rsplit c 2 (base +:+ String c (ns +:+ String c name)) = [base; ns; name].
Proof.
  intros Hns Hname. unfold Py.rsplit.
  rewrite !split_app, (split_whole c ns Hns), (split_whole c name Hname).
  pose proof (split_nonempty c base) as Hne.
  rewrite length_app. simpl.
  replace (S (length (Py.split c base) + 2 - 1 - 2))
    with (length (Py.split c base) + 0)
    by (destruct (Py.split c base); [done|simpl; lia]).
  rewrite take_app_add, drop_app_add. simpl.
  by rewrite app_nil_r, join_split.
Qed.

Lemma rsplit_pieces c s base ns name :
  Py.rsplit c 2 s = [base; ns; name] →
  Py.contains c ns = false ∧ Py.contains c name = false.
Proof.
  unfold Py.rsplit. intros [= _ Hrest].
  assert (∀ w, w ∈ [ns; name] → w ∈ Py.split c s) as Hin.
  { intros w Hw. rewrite <- Hrest in Hw.
    rewrite <- (take_drop (S (length (Py.split c s) - 1 - 2)) (Py.split c s)).
    apply elem_of_app. by right. }
  split; eapply split_pieces, Hin; set_solver.
Qed.

(** The three pieces of a subject (line 250) and the subject are each
    other's inverse: a text splits into [base], [ns] and [name] if and
    only if it is [base], ['/'], [ns], ['/'] and [name] put together,
    with no ['/'] in [ns] or in [name]; a text with fewer than two
    ['/'] has no such pieces. *)
Theorem decompose_round_trip iri base ns name :
  decompose (URIRef iri) = Some (base, ns, name) ↔
  iri = base +:+ "/" +:+ ns +:+ "/" +:+ name
  ∧ Py.contains "/" ns = false ∧ Py.contains "/" name = false.
Proof.
  unfold decompose. split.
  - destruct (Py.rsplit "/" 2 iri) as [|b [|n [|m [|]]]] eqn:Hsplit; try done.
    intros [= -> -> ->].
    split; [by apply rsplit_three|]. by eapply rsplit_pieces.
  - intros (-> & Hns & Hname).
    change (base +:+ "/" +:+ ns +:+ "/" +:+ name)
      with (base +:+ String "/" (ns +:+ String "/" name)).
    by rewrite rsplit_compose.
Qed.

(** ** What the table holds *)

Lemma jsonld_context_plain_key g idnames key :
  key ≠ "spdx" → key ≠ "type" →
  dict_get (KStr key) (terms (jsonld_context_from idnames g))
  = get_subject_term g (has_named_individuals g) <$> head (colliders g key).
Proof.
  intros H1 H2.
  destruct (seed_terms_lookup idnames) as (_ & _ & Hfree & _).
  unfold jsonld_context_from, colliders.
  pose proof (fold_key_free g (has_named_individuals g) key
                (sorted_subjects g)
                {| terms := seed_terms idnames; errors := [] |}
                (Hfree key H1 H2)) as Hkey.
  simpl in Hkey.
  destruct (filter _ (sorted_subjects g)) as [|s1 rest];
    [by destruct Hkey|by destruct Hkey].
Qed.

Lemma jsonld_context_keys g idnames :
  NoDup (terms (jsonld_context_from idnames g)).*1.
Proof.
  destruct (seed_terms_lookup idnames) as (_ & _ & _ & _ & Hnd).
  by destruct (fold_context_keys g (has_named_individuals g)
                 (sorted_subjects g)
                 {| terms := seed_terms idnames; errors := [] |} Hnd).
Qed.

(** The context as a mapping (lines 213-269), for any graph and any
    order of the identifying-property names. The two fixed entries are
    never replaced: [spdx] maps to the base IRI and [type] to [@type],
    and a subject that derives one of these keys is reported as a
    duplicate instead, with the fixed value as the target. Every other
    plain key maps to the term of the first subject, in sorted order,
    that derives it, and is absent when no subject does. The key filed
    for an identifying-property name maps to [@id], and no other key of
    that kind is in the table. *)
Theorem context_lookup g idnames :
  dict_get (KStr "spdx") (terms (jsonld_context_from idnames g))
  = Some (VStr URI_BASE)
  ∧ dict_get (KStr "type") (terms (jsonld_context_from idnames g))
    = Some (VStr "@type")
  ∧ duplicate_reports "spdx" (errors (jsonld_context_from idnames g))
    = (λ s, (node_text s, URI_BASE)) <$> colliders g "spdx"
  ∧ duplicate_reports "type" (errors (jsonld_context_from idnames g))
    = (λ s, (node_text s, "@type")) <$> colliders g "type"
  ∧ (∀ key, key ≠ "spdx" → key ≠ "type" →
       dict_get (KStr key) (terms (jsonld_context_from idnames g))
       = get_subject_term g (has_named_individuals g)
           <$> head (colliders g key))
  ∧ (∀ o, dict_get (KTerm o) (terms (jsonld_context_from idnames g))
          = if decide (o ∈ idnames) then Some (VStr "@id") else None).
Proof.
  destruct (seed_terms_lookup idnames) as (Hspdx & Htype & Hfree & Hids & Hnd).
  unfold jsonld_context_from, colliders.
  set (ctx0 := {| terms := seed_terms idnames; errors := [] |}).
  destruct (fold_key_taken g (has_named_individuals g) "spdx"
              (sorted_subjects g) ctx0 _ Hspdx) as (Hspdx' & _ & Hspdx_reports).
  destruct (fold_key_taken g (has_named_individuals g) "type"
              (sorted_subjects g) ctx0 _ Htype) as (Htype' & _ & Htype_reports).
  split; [done|]. split; [done|]. split; [done|]. split; [done|]. split.
  - intros key H1 H2. by apply jsonld_context_plain_key.
  - intros o.
    destruct (fold_context_keys g (has_named_individuals g)
                (sorted_subjects g) ctx0 Hnd) as [_ Hget].
    by rewrite Hget.
Qed.

(** The table is a dictionary: for any graph and any order of the
    identifying-property names, no key occurs twice in it, so that its
    entries are exactly what a lookup finds. *)
Theorem context_keys_unique g idnames :
  NoDup (terms (jsonld_context_from idnames g)).*1
  ∧ ∀ k v, (k, v) ∈ terms (jsonld_context_from idnames g) ↔
           dict_get k (terms (jsonld_context_from idnames g)) = Some v.
Proof.
  pose proof (jsonld_context_keys g idnames) as Hnd.
  split; [done|]. intros k v. by apply dict_get_NoDup.
Qed.

(** What the context never maps (lines 244-260): for any graph, an entry
    under a plain key other than the two fixed ones comes from a subject
    of the graph that is no named individual and whose IRI is the base
    IRI followed by a namespace and a name, neither with a ['/']; its
    key is the name if the namespace is [Core] and the lower-cased
    namespace, an underscore and the name otherwise; and the [@id] of
    its term is that subject. Blank nodes, named individuals and IRIs
    outside the base never get an entry. *)
Theorem context_terms_sound g idnames key v :
  (KStr key, v) ∈ terms (jsonld_context_from idnames g) →
  key ≠ "spdx" → key ≠ "type" →
  ∃ ns name p o,
    (URIRef (URI_BASE +:+ ns +:+ "/" +:+ name), p, o) ∈ g
    ∧ ((URIRef (URI_BASE +:+ ns +:+ "/" +:+ name), RDF.type,
        Res OWL.NamedIndividual) ∉ g)
    ∧ Py.contains "/" ns = false ∧ Py.contains "/" name = false
    ∧ key = (if decide (ns = "Core") then name
             else Py.lower ns +:+ "_" +:+ name)
    ∧ v = get_subject_term g (has_named_individuals g)
            (URIRef (URI_BASE +:+ ns +:+ "/" +:+ name))
    ∧ current_target v = URI_BASE +:+ ns +:+ "/" +:+ name.
Proof.
  intros Hin H1 H2.
  apply (dict_get_NoDup _ _ _ (jsonld_context_keys g idnames)) in Hin.
  rewrite jsonld_context_plain_key in Hin by done.
  destruct (head (colliders g key)) as [s|] eqn:Hhead; [|done].
  injection Hin as <-.
  apply head_Some_elem_of in Hhead.
  apply list_elem_of_filter in Hhead as [Hkey Hs].
  apply elem_of_sorted_subjects in Hs as (p & o & Hs).
  assert ((s, RDF.type, Res OWL.NamedIndividual) ∉ g) as Hni.
  { unfold subject_key in Hkey. by destruct (decide (_ ∈ g)). }
  assert (∃ iri ns name,
            s = URIRef iri
            ∧ decompose (URIRef iri) = Some (Py.rstrip "/" URI_BASE, ns, name)
            ∧ key = context_key ns name) as (iri & ns & name & -> & Hdec & ->).
  { unfold subject_key in Hkey. destruct (decide (_ ∈ g)); [done|].
    destruct s as [iri|b]; [|done].
    destruct (decompose (URIRef iri)) as [[[base ns] name]|] eqn:Hdec;
      [|done].
    destruct (decide (base ≠ _)) as [|Hbase]; [done|].
    apply dec_stable in Hbase. subst base. injection Hkey as <-.
    by exists iri, ns, name. }
  apply decompose_round_trip in Hdec as (-> & Hns & Hname).
  assert (Py.rstrip "/" URI_BASE +:+ "/" +:+ ns +:+ "/" +:+ name
          = URI_BASE +:+ ns +:+ "/" +:+ name) as Hiri by reflexivity.
  rewrite Hiri in *. clear Hiri.
  exists ns, name, p, o.
  split; [done|]. split; [done|]. split; [done|]. split; [done|].
  split; [done|]. split; [done|].
  by rewrite current_target_subject_term.
Qed.

(** ** Names and keys *)

Lemma last_piece_app c s name :
  Py.contains c name = false → Py.last_piece c (s +:+ String c name) = name.
Proof.
  intros Hname. unfold Py.last_piece.
  rewrite split_app, (split_whole c name Hname).
  pose proof (split_nonempty c s) as Hne.
  induction (Py.split c s) as [|w [|w' ws] IH]; [done|done|].
  change (List.last ((w :: w' :: ws) ++ [name]) EmptyString)
    with (List.last ((w' :: ws) ++ [name]) EmptyString).
  by apply IH.
Qed.

(** The walk names an identifying property as the context would (lines
    96-98 and 257-260): for a property of the namespace [ns] that is
    declared under the fully-qualified name [/ns/name], the name that
    the walk resolves is the key that the loop over the subjects derives
    for the IRI of the property under the base, [ns/name], in any graph
    where that IRI is no named individual. *)
Theorem id_property_name_is_context_key g prop ns name :
  ns_name (p_ns prop) = ns →
  Py.contains "/" ns = false → Py.contains "/" name = false →
  (URIRef (URI_BASE +:+ ns +:+ "/" +:+ name), RDF.type,
   Res OWL.NamedIndividual) ∉ g →
  subject_key g (URIRef (URI_BASE +:+ ns +:+ "/" +:+ name))
  = Some (id_property_name ("/" +:+ ns +:+ "/" +:+ name) prop).
Proof.
  intros Hprop Hns Hname Hni. unfold subject_key.
  rewrite decide_False by done.
  assert (decompose (URIRef (URI_BASE +:+ ns +:+ "/" +:+ name))
          = Some (Py.rstrip "/" URI_BASE, ns, name)) as ->.
  { change (URI_BASE +:+ ns +:+ "/" +:+ name)
      with (Py.rstrip "/" URI_BASE +:+ "/" +:+ ns +:+ "/" +:+ name).
    by apply decompose_round_trip. }
  rewrite decide_False by (by intros []).
  f_equal. unfold context_key, id_property_name. rewrite Hprop.
  change ("/" +:+ ns +:+ "/" +:+ name)
    with (("/" +:+ ns) +:+ String "/" name).
  rewrite (last_piece_app "/" _ name Hname).
  destruct (decide (ns = "Core")) as [->|Hne].
  - by rewrite decide_False by (by intros []).
  - by rewrite decide_True.
Qed.

(** ** The term of a property *)

Lemma elem_of_objects_of g s p o : o ∈ objects_of g s p ↔ (s, p, o) ∈ g.
Proof.
  unfold objects_of. rewrite list_elem_of_omap. split.
  - intros ([[s' p'] o'] & Hin & Ho). simpl in Ho.
    case_decide as Hsp; [|done]. by simplify_eq.
  - intros Hin. exists (s, p, o). split; [done|]. simpl.
    by rewrite decide_True.
Qed.

Lemma elem_of_has_named_individuals g o :
  o ∈ has_named_individuals g ↔
  ∃ s, (s, RDF.type, Res OWL.NamedIndividual) ∈ g ∧ (s, RDF.type, o) ∈ g.
Proof.
  unfold has_named_individuals.
  rewrite list_elem_of_In, in_flat_map. split.
  - intros ([[s p] o'] & Hin & Ho). simpl in Ho.
    apply list_elem_of_In in Hin, Ho.
    case_decide as Ht; [|by apply elem_of_nil in Ho].
    destruct Ht as [-> ->]. apply elem_of_objects_of in Ho. by exists s.
  - intros (s & Hs & Ho). exists (s, RDF.type, Res OWL.NamedIndividual).
    split; [by apply list_elem_of_In|]. cbv beta.
    destruct (decide _) as [_|Hn]; [|by destruct Hn].
    by apply list_elem_of_In, elem_of_objects_of.
Qed.

(** The loop of [get_subject_term] over ranges that are all the same. *)
Lemma first_range_term_const g hni s o0 l :
  (∀ o, o ∈ l → o = o0) →
  first_range_term g hni s l
  = match l with
    | [] => VNode s
    | _ :: _ =>
        if decide (o0 ∈ hni) then VVocab s (object_text o0 +:+ "/")
        else if is_class g o0 then VIdType s else VNode s
    end.
Proof.
  induction l as [|o l IH]; intros Hl; [done|]. simpl.
  assert (o = o0) as -> by (apply Hl; left).
  destruct (decide (o0 ∈ hni)); [done|].
  destruct (is_class g o0); [done|].
  rewrite IH by (intros o Ho; apply Hl; by right).
  by destruct l.
Qed.

Section named_individuals.
Context (model : Model) (Hdistinct : distinct_iris model).

(** The types of the named individuals of a graph that the builder
    made. *)
Lemma named_individual_types fuel st s o :
  gen_rdf_ontology fuel model = Ok st →
  (s, RDF.type, Res OWL.NamedIndividual) ∈ graph st →
  (s, RDF.type, o) ∈ graph st →
  o = Res OWL.NamedIndividual ∨ o = Res OWL.Ontology
  ∨ ∃ fq v, (fq, v) ∈ vocabularies model ∧ v_entries v ≠ []
            ∧ o = Res (URIRef (v_iri v)).
Proof.
  intros Hrun Hni Ho.
  destruct (NoDup_app5 _ _ _ _ _ Hdistinct) as (_ & _ & _ & Hv' & _).
  pose proof (gen_rdf_ontology_emitted model fuel st _ Hrun Hni) as Hem.
  assert (∀ i p' o', (URIRef i, p', o') ∈ graph ontology_header →
            p' = RDF.type → o' = Res OWL.Ontology) as Hheader.
  { intros i p' o' Hin ->.
    destruct (elem_of_ontology_header _ Hin) as [Heq|Heq];
      [by injection Heq as _ ->|iri_discriminate]. }
  inversion Hem as [| |fq' c t Hc Ht|fq' p' n t Hp' Hn Hid Ht
                    |fq v t Hv Ht|fq i t Hi Ht]; subst;
    try iri_discriminate.
  - destruct Ht as [Ht|(b & pn & r & prop & n & _ & _ & _ & _ & _ & Ht)];
      inversion Ht; subst; iri_discriminate.
  - inversion Ht; subst; iri_discriminate.
  - assert (∃ e d, (e, d) ∈ v_entries v
                   ∧ s = URIRef (v_iri v +:+ "/" +:+ e)) as (e & d & He & ->).
    { inversion Ht; subst; try iri_discriminate; eauto. }
    assert (v_iri v +:+ "/" +:+ e ∈ entry_iris v) as Hentry.
    { unfold entry_iris.
      by apply (list_elem_of_fmap_2
                  (λ e : string * string, _ +:+ "/" +:+ e.1) _ (e, d)). }
    destruct (vocabulary_visit_isolated model Hdistinct fuel st fq v
                (v_iri v +:+ "/" +:+ e) Hrun Hv)
      as (s1 & s2 & Hvisit & Hiso); [by right|].
    apply Hiso in Ho.
    apply (gen_vocabulary_exact _ _ _ Hvisit) in Ho. simpl in Ho.
    assert (v_iri v +:+ "/" +:+ e ≠ v_iri v) as Hne.
    { intros Heq. destruct (Hv' (v_iri v)) as [Hn _];
        [by apply (list_elem_of_fmap_2 (λ e, v_iri e.2) _ (fq, v))|].
      apply Hn. eapply elem_of_entry_iris; [exact Hv|]. by rewrite <- Heq. }
    clear Ht Hem Hni.
    crack; try iri_discriminate; try done; try (by left).
    + right. left. apply Hiso in Ho. by eapply Hheader.
    + right. right. exists fq, v. split; [done|]. split; [|done].
      intros Hnil. rewrite Hnil in He. by apply elem_of_nil in He.
  - inversion Ht; subst; try iri_discriminate.
    destruct (individual_visit_isolated model Hdistinct fuel st fq i Hrun Hi)
      as (s1 & s2 & Hvisit & Hiso).
    apply Hiso in Ho.
    destruct (gen_individual_exact model _ s1 s2 Hvisit)
      as (typ & dt & _ & _ & Hexact).
    apply Hexact in Ho. simpl in Ho.
    crack; try iri_discriminate; try (by left).
    right. left. apply Hiso in Ho. by eapply Hheader.
Qed.

End named_individuals.

(** The term that the context gives a property (lines 220-236), on the
    graph of a successful run over a model whose entities have IRIs of
    their own. A property that is not an [ObjectProperty] maps to its
    IRI. An [ObjectProperty] whose range names a vocabulary of the model
    with at least one entry maps to [{"@id": ..., "@type": "@vocab",
    "@context": {"@vocab": ...}}], the vocabulary being the IRI of the
    vocabulary followed by ['/']. An [ObjectProperty] whose range names
    a class of the model, or a vocabulary without entries, with an IRI
    under the base, maps to [{"@id": ..., "@type": "@id"}]. *)
Theorem property_context_term fuel model st fq p n :
  gen_rdf_ontology fuel model = Ok st →
  (fq, p) ∈ properties model →
  p_metadata p !! "Nature" = Some n →
  n ≠ "IdProperty" →
  distinct_iris model →
  (n ≠ "ObjectProperty" →
   get_subject_term (graph st) (has_named_individuals (graph st))
     (URIRef (p_iri p))
   = VNode (URIRef (p_iri p)))
  ∧ (n = "ObjectProperty" →
     ∀ rng dt,
       p_metadata p !! "Range" = Some rng →
       Py.contains ":" rng = false →
       datatypes model !! resolve_ref (ns_name (p_ns p)) rng = None →
       types model !! resolve_ref (ns_name (p_ns p)) rng = Some dt →
       (∀ fqv v, dt = EVocabulary v → (fqv, v) ∈ vocabularies model →
          v_entries v ≠ [] →
          get_subject_term (graph st) (has_named_individuals (graph st))
            (URIRef (p_iri p))
          = VVocab (URIRef (p_iri p)) (v_iri v +:+ "/"))
       ∧ (∀ fqv v, dt = EVocabulary v → (fqv, v) ∈ vocabularies model →
            v_entries v = [] → Py.startswith (v_iri v) URI_BASE = true →
            get_subject_term (graph st) (has_named_individuals (graph st))
              (URIRef (p_iri p))
            = VIdType (URIRef (p_iri p)))
       ∧ (∀ fqc c, dt = EClass c → (fqc, c) ∈ classes model →
            Py.startswith (c_iri c) URI_BASE = true →
            get_subject_term (graph st) (has_named_individuals (graph st))
              (URIRef (p_iri p))
            = VIdType (URIRef (p_iri p)))).
Proof.
  intros Hrun Hp Hn Hid Hdistinct.
  destruct (NoDup_app5 _ _ _ _ _ Hdistinct)
    as ((_ & _ & Hvs & _) & Hc' & _).
  destruct (property_visit_isolated model Hdistinct fuel st fq p Hrun Hp)
    as (s1 & s2 & Hvisit & Hiso).
  destruct (gen_property_exact model _ s1 s2 Hvisit) as (n' & Hn' & _ & Hexact).
  simpl in Hn', Hexact. assert (n' = n) as -> by congruence.
  destruct (Hexact Hid) as (rng & Hrng & Hgraph). clear Hexact.
  assert ((URIRef (p_iri p), RDF.type, Res OWL.ObjectProperty) ∈ graph st ↔
          n = "ObjectProperty") as Hobject.
  { rewrite (proj2 (Hiso _ _)), Hgraph. split.
    - intros H. crack; try iri_discriminate; try done.
      apply Hiso in H.
      destruct (elem_of_ontology_header _ H) as [Heq|Heq]; iri_discriminate.
    - intros ->. do 3 right. left. done. }
  split.
  { intros Hdata. unfold get_subject_term.
    rewrite decide_False; [done|]. by rewrite Hobject. }
  intros -> rng' dt Hrng' Hcolon Hdatatype Htypes.
  assert (rng' = rng) as -> by congruence.
  set (g := graph st) in *.
  assert (∀ o, (URIRef (p_iri p), RDFS.range, o) ∈ g ↔
               o = Res (URIRef (entity_iri dt))) as Hrange.
  { intros o. rewrite (proj2 (Hiso _ _)), Hgraph. split.
    - intros H. crack; try iri_discriminate; try congruence.
      apply Hiso in H. apply header_not_about in H; [done|..];
        intros ?; iri_discriminate.
    - intros ->. do 5 right. eexists. split; [done|]. do 2 right.
      split; [done|]. split; [done|]. by exists dt. }
  assert (get_subject_term g (has_named_individuals g) (URIRef (p_iri p))
          = if decide (Res (URIRef (entity_iri dt)) ∈ has_named_individuals g)
            then VVocab (URIRef (p_iri p)) (entity_iri dt +:+ "/")
            else if is_class g (Res (URIRef (entity_iri dt)))
                 then VIdType (URIRef (p_iri p))
                 else VNode (URIRef (p_iri p))) as ->.
  { unfold get_subject_term. rewrite decide_True by (by apply Hobject).
    rewrite (first_range_term_const g _ _ (Res (URIRef (entity_iri dt)))).
    - destruct (objects_of g (URIRef (p_iri p)) RDFS.range) as [|o l] eqn:Hl;
        [|done].
      assert (Res (URIRef (entity_iri dt))
              ∈ objects_of g (URIRef (p_iri p)) RDFS.range) as Hin
        by (by apply elem_of_objects_of, Hrange).
      rewrite Hl in Hin. by apply elem_of_nil in Hin.
    - intros o Ho. by apply elem_of_objects_of, Hrange in Ho. }
  assert (∀ i, Py.startswith i URI_BASE = true →
               Res (URIRef i) ∈ has_named_individuals g →
               ∃ fqv v, (fqv, v) ∈ vocabularies model ∧ v_entries v ≠ []
                        ∧ i = v_iri v) as Hhni.
  { intros i Hi Hin. apply elem_of_has_named_individuals in Hin as (s & Hs & Ho).
    destruct (named_individual_types model Hdistinct fuel st s _ Hrun Hs Ho)
      as [Heq|[Heq|(fqv & v & Hv & Hne & Heq)]].
    - injection Heq as ->. by vm_compute in Hi.
    - injection Heq as ->. by vm_compute in Hi.
    - injection Heq as ->. by exists fqv, v. }
  split; [|split].
  - intros fqv v -> Hv Hne. cbn [entity_iri].
    rewrite decide_True; [done|].
    destruct (v_entries v) as [|[e d] es] eqn:Hentries; [done|].
    apply elem_of_has_named_individuals.
    exists (URIRef (v_iri v +:+ "/" +:+ e)).
    destruct (vocabulary_visit_isolated model Hdistinct fuel st fqv v
                (v_iri v +:+ "/" +:+ e) Hrun Hv)
      as (s1' & s2' & Hvisit' & Hiso').
    { right. unfold entry_iris. rewrite Hentries. left. }
    pose proof (gen_vocabulary_exact _ _ _ Hvisit') as Hexact'.
    simpl in Hexact'.
    split; apply Hiso', Hexact'; do 4 right; exists e, d;
      (split; [rewrite Hentries; left|]); auto.
  - intros fqv v -> Hv Hnil Hbase. cbn [entity_iri].
    rewrite decide_False.
    + assert (is_class g (Res (URIRef (v_iri v))) = true) as ->; [|done].
      apply bool_decide_eq_true.
      destruct (vocabulary_visit_isolated model Hdistinct fuel st fqv v
                  (v_iri v) Hrun Hv) as (s1' & s2' & Hvisit' & Hiso');
        [by left|].
      apply Hiso', (gen_vocabulary_exact _ _ _ Hvisit'). simpl. auto.
    + intros Hin. destruct (Hhni _ Hbase Hin) as (fqv' & v' & Hv' & Hne & Heq).
      assert ((fqv', v') = (fqv, v)) as [= _ ->]; [|done].
      by eapply (NoDup_fmap_eq (λ e : string * Vocabulary, v_iri e.2)).
  - intros fqc c -> Hc Hbase. cbn [entity_iri].
    rewrite decide_False.
    + assert (is_class g (Res (URIRef (c_iri c))) = true) as ->; [|done].
      apply bool_decide_eq_true.
      destruct (class_visit_isolated model Hdistinct fuel st fqc c Hrun Hc)
        as (s1' & s2' & Hvisit' & Hiso').
      destruct (gen_class_exact model fuel _ s1' s2' Hvisit')
        as (parent & found & _ & _ & Hexact').
      apply Hiso', Hexact'; [intros ?; iri_discriminate|].
      right. left. auto.
    + intros Hin. destruct (Hhni _ Hbase Hin) as (fqv' & v' & Hv' & Hne & Heq).
      destruct (Hc' (c_iri c)) as (_ & Hn1 & _);
        [by apply (list_elem_of_fmap_2 (λ e, c_iri e.2) _ (fqc, c))|].
      apply Hn1. rewrite Heq.
      by apply (list_elem_of_fmap_2 (λ e, v_iri e.2) _ (fqv', v')).
Qed.

(** * The links of the documentation pages *)

Lemma split_two c s a b :
  Py.split c s = [a; b] ↔
  s = a +:+ String c b ∧ Py.contains c a = false ∧ Py.contains c b = false.
Proof.
  split.
  - intros Hsplit. split; [|split].
    + rewrite <- (join_split c s), Hsplit. done.
    + apply (split_pieces c s). rewrite Hsplit. left.
    + apply (split_pieces c s). rewrite Hsplit. right. left.
  - intros (-> & Ha & Hb).
    by rewrite split_app, (split_whole c a Ha), (split_whole c b Hb).
Qed.

Lemma unpack_spec name :
  Py.startswith name "/" = true →
  (∃ ns n,
     name = "/" +:+ ns +:+ "/" +:+ n
     ∧ Py.contains "/" ns = false ∧ Py.contains "/" n = false
     ∧ Mkdocs.unpack name = inr (ns, n))
  ∨ (length (Py.split "/" name) ≠ 3
     ∧ Mkdocs.unpack name = inl (Mkdocs.UnpackError (length (Py.split "/" name)))).
Proof.
  unfold Mkdocs.unpack. intros Hstart.
  destruct name as [|a rest]; [done|].
  assert (a = "/"%char) as ->.
  { unfold Py.startswith in Hstart.
    change (String.prefix "/" (String a rest))
      with (if Ascii.ascii_dec "/" a then String.prefix EmptyString rest
            else false) in Hstart.
    by destruct (Ascii.ascii_dec "/" a). }
  cbn [Py.split]. rewrite decide_True by done.
  destruct (Py.split "/" rest) as [|ns [|n [|x l]]] eqn:Hsplit.
  - right. done.
  - right. done.
  - left. apply split_two in Hsplit as (-> & Hns & Hn).
    exists ns, n. done.
  - right. simpl. split; [lia|done].
Qed.

(** The links to the pages of classes and properties (lines 75-88). A
    name that starts with ['/'] is linked if it reads [/ns/name] with no
    further ['/']: the text of the link is the name as it stands and its
    target is [name.md] in the directory [Classes] (or [Properties]) of
    the namespace [ns], two levels up. Any other name that starts with
    ['/'] makes both functions raise the [ValueError] of unpacking the
    number of pieces that [split] returns into three names. *)
Theorem class_link_qualified name :
  Py.startswith name "/" = true →
  (∃ ns n,
     name = "/" +:+ ns +:+ "/" +:+ n
     ∧ Py.contains "/" ns = false ∧ Py.contains "/" n = false
     ∧ Mkdocs.class_link name
       = inr ("[" +:+ name +:+ "](../../" +:+ ns +:+ "/Classes/" +:+ n +:+ ".md)")
     ∧ Mkdocs.property_link name
       = inr ("[" +:+ name +:+ "](../../" +:+ ns +:+ "/Properties/" +:+ n
              +:+ ".md)"))
  ∨ (length (Py.split "/" name) ≠ 3
     ∧ Mkdocs.class_link name
       = inl (Mkdocs.UnpackError (length (Py.split "/" name)))
     ∧ Mkdocs.property_link name
       = inl (Mkdocs.UnpackError (length (Py.split "/" name)))).
Proof.
  intros Hstart. unfold Mkdocs.class_link, Mkdocs.property_link.
  rewrite Hstart.
  destruct (unpack_spec name Hstart)
    as [(ns & n & Hname & Hns & Hn & ->)|[Hlen ->]]; [left|by right].
  exists ns, n. split; [done|]. split; [done|]. split; [done|].
  unfold Mkdocs.far_link. rewrite Hname.
  split; f_equal; rewrite !append_assoc; reflexivity.
Qed.

Lemma startswith_slash name :
  Py.startswith name "/" = true ↔ ∃ rest, name = String "/" rest.
Proof.
  unfold Py.startswith. split.
  - destruct name as [|a rest]; [done|].
    change (String.prefix "/" (String a rest))
      with (if Ascii.ascii_dec "/" a then String.prefix EmptyString rest
            else false).
    destruct (Ascii.ascii_dec "/" a) as [<-|]; [|done]. by exists rest.
  - intros [rest ->].
    change (String.prefix "/" (String "/" rest))
      with (String.prefix EmptyString rest).
    by destruct rest.
Qed.

(** When [type_link] raises (lines 91-111): on the empty name, where
    [name[0]] is an [IndexError], and on a name that starts with ['/']
    and does not split into three pieces, where the unpacking is a
    [ValueError]; on no other name, whatever the model. *)
Theorem type_link_raises name model e :
  Mkdocs.type_link name model = inl e ↔
  (name = EmptyString ∧ e = Mkdocs.IndexError)
  ∨ (Py.startswith name "/" = true
     ∧ length (Py.split "/" name) ≠ 3
     ∧ e = Mkdocs.UnpackError (length (Py.split "/" name))).
Proof.
  unfold Mkdocs.type_link.
  destruct (Py.startswith name "/") eqn:Hstart.
  - destruct (unpack_spec name Hstart)
      as [(ns & n & Hname & Hns & Hn & ->)|[Hlen ->]].
    + split; [done|]. intros [[-> _]|(_ & Hlen & _)]; [done|].
      destruct Hlen. rewrite Hname.
      change ("/" +:+ ns +:+ "/" +:+ n)
        with (EmptyString +:+ String "/" (ns +:+ String "/" n)).
      by rewrite !split_app, (split_whole "/" ns Hns), (split_whole "/" n Hn).
    + split.
      * intros [= <-]. by right.
      * intros [[-> _]|(_ & _ & ->)]; done.
  - destruct name as [|a rest].
    + split; [intros [= <-]; by left|]. by intros [[_ ->]|(? & _)].
    + destruct (Mkdocs.isupper a); (split; [done|]);
        by intros [[? _]|(? & _)].
Qed.

(** The directory that [type_link] points a name with a namespace to
    (lines 92-99): for a name that reads [/ns/name], the link goes to
    [name.md] in the directory [Vocabularies] of the namespace [ns] when
    the name is a key of [model.vocabularies], also when it is a key of
    [model.datatypes] as well; in [Datatypes] when it is a key of
    [model.datatypes] only; and in [Classes] otherwise, whether or not
    there is such a class. *)
Theorem type_link_qualified model ns n :
  Py.contains "/" ns = false → Py.contains "/" n = false →
  Mkdocs.type_link ("/" +:+ ns +:+ "/" +:+ n) model
  = inr ("[/" +:+ ns +:+ "/" +:+ n +:+ "](../../" +:+ ns +:+ "/"
         +:+ (if bool_decide (is_Some (dict_get ("/" +:+ ns +:+ "/" +:+ n)
                                         (vocabularies model)))
              then "Vocabularies"
              else if bool_decide (is_Some (datatypes model
                                              !! ("/" +:+ ns +:+ "/" +:+ n)))
              then "Datatypes" else "Classes")
         +:+ "/" +:+ n +:+ ".md)").
Proof.
  intros Hns Hn. unfold Mkdocs.type_link.
  assert (Py.startswith ("/" +:+ ns +:+ "/" +:+ n) "/" = true) as Hstart
    by (apply startswith_slash; by eexists).
  rewrite Hstart.
  destruct (unpack_spec _ Hstart)
    as [(ns' & n' & Hname & Hns' & Hn' & ->)|[Hlen _]].
  - assert (ns' = ns ∧ n' = n) as [-> ->]; [|done].
    change ("/" +:+ ns +:+ "/" +:+ n)
      with (EmptyString +:+ String "/" (ns +:+ String "/" n)) in Hname.
    change ("/" +:+ ns' +:+ "/" +:+ n')
      with (EmptyString +:+ String "/" (ns' +:+ String "/" n')) in Hname.
    apply (f_equal (Py.split "/")) in Hname.
    rewrite !split_app, (split_whole "/" ns Hns), (split_whole "/" n Hn),
      (split_whole "/" ns' Hns'), (split_whole "/" n' Hn') in Hname.
    by injection Hname as -> ->.
  - destruct Hlen.
    change ("/" +:+ ns +:+ "/" +:+ n)
      with (EmptyString +:+ String "/" (ns +:+ String "/" n)).
    by rewrite !split_app, (split_whole "/" ns Hns), (split_whole "/" n Hn).
Qed.

(** [type_link] and [class_link] agree on the names that could be
    classes: when no key of [model.vocabularies] or [model.datatypes] is
    the name or ends with ['/'] and the name, a name that starts with
    ['/'] or with a letter from [A] to [Z] gets from [type_link] the link,
    or the exception, that [class_link] gives it. *)
Theorem type_link_agrees_with_class_link name model :
  (∀ k v, (k, v) ∈ vocabularies model →
          k ≠ name ∧ Mkdocs.endswith k ("/" +:+ name) = false) →
  (∀ k v, datatypes model !! k = Some v →
          k ≠ name ∧ Mkdocs.endswith k ("/" +:+ name) = false) →
  Py.startswith name "/" = true
  ∨ (∃ a rest, name = String a rest ∧ Mkdocs.isupper a = true) →
  Mkdocs.type_link name model = Mkdocs.class_link name.
Proof.
  intros Hvocabularies Hdatatypes Hname.
  unfold Mkdocs.type_link, Mkdocs.class_link.
  destruct (Py.startswith name "/") eqn:Hstart.
  - rewrite bool_decide_eq_false_2.
    + rewrite bool_decide_eq_false_2; [done|].
      intros [v Hv]. by destruct (Hdatatypes name v Hv).
    + intros [v Hv]. apply dict_get_elem_of in Hv.
      by destruct (Hvocabularies name v Hv).
  - destruct Hname as [?|(a & rest & -> & Hupper)]; [done|].
    rewrite Hupper.
    assert (∀ V (keys : list (string * V)),
              (∀ k v, (k, v) ∈ keys →
                      Mkdocs.endswith k ("/" +:+ String a rest) = false) →
              Mkdocs.some_key_endswith keys (String a rest) = false) as Hnone.
    { intros V keys Hkeys. unfold Mkdocs.some_key_endswith.
      apply not_true_is_false. intros Hex.
      apply existsb_exists in Hex as ([k v] & Hin & Hend).
      apply list_elem_of_In in Hin. simpl in Hend.
      by rewrite (Hkeys k v Hin) in Hend. }
    rewrite !Hnone; [done|..].
    + intros k v Hin. apply elem_of_map_to_list in Hin.
      by destruct (Hdatatypes k v Hin).
    + intros k v Hin. by destruct (Hvocabularies k v Hin).
Qed.

(** * What a run says and reports *)

(** What the graph is about (the whole of [gen_rdf_ontology]): every
    statement of the graph of a successful run has for its subject the
    ontology, an entity of the model, an entry of one of its
    vocabularies, or a blank node that the run created; a blank node is
    the object of [sh:property] statements only, and the subject of
    statements of a property shape only. *)
Theorem graph_about_model fuel model st s p o :
  gen_rdf_ontology fuel model = Ok st →
  (s, p, o) ∈ graph st →
  (s = URIRef URI_BASE
   ∨ (∃ i, i ∈ subject_iris model ∧ s = URIRef i)
   ∨ (∃ b, b < bnodes st ∧ s = BNode b))
  ∧ (∀ b, o = Res (BNode b) → b < bnodes st ∧ p = SH.property)
  ∧ (∀ b, s = BNode b →
          p ∈ [SH.path; SH.class; SH.pattern; SH.datatype; SH.minCount;
               SH.maxCount]).
Proof.
  intros Hrun Hin.
  destruct (shapes_ok_run model fuel st Hrun) as [Hfresh _].
  destruct (Hfresh _ _ _ Hin) as [Hs Ho].
  pose proof (gen_rdf_ontology_emitted model fuel st _ Hrun Hin) as Hem.
  assert (∀ i, i ∈ (λ e, c_iri e.2) <$> classes model
               ∨ i ∈ (λ e, p_iri e.2) <$> properties model
               ∨ i ∈ (λ e, v_iri e.2) <$> vocabularies model
               ∨ i ∈ flat_map (λ e, entry_iris e.2) (vocabularies model)
               ∨ i ∈ (λ e, i_iri e.2) <$> individuals model →
               i ∈ subject_iris model) as Hiris.
  { intros i. unfold subject_iris. rewrite !elem_of_app. tauto. }
  inversion Hem as [| |fq c t Hc Ht|fq p' n t Hp' Hn Hid Ht
                    |fq v t Hv Ht|fq i t Hi Ht]; subst.
  - split; [by left|]. split; [done|]. done.
  - split; [by left|]. split; [done|]. done.
  - destruct Ht as [Ht|(b & pn & r & prop & n & _ & _ & _ & _ & _ & Ht)].
    + assert (s = URIRef (c_iri c)) as -> by (by inversion Ht).
      split; [|split].
      * right. left. exists (c_iri c). split; [|done]. apply Hiris. left.
        by apply (list_elem_of_fmap_2 (λ e, c_iri e.2) _ (fq, c)).
      * intros b ->. by inversion Ht.
      * done.
    + split; [|split].
      * inversion Ht; subst; try (right; right; eexists; by split).
        right. left. exists (c_iri c). split; [|done]. apply Hiris. left.
        by apply (list_elem_of_fmap_2 (λ e, c_iri e.2) _ (fq, c)).
      * intros b' ->. split; [done|]. by inversion Ht.
      * intros b' ->. inversion Ht; subst; set_solver.
  - assert (s = URIRef (p_iri p')) as -> by (by inversion Ht).
    split; [|split].
    + right. left. exists (p_iri p'). split; [|done]. apply Hiris. right. left.
      by apply (list_elem_of_fmap_2 (λ e, p_iri e.2) _ (fq, p')).
    + intros b ->. by inversion Ht.
    + done.
  - split; [|split].
    + right. left.
      destruct (vocabulary_emits_subject v _ Ht) as [Hs'|(i & Hi & Hs')];
        simpl in Hs'; subst s.
      * exists (v_iri v). split; [|done]. apply Hiris. right. right. left.
        by apply (list_elem_of_fmap_2 (λ e, v_iri e.2) _ (fq, v)).
      * exists i. split; [|done]. apply Hiris. do 3 right. left.
        by eapply elem_of_entry_iris.
    + intros b ->. by inversion Ht.
    + intros b ->. by inversion Ht.
  - assert (s = URIRef (i_iri i)) as -> by (by inversion Ht).
    split; [|split].
    + right. left. exists (i_iri i). split; [|done]. apply Hiris. do 4 right.
      by apply (list_elem_of_fmap_2 (λ e, i_iri e.2) _ (fq, i)).
    + intros b ->. by inversion Ht.
    + done.
Qed.

(** ** The diagnostics of a run *)

Lemma log_add t st : log (add t st) = log st.
Proof. done. Qed.

Lemma log_add_xsd s p rng propname st :
  log (add_xsd s p rng propname st)
  = log st ++ (if Py.startswith rng "xsd:" then []
               else [UnknownNamespace rng propname]).
Proof.
  unfold add_xsd, xsd_range. destruct (Py.startswith rng "xsd:"); simpl.
  - by rewrite app_nil_r.
  - done.
Qed.

Section diagnostics.
Context (model : Model).

Lemma shape_type_log bnode prop typename st st' :
  shape_type model bnode prop typename st = Ok st' →
  ∃ rng,
    log st' = log st ++ (if Py.startswith rng "xsd:" then []
                         else [UnknownNamespace rng (p_iri prop)]).
Proof.
  unfold shape_type. intros Hrun.
  destruct (dict_get typename (classes model)) as [dt|].
  { injection Hrun as <-. exists "xsd:". by rewrite app_nil_r. }
  destruct (dict_get typename (vocabularies model)) as [dt|].
  { injection Hrun as <-. exists "xsd:". by rewrite app_nil_r. }
  destruct (datatypes model !! typename) as [dt|].
  - apply bind_Ok in Hrun as (base & _ & [= <-]). exists base.
    rewrite log_add_xsd. by destruct (d_format dt !! "pattern").
  - injection Hrun as <-. exists typename. by rewrite log_add_xsd.
Qed.

Lemma shape_counts_log bnode r st st' :
  shape_counts bnode r st = Ok st' → log st' = log st.
Proof.
  unfold shape_counts. intros Hrun.
  apply bind_Ok in Hrun as (mincount & _ & Hrun).
  destruct (decide (maxCount r ≠ "*")).
  - apply bind_Ok in Hrun as (maxcount & _ & [= <-]).
    by destruct (decide (mincount ≠ 0%Z)).
  - injection Hrun as <-. by destruct (decide (mincount ≠ 0%Z)).
Qed.

Lemma gen_shape_log cnode e st st' :
  gen_shape model cnode e st = Ok st' →
  log st' = log st
  ∨ ∃ rng prop,
      dict_get (fqname e.2) (properties model) = Some prop
      ∧ Py.startswith rng "xsd:" = false
      ∧ log st' = log st ++ [UnknownNamespace rng (p_iri prop)].
Proof.
  destruct e as [pn r]. unfold gen_shape. simpl. intros Hrun.
  apply bind_Ok in Hrun as (prop & Hprop & Hrun). apply getitem_Ok in Hprop.
  apply bind_Ok in Hrun as (n & _ & Hrun).
  destruct (decide (n = "IdProperty")); [left; by injection Hrun as <-|].
  apply bind_Ok in Hrun as (prop_rng & _ & Hrun).
  apply bind_Ok in Hrun as (st1 & Htype & Hcounts).
  apply shape_counts_log in Hcounts. rewrite Hcounts.
  destruct (shape_type_log _ _ _ _ _ Htype) as (rng & ->). simpl.
  destruct (Py.startswith rng "xsd:") eqn:Hrng.
  - left. by rewrite app_nil_r.
  - right. by exists rng, prop.
Qed.

Lemma gen_class_log fuel e st st' :
  gen_class fuel model e st = Ok st' →
  ∃ st1, log st1 = log st
    ∧ for_each (gen_shape model (URIRef (c_iri e.2))) (c_properties e.2) st1
      = Ok st'.
Proof.
  unfold gen_class. intros Hrun.
  apply bind_Ok in Hrun as (parent & _ & Hrun).
  apply bind_Ok in Hrun as (found & _ & Hrun).
  destruct (c_properties e.2) as [|pe props] eqn:Hprops.
  - injection Hrun as <-. eexists. split; [|done].
    by destruct (truthy (c_summary e.2)), parent, (found.2).
  - eexists. split; [|exact Hrun].
    by destruct (truthy (c_summary e.2)), parent, (found.2).
Qed.

Lemma gen_property_log e st st' :
  gen_property model e st = Ok st' →
  log st' = log st
  ∨ ∃ rng,
      Py.startswith rng "xsd:" = false
      ∧ log st' = log st ++ [UnknownNamespace rng (p_name e.2)].
Proof.
  unfold gen_property. intros Hrun.
  apply bind_Ok in Hrun as (n & _ & Hrun).
  destruct (decide (n = "IdProperty")); [left; by injection Hrun as <-|].
  apply bind_Ok in Hrun as (rng & _ & Hrun).
  assert (∀ rng' s,
            s = (let st := add (URIRef (p_iri e.2), RDF.type, Res RDF.Property) st in
                 let st := if truthy (p_summary e.2)
                           then add (URIRef (p_iri e.2), RDFS.comment,
                                     Literal (default EmptyString (p_summary e.2))
                                       (Some "en")) st
                           else st in
                 if decide (n = "ObjectProperty")
                 then add (URIRef (p_iri e.2), RDF.type, Res OWL.ObjectProperty) st
                 else if decide (n = "DataProperty")
                 then add (URIRef (p_iri e.2), RDF.type,
                           Res OWL.DatatypeProperty) st
                 else st) →
            log (add_xsd (URIRef (p_iri e.2)) RDFS.range rng' (p_name e.2) s)
            = log st
            ∨ ∃ rng,
                Py.startswith rng "xsd:" = false
                ∧ log (add_xsd (URIRef (p_iri e.2)) RDFS.range rng' (p_name e.2) s)
                  = log st ++ [UnknownNamespace rng (p_name e.2)]) as Hxsd.
  { intros rng' s ->. rewrite log_add_xsd.
    assert (∀ s0, log s0 = log st →
              log (if decide (n = "ObjectProperty")
                   then add (URIRef (p_iri e.2), RDF.type,
                             Res OWL.ObjectProperty) s0
                   else if decide (n = "DataProperty")
                   then add (URIRef (p_iri e.2), RDF.type,
                             Res OWL.DatatypeProperty) s0
                   else s0) = log st) as Hlog
      by (intros s0 Hs0; by repeat destruct (decide _)).
    simpl. rewrite Hlog by (by destruct (truthy _)).
    destruct (Py.startswith rng' "xsd:") eqn:Hrng'.
    - left. by rewrite app_nil_r.
    - right. by exists rng'. }
  destruct (Py.contains ":" rng).
  { injection Hrun as <-. by apply Hxsd. }
  destruct (datatypes model !! _) as [dt|].
  - apply bind_Ok in Hrun as (base & _ & [= <-]). by apply Hxsd.
  - apply bind_Ok in Hrun as (dt & _ & [= <-]). left. simpl.
    by destruct (truthy _), (decide (n = "ObjectProperty")),
      (decide (n = "DataProperty")).
Qed.

Lemma gen_vocabulary_log e st st' :
  gen_vocabulary e st = Ok st' → log st' = log st.
Proof.
  unfold gen_vocabulary. intros Hrun.
  transitivity (log (if truthy (v_summary e.2)
      then add (URIRef (v_iri e.2), RDFS.comment,
                Literal (default EmptyString (v_summary e.2)) (Some "en"))
            (add (URIRef (v_iri e.2), RDF.type, Res OWL.Class)
               (add (URIRef (v_iri e.2), RDF.type, Res RDFS.Class) st))
      else add (URIRef (v_iri e.2), RDF.type, Res OWL.Class)
             (add (URIRef (v_iri e.2), RDF.type, Res RDFS.Class) st)));
    [|by destruct (truthy _)].
  eapply (for_each_invariant _ (λ s, log s = _)); [|reflexivity|exact Hrun].
  intros [en d] s s' _ Hs [= <-]. done.
Qed.

Lemma gen_individual_log e st st' :
  gen_individual model e st = Ok st' → log st' = log st.
Proof.
  unfold gen_individual. intros Hrun.
  apply bind_Ok in Hrun as (typ & _ & Hrun).
  apply bind_Ok in Hrun as (dt & _ & [= <-]).
  by destruct (truthy (i_summary e.2)), (truthy (i_metadata e.2 !! "IRI")).
Qed.

(** What a run reports (lines 50-55 and their callers): every
    diagnostic of a successful run is an unknown-namespace report about
    a text that does not start with [xsd:], and it names a property of
    the model, by its IRI when the report comes from a property shape
    and by its short name when it comes from the visit of the property.
    The builder reports nothing else. *)
Theorem run_diagnostics fuel st d :
  gen_rdf_ontology fuel model = Ok st →
  d ∈ log st →
  ∃ rng fq prop,
    (fq, prop) ∈ properties model
    ∧ Py.startswith rng "xsd:" = false
    ∧ (d = UnknownNamespace rng (p_iri prop)
       ∨ d = UnknownNamespace rng (p_name prop)).
Proof.
  intros Hrun.
  destruct (gen_rdf_ontology_passes model fuel st Hrun)
    as (st1 & st2 & st3 & H1 & H2 & H3 & H4).
  revert d. apply Forall_forall.
  eapply (for_each_invariant _ (λ s, Forall _ (log s))); [| |exact H4].
  { intros e s s' _ Hs Hbody. by rewrite (gen_individual_log _ _ _ Hbody). }
  eapply (for_each_invariant _ (λ s, Forall _ (log s))); [| |exact H3].
  { intros e s s' _ Hs Hbody. by rewrite (gen_vocabulary_log _ _ _ Hbody). }
  eapply (for_each_invariant _ (λ s, Forall _ (log s))); [| |exact H2].
  { intros [fq p] s s' Hp Hs Hbody.
    destruct (gen_property_log _ _ _ Hbody) as [->|(rng & Hrng & ->)]; [done|].
    apply Forall_app. split; [done|]. apply Forall_singleton.
    exists rng, fq, p. auto. }
  eapply (for_each_invariant _ (λ s, Forall _ (log s))); [| |exact H1].
  { intros e s s' _ Hs Hbody.
    destruct (gen_class_log _ _ _ _ Hbody) as (sh & Hsh & Hloop).
    eapply (for_each_invariant _ (λ s, Forall _ (log s))); [| |exact Hloop].
    - intros r s0 s0' _ Hs0 Hshape.
      destruct (gen_shape_log _ _ _ _ Hshape)
        as [->|(rng & prop & Hprop & Hrng & ->)]; [done|].
      apply Forall_app. split; [done|]. apply Forall_singleton.
      exists rng, (fqname r.2), prop.
      split; [by apply dict_get_elem_of|]. auto.
    - by rewrite Hsh. }
  constructor.
Qed.

End diagnostics.

(** * The further properties on the examples *)

Lemma class_declared_witness :
  ∃ st,
    gen_rdf_ontology 2 Scenario.model_B = Ok st
    ∧ (∀ o, (URIRef (c_iri Scenario.tool), RDFS.comment, o) ∉ graph st)
    ∧ (∀ o, (URIRef (c_iri Scenario.tool), RDFS.subClassOf, o) ∈ graph st ↔
            ∃ parent, get_parent Scenario.tool Scenario.model_B = Ok (Some parent)
                      ∧ o = Res (URIRef (c_iri parent))).
Proof.
  assert (∃ st, gen_rdf_ontology 2 Scenario.model_B = Ok st) as [st Hrun]
    by (eexists; vm_compute; reflexivity).
  exists st. split; [exact Hrun|].
  destruct (class_declared 2 Scenario.model_B st "/Build/Tool" Scenario.tool)
    as (_ & _ & Hcomment & Hparent);
    [exact Hrun|right; left|exact model_B_distinct_iris|].
  split; [|exact Hparent].
  intros o Ho. apply Hcomment in Ho as (s & Hs & _). discriminate Hs.
Defined.

Lemma walk_result_recorded_witness :
  ∃ st,
    gen_rdf_ontology 2 Scenario.model_B = Ok st
    ∧ ∃ referenceable id_property,
        inheritance_walk 2 Scenario.model_B Scenario.tool
        = Ok (referenceable, id_property)
        ∧ (∀ o, (URIRef (c_iri Scenario.tool), SPDXS.referenceable, o) ∈ graph st ↔
                o = Literal referenceable None)
        ∧ (∀ o, (URIRef (c_iri Scenario.tool), SPDXS.idPropertyName, o)
                ∈ graph st ↔
                ∃ id, id_property = Some id ∧ o = Literal id None).
Proof.
  eexists. split; [vm_compute; reflexivity|].
  apply (walk_result_recorded 2 Scenario.model_B _ "/Build/Tool" Scenario.tool);
    [vm_compute; reflexivity|right; left|exact model_B_distinct_iris].
Defined.

Lemma property_declared_witness :
  ∃ st,
    gen_rdf_ontology 2 Scenario.model_B = Ok st
    ∧ ∀ o, o ≠ Res OWL.Ontology →
        ((URIRef (p_iri Scenario.status_of), RDF.type, o) ∈ graph st ↔
         o = Res RDF.Property
         ∨ ("ObjectProperty" = "ObjectProperty" ∧ o = Res OWL.ObjectProperty)
         ∨ ("ObjectProperty" = "DataProperty" ∧ o = Res OWL.DatatypeProperty)).
Proof.
  eexists. split; [vm_compute; reflexivity|].
  apply (property_declared 2 Scenario.model_B _ "/Core/status"
           Scenario.status_of "ObjectProperty");
    [vm_compute; reflexivity|do 2 right; left|reflexivity|discriminate
    |exact model_B_distinct_iris].
Defined.

Lemma model_D_distinct_iris : distinct_iris Examples.model_D.
Proof. apply (bool_decide_unpack _). vm_compute. exact I. Qed.

Lemma property_range_witness :
  ∃ st,
    gen_rdf_ontology 1 Examples.model_D = Ok st
    ∧ (URIRef (p_iri Examples.version), RDFS.range,
       Res (URIRef "http://www.w3.org/2001/XMLSchema#string")) ∈ graph st.
Proof.
  assert (∃ st, gen_rdf_ontology 1 Examples.model_D = Ok st) as [st Hrun]
    by (eexists; vm_compute; reflexivity).
  exists st. split; [exact Hrun|].
  destruct (property_range 1 Examples.model_D st "/Core/version"
              Examples.version "DataProperty")
    as (rng & Hrng & Hrange);
    [exact Hrun|left|reflexivity|discriminate|exact model_D_distinct_iris|].
  apply Hrange. right. left.
  injection Hrng as <-. split; [reflexivity|].
  exists Examples.semver, "xsd:string". repeat split; reflexivity.
Defined.

Lemma vocabulary_declared_witness :
  ∃ st,
    gen_rdf_ontology 2 Scenario.model_B = Ok st
    ∧ (∀ o, (URIRef (v_iri Scenario.status +:+ "/" +:+ "Active"), RDFS.label, o)
            ∈ graph st ↔ o = Literal "Active" None)
    ∧ (∀ o, (URIRef (v_iri Scenario.status +:+ "/" +:+ "Active"), RDFS.comment, o)
            ∈ graph st ↔ o = Literal "in use" (Some "en")).
Proof.
  assert (∃ st, gen_rdf_ontology 2 Scenario.model_B = Ok st) as [st Hrun]
    by (eexists; vm_compute; reflexivity).
  exists st. split; [exact Hrun|].
  destruct (vocabulary_declared 2 Scenario.model_B st "/Core/Status"
              Scenario.status) as (_ & _ & Hentries);
    [exact Hrun|left|exact model_B_distinct_iris|].
  destruct (Hentries "Active" "in use") as (_ & Hlabel & Hcomment); [left|].
  split; [exact Hlabel|exact Hcomment].
Defined.

Lemma individual_declared_witness :
  ∃ st,
    gen_rdf_ontology 2 Scenario.model_B = Ok st
    ∧ ∀ o, (URIRef (i_iri Scenario.noassertion), OWL.sameAs, o) ∈ graph st ↔
           o = Res (URIRef "http://example.org/noassert").
Proof.
  assert (∃ st, gen_rdf_ontology 2 Scenario.model_B = Ok st) as [st Hrun]
    by (eexists; vm_compute; reflexivity).
  exists st. split; [exact Hrun|].
  destruct (individual_declared 2 Scenario.model_B st "/Core/NOASSERTION"
              Scenario.noassertion) as (typ & dt & _ & _ & _ & _ & Hsame);
    [exact Hrun|left|exact model_B_distinct_iris|].
  intros o. rewrite Hsame. split.
  - intros (iri & [= <-] & _ & ->). reflexivity.
  - intros ->. eexists. split; [reflexivity|]. split; [discriminate|reflexivity].
Defined.

Lemma shape_values_witness :
  ∃ st,
    gen_rdf_ontology 1 Examples.model_D = Ok st
    ∧ (∀ o, (BNode 0, SH.class, o) ∉ graph st)
    ∧ (∀ o, (BNode 0, SH.pattern, o) ∈ graph st ↔
            o = Literal "^[0-9]+[.][0-9]+[.][0-9]+$" None)
    ∧ (∀ o, (BNode 0, SH.datatype, o) ∈ graph st ↔
            o = Res (URIRef "http://www.w3.org/2001/XMLSchema#string")).
Proof.
  eexists. split; [vm_compute; reflexivity|].
  match goal with
  | |- context [graph ?st] =>
      destruct (shape_values 1 Examples.model_D st
                  (URIRef (c_iri Examples.package)) 0)
        as (fq & c & pn & r & prop & rng & Hc & _ & Hr & Hprop & Hrng & _
            & Hclass & Hpattern & Hdatatype);
        [vm_compute; reflexivity|apply list_elem_of_In; simpl; auto 20|]
  end.
  apply list_elem_of_In in Hc. simpl in Hc. destruct Hc as [[= <- <-]|[]].
  apply list_elem_of_In in Hr. simpl in Hr. destruct Hr as [[= <- <-]|[]].
  injection Hprop as <-. injection Hrng as <-.
  split; [|split].
  - intros o Ho. apply Hclass in Ho as [(dt & Hdt & _)|(_ & dt & Hdt & _)];
      discriminate Hdt.
  - intros o. rewrite Hpattern. split.
    + intros (_ & _ & dt & pat & Hdt & Hpat & ->).
      injection Hdt as <-. by injection Hpat as <-.
    + intros ->. split; [reflexivity|]. split; [reflexivity|].
      exists Examples.semver, "^[0-9]+[.][0-9]+[.][0-9]+$".
      repeat split; reflexivity.
  - intros o. rewrite Hdatatype. split.
    + intros (_ & _ & [(dt & base & Hdt & Hbase & _ & ->)|(Hdt & _)]).
      * injection Hdt as <-. by injection Hbase as <-.
      * discriminate Hdt.
    + intros ->. split; [reflexivity|]. split; [reflexivity|]. left.
      exists Examples.semver, "xsd:string". repeat split; reflexivity.
Defined.

Lemma blank_nodes_are_shapes_witness :
  ∃ st, gen_rdf_ontology 2 Scenario.model_B = Ok st ∧ bnodes st = 2.
Proof.
  assert (∃ st, gen_rdf_ontology 2 Scenario.model_B = Ok st) as [st Hrun]
    by (eexists; vm_compute; reflexivity).
  exists st. split; [exact Hrun|].
  exact (proj1 (blank_nodes_are_shapes 2 Scenario.model_B st Hrun)).
Defined.

Lemma run_resolves_references_witness :
  ∃ st,
    gen_rdf_ontology 2 Scenario.model_B = Ok st
    ∧ ∀ fq i, (fq, i) ∈ individuals Scenario.model_B →
        ∃ typ, i_metadata i !! "type" = Some typ
          ∧ is_Some (types Scenario.model_B
                       !! resolve_ref (ns_name (i_ns i)) typ).
Proof.
  assert (∃ st, gen_rdf_ontology 2 Scenario.model_B = Ok st) as [st Hrun]
    by (eexists; vm_compute; reflexivity).
  exists st. split; [exact Hrun|].
  exact (proj2 (proj2 (run_resolves_references 2 Scenario.model_B st Hrun))).
Defined.

Lemma loop_parent : parent_of Examples.model_loop Examples.loop Examples.loop.
Proof. reflexivity. Qed.

Lemma loop_reach x :
  rtc (parent_of Examples.model_loop) Examples.loop x → x = Examples.loop.
Proof.
  revert x. apply rtc_ind_r; [done|]. intros y z _ Hyz ->.
  unfold parent_of in Hyz. by injection Hyz as <-.
Qed.

Lemma cyclic_walk_never_returns_witness :
  inheritance_walk 9 Examples.model_loop Examples.loop = OutOfFuel
  ∧ ¬ is_Ok (gen_rdf_ontology 9 Examples.model_loop).
Proof.
  destruct (cyclic_walk_never_returns Examples.model_loop Examples.loop
              Examples.loop) as (_ & Hrun & Hfuel).
  - apply rtc_refl.
  - apply tc_once, loop_parent.
  - split; [|apply (Hrun "/Core/Loop"); left].
    apply Hfuel.
    + intros x ->%loop_reach. by eexists.
    + intros x ->%loop_reach. constructor.
Defined.

Lemma context_terms_sound_witness :
  ∃ ns name p o,
    (URIRef (URI_BASE +:+ ns +:+ "/" +:+ name), p, o) ∈ Scenario.colliding
    ∧ "a_b" = (if decide (ns = "Core") then name
               else Py.lower ns +:+ "_" +:+ name)
    ∧ VNode (URIRef "https://rdf.spdx.org/v3/A/b")
      = get_subject_term Scenario.colliding
          (has_named_individuals Scenario.colliding)
          (URIRef (URI_BASE +:+ ns +:+ "/" +:+ name)).
Proof.
  destruct (context_terms_sound Scenario.colliding [] "a_b"
              (VNode (URIRef "https://rdf.spdx.org/v3/A/b")))
    as (ns & name & p & o & Hin & _ & _ & _ & Hkey & Hterm & _).
  - apply list_elem_of_In. vm_compute. auto.
  - discriminate.
  - discriminate.
  - by exists ns, name, p, o.
Defined.

Lemma id_property_name_is_context_key_witness :
  subject_key [] (URIRef "https://rdf.spdx.org/v3/Build/toolId")
  = Some "build_toolId".
Proof.
  apply (id_property_name_is_context_key [] Scenario.tool_id "Build" "toolId");
    [reflexivity|reflexivity|reflexivity|apply not_elem_of_nil].
Defined.

Lemma property_context_term_witness :
  ∃ st,
    gen_rdf_ontology 2 Scenario.model_B = Ok st
    ∧ get_subject_term (graph st) (has_named_individuals (graph st))
        (URIRef (p_iri Scenario.status_of))
      = VVocab (URIRef (p_iri Scenario.status_of))
          "https://rdf.spdx.org/v3/Core/Status/".
Proof.
  assert (∃ st, gen_rdf_ontology 2 Scenario.model_B = Ok st) as [st Hrun]
    by (eexists; vm_compute; reflexivity).
  exists st. split; [exact Hrun|].
  destruct (property_context_term 2 Scenario.model_B st "/Core/status"
              Scenario.status_of "ObjectProperty") as [_ Hobject];
    [exact Hrun|do 2 right; left|reflexivity|discriminate
    |exact model_B_distinct_iris|].
  destruct (Hobject eq_refl "Status" (EVocabulary Scenario.status))
    as (Hvocab & _); [reflexivity..|].
  apply (Hvocab "/Core/Status" Scenario.status); [reflexivity|left|discriminate].
Defined.

Lemma class_link_qualified_witness :
  Mkdocs.class_link "/Core/Agent" = inr "[/Core/Agent](../../Core/Classes/Agent.md)"
  ∧ Mkdocs.class_link "/Core/Agent/x" = inl (Mkdocs.UnpackError 4).
Proof.
  split.
  - destruct (class_link_qualified "/Core/Agent")
      as [(ns & n & _ & _ & _ & _ & _)|(Hlen & _)];
      [reflexivity|reflexivity|by destruct Hlen].
  - destruct (class_link_qualified "/Core/Agent/x")
      as [(ns & n & _ & _ & _ & _ & _)|(_ & Hlink & _)];
      [reflexivity|reflexivity|exact Hlink].
Defined.

Lemma type_link_qualified_witness :
  Mkdocs.type_link "/Core/Status" Scenario.model_B
  = inr "[/Core/Status](../../Core/Vocabularies/Status.md)".
Proof.
  apply (type_link_qualified Scenario.model_B "Core" "Status"); reflexivity.
Defined.

Lemma type_link_agrees_with_class_link_witness :
  Mkdocs.type_link "Agent" Scenario.model_B = inr "[Agent](../Classes/Agent.md)".
Proof.
  rewrite type_link_agrees_with_class_link; [reflexivity|..].
  - intros k v [[= -> ->]|Hin%elem_of_nil]%elem_of_cons; [|done].
    split; [discriminate|reflexivity].
  - intros k v Hk. discriminate Hk.
  - right. by exists "A"%char, "gent".
Defined.

Lemma graph_about_model_witness :
  ∃ st,
    gen_rdf_ontology 2 Scenario.model_B = Ok st
    ∧ (URIRef (c_iri Scenario.agent_B), SH.property, Res (BNode 1)) ∈ graph st
    ∧ 1 < bnodes st
    ∧ ∃ i, i ∈ subject_iris Scenario.model_B
           ∧ URIRef (c_iri Scenario.agent_B) = URIRef i.
Proof.
  eexists. split; [vm_compute; reflexivity|].
  match goal with
  | |- ?t ∈ graph ?st ∧ _ =>
      assert (t ∈ graph st) as Hin
        by (apply list_elem_of_In; simpl; auto 20);
      destruct (graph_about_model 2 Scenario.model_B st _ _ _
                  ltac:(vm_compute; reflexivity) Hin)
        as (Hsubject & Hobject & _)
  end.
  split; [exact Hin|]. split; [exact (proj1 (Hobject 1 eq_refl))|].
  destruct Hsubject as [Hbase|[Hiri|(b & _ & Hb)]];
    [discriminate Hbase|exact Hiri|discriminate Hb].
Defined.

Lemma run_diagnostics_witness :
  ∃ st,
    gen_rdf_ontology 0 (Scenario.model_C "foo:hue") = Ok st
    ∧ ∃ rng fq prop,
        (fq, prop) ∈ properties (Scenario.model_C "foo:hue")
        ∧ Py.startswith rng "xsd:" = false
        ∧ (UnknownNamespace "foo:hue" "color" = UnknownNamespace rng (p_iri prop)
           ∨ UnknownNamespace "foo:hue" "color"
             = UnknownNamespace rng (p_name prop)).
Proof.
  assert (∃ st, gen_rdf_ontology 0 (Scenario.model_C "foo:hue") = Ok st)
    as [st Hrun] by (eexists; vm_compute; reflexivity).
  exists st. split; [exact Hrun|].
  apply (run_diagnostics (Scenario.model_C "foo:hue") 0 st); [exact Hrun|].
  injection Hrun as <-. left.
Defined.
